(** * MINI-HOUSE-BUILD: the Gemini service layer

    A shallow embedding of [services/geminiService.ts] (the retry wrapper,
    the batched promise runner and the generation / edit orchestration) and
    of the data types of [types.ts], with the properties of the
    specification stated and proved over it.

    Modelling conventions.
    - A JavaScript string is the [string] of its UTF-8 bytes, so that a
      character outside ASCII takes two to four bytes; [trim] removes every
      white space and line terminator of the language, and [toLowerCase]
      turns into ASCII letters all the characters that the language does.
    - A [number] used as a counter or a size is a [Z] or a [nat]; a duration
      in milliseconds is a double-precision number, held as the rational
      [Q] that it is, and every product and sum that yields one is rounded
      as the machine rounds it ([Binary64]).
    - A promise is the pair of the outcome it settles with and the instant at
      which it settles; [Promise.all] is the reaction loop of the language
      specification, run over the settlements in the order of their instants.
    - The remote service, [Math.random] and [JSON.parse] are parameters. *)

From Stdlib Require Import String Ascii List ZArith QArith Qround Qpower Lqa Lia Bool Arith PeanoNat.
From Stdlib Require Import Permutation Sorted.
From Stdlib Require Floats.
Import ListNotations.

Set Warnings "-register-all".

Close Scope Q_scope.
Open Scope string_scope.
Open Scope list_scope.

(* ================================================================== *)
(** ** JavaScript strings *)
(* ================================================================== *)

Module JsString.

(** The double quote and the line feed, which a literal cannot hold. *)
Definition dq : string := String (ascii_of_nat 34) EmptyString.
Definition nl : string := String (ascii_of_nat 10) EmptyString.

Definition lower_ascii (c : ascii) : ascii :=
  let n := nat_of_ascii c in
  if (65 <=? n)%nat && (n <=? 90)%nat then ascii_of_nat (n + 32) else c.

(** [String.prototype.toLowerCase], as far as ASCII goes.  Besides [A-Z],
    two characters have a lower case with an ASCII letter in it: U+212A
    KELVIN SIGN (bytes E2 84 AA) becomes [k], and U+0130 LATIN CAPITAL
    LETTER I WITH DOT ABOVE (bytes C4 B0) becomes [i] followed by U+0307
    (bytes CC 87).  Every other character outside ASCII is kept as it is:
    its lower case is again outside ASCII, and the program only looks for
    ASCII texts in the result. *)
Fixpoint toLowerCase (s : string) : string :=
  match s with
  | EmptyString => EmptyString
  | String c r =>
      let plain := String (lower_ascii c) (toLowerCase r) in
      match r with
      | String c1 r1 =>
          if (nat_of_ascii c =? 196)%nat && (nat_of_ascii c1 =? 176)%nat
          then String "i" (String (ascii_of_nat 204) (String (ascii_of_nat 135)
                                                         (toLowerCase r1)))
          else
            match r1 with
            | String c2 r2 =>
                if (nat_of_ascii c =? 226)%nat && (nat_of_ascii c1 =? 132)%nat
                   && (nat_of_ascii c2 =? 170)%nat
                then String "k" (toLowerCase r2)
                else plain
            | EmptyString => plain
            end
      | EmptyString => plain
      end
  end.

(** [String.prototype.includes]. *)
Fixpoint includes (hay needle : string) : bool :=
  String.prefix needle hay ||
  match hay with
  | EmptyString => false
  | String _ r => includes r needle
  end.

(** The number of bytes of the white space or line terminator that [s]
    starts with, and 0 when it starts with none.  These are the characters
    that [trim] removes: U+0009 to U+000D, U+0020, U+00A0, U+1680, U+2000
    to U+200A, U+2028, U+2029, U+202F, U+205F, U+3000 and U+FEFF. *)
Definition white_length (s : string) : nat :=
  match s with
  | EmptyString => 0
  | String c0 r0 =>
      let b0 := nat_of_ascii c0 in
      if ((9 <=? b0) && (b0 <=? 13) || (b0 =? 32))%nat then 1
      else
        match r0 with
        | EmptyString => 0
        | String c1 r1 =>
            let b1 := nat_of_ascii c1 in
            if ((b0 =? 194) && (b1 =? 160))%nat then 2
            else
              match r1 with
              | EmptyString => 0
              | String c2 _ =>
                  let b2 := nat_of_ascii c2 in
                  if ((b0 =? 225) && (b1 =? 154) && (b2 =? 128)
                      || (b0 =? 226) && (b1 =? 128)
                         && ((128 <=? b2) && (b2 <=? 138)
                             || (b2 =? 168) || (b2 =? 169) || (b2 =? 175))
                      || (b0 =? 226) && (b1 =? 129) && (b2 =? 159)
                      || (b0 =? 227) && (b1 =? 128) && (b2 =? 128)
                      || (b0 =? 239) && (b1 =? 187) && (b2 =? 191))%nat
                  then 3 else 0
              end
        end
  end.

(** Dropping the white space at the front; [skip] counts the bytes that
    are left of the character being dropped. *)
Fixpoint drop_white (skip : nat) (s : string) : string :=
  match s with
  | EmptyString => EmptyString
  | String _ r =>
      match skip with
      | S k => drop_white k r
      | O =>
          match white_length s with
          | O => s
          | S k => drop_white k r
          end
      end
  end.

(** Whether a string is made of white space only. *)
Fixpoint all_white (skip : nat) (s : string) : bool :=
  match s with
  | EmptyString => true
  | String _ r =>
      match skip with
      | S k => all_white k r
      | O =>
          match white_length s with
          | O => false
          | S k => all_white k r
          end
      end
  end.

Definition trimStart (s : string) : string := drop_white 0 s.

Fixpoint trimEnd (s : string) : string :=
  match s with
  | EmptyString => EmptyString
  | String c r => if all_white 0 s then EmptyString else String c (trimEnd r)
  end.

(** [String.prototype.trim]. *)
Definition trim (s : string) : string := trimEnd (trimStart s).

(** Truthiness of a string: every string but the empty one. *)
Definition truthy (s : string) : bool :=
  match s with
  | EmptyString => false
  | String _ _ => true
  end.

(** Joining the pieces of a template literal. *)
Definition template (parts : list string) : string := String.concat "" parts.

End JsString.

Import JsString.

(* ================================================================== *)
(** ** Thrown values and settled outcomes *)
(* ================================================================== *)

(** Anything can be thrown in JavaScript.  [ErrorObject] is a value for
    which [instanceof Error] holds; the others are not. *)
Inductive Thrown : Type :=
| ErrorObject (message : string)
| ThrownString (s : string)
| ThrownNumber (n : Z)
| ThrownRecord (fields : list (string * string))
| ThrownUndefined.

Definition instanceofError (error : Thrown) : bool :=
  match error with
  | ErrorObject _ => true
  | _ => false
  end.

(** How a call or a promise ends. *)
Inductive Outcome (T : Type) : Type :=
| Fulfilled (value : T)
| Rejected (reason : Thrown).
Arguments Fulfilled {T} value.
Arguments Rejected {T} reason.

Definition then_ {A B : Type} (f : A -> B) (o : Outcome A) : Outcome B :=
  match o with
  | Fulfilled v => Fulfilled (f v)
  | Rejected e => Rejected e
  end.

(* ================================================================== *)
(** ** Numbers *)
(* ================================================================== *)

(** A JavaScript [number] is an IEEE 754 double-precision number.  A finite
    one is held as the rational that it is, and an operation is the exact
    operation followed by rounding to the nearest double, the one with the
    even significand when two are as near.  The infinities and [NaN] have no
    place here: the operations are those of the language as long as their
    results stay below [2^1024]. *)
Module Binary64.

Definition pow2 (s : Z) : Q := ((2 # 1) ^ s)%Q.

(** The position of the leading bit of [x > 0]: the [k] with
    [2^k <= x < 2^(k+1)]. *)
Definition exponent (x : Q) : Z :=
  let e := (Z.log2 (Qnum x) - Z.log2 (Zpos (Qden x)))%Z in
  if Qle_bool (pow2 e) x then e else (e - 1)%Z.

(** The nearest integer, the even one of two that are as near. *)
Definition nearest_even (y : Q) : Z :=
  let f := Qfloor y in
  match Qcompare (y - inject_Z f) (1 # 2) with
  | Lt => f
  | Gt => (f + 1)%Z
  | Eq => if Z.even f then f else (f + 1)%Z
  end.

(** Rounding [x > 0] to 53 significant bits; below [2^-1022] the last bit
    kept is that of [2^-1074]. *)
Definition round_positive (x : Q) : Q :=
  let s := (Z.max (exponent x) (-1022) - 52)%Z in
  (inject_Z (nearest_even (x / pow2 s)) * pow2 s)%Q.

Definition round (x : Q) : Q :=
  match Qcompare x 0 with
  | Eq => 0%Q
  | Gt => round_positive x
  | Lt => (- round_positive (- x))%Q
  end.

(** [x * y] and [x + y]. *)
Definition mul (x y : Q) : Q := round (x * y).
Definition add (x y : Q) : Q := round (x + y).

(** [Math.pow(2, n)] for an integer [n], which is exact up to
    [n = 1023]. *)
Definition Math_pow2 (n : Z) : Q := pow2 n.

(** The finite double-precision numbers. *)
Definition finite (x : Q) : Prop :=
  exists m q : Z,
    (Z.abs m < 2 ^ 53)%Z /\ (-1074 <= q <= 971)%Z /\ (x == inject_Z m * pow2 q)%Q.

End Binary64.

(** The rational that a finite float of the proof assistant is.  These
    floats are the doubles of the machine, with its arithmetic; they serve
    to check the operations of [Binary64] against it on samples. *)
Definition Q_of_float (f : PrimFloat.float) : option Q :=
  match FloatOps.Prim2SF f with
  | SpecFloat.S754_zero _ => Some 0%Q
  | SpecFloat.S754_finite negative m e =>
      let v := (inject_Z (Z.pos m) * Binary64.pow2 e)%Q in
      Some (Qred (if negative then (- v)%Q else v))
  | _ => None
  end.

(* ================================================================== *)
(** ** API retry logic *)
(* ================================================================== *)

Definition isRateLimitError (error : Thrown) : bool :=
  match error with
  | ErrorObject msg =>
      let message := toLowerCase msg in
      includes message "quota" || includes message "rate limit" || includes message "429"
  | _ => false
  end.

(** A deferred call [() => Promise<T>] that may be invoked several times:
    [apiCall k] is the outcome of its invocation number [k] (from 0). *)
Definition Operation (T : Type) : Type := nat -> Outcome T.

(** What one run of the wrapper did: the outcome, the number of times the
    operation was invoked, and the delays slept between invocations, oldest
    first. *)
Record Run (T : Type) : Type := mkRun {
  outcome : Outcome T;
  attempts : nat;
  delays : list Q
}.
Arguments mkRun {T} outcome attempts delays.
Arguments outcome {T} r.
Arguments attempts {T} r.
Arguments delays {T} r.

Section Retry.
Context {T : Type}.
(** [Math_random k] is the value of the draw number [k] of [Math.random()]
    made by this run. *)
Variable Math_random : nat -> Q.
Variable apiCall : Operation T.
Variable maxRetries : Z.
Variable initialDelay : Z.

(** The body of [while (true)]: [attempt] failures have been counted so
    far and [slept] holds the delays already waited.  [None] means that the
    loop is still running when the fuel is spent. *)
Fixpoint retry_loop (fuel : nat) (attempt : nat) (slept : list Q) : option (Run T) :=
  match fuel with
  | O => None
  | S fuel' =>
      match apiCall attempt with
      | Fulfilled v => Some (mkRun (Fulfilled v) (S attempt) slept)
      | Rejected error =>
          let attempt := S attempt in
          if (maxRetries <=? Z.of_nat attempt)%Z || negb (isRateLimitError error)
          then Some (mkRun (Rejected error) attempt slept)
          else
            let delay :=
              Binary64.add
                (Binary64.mul (inject_Z initialDelay)
                              (Binary64.Math_pow2 (Z.of_nat attempt - 1)))
                (Binary64.mul (Math_random (attempt - 1)%nat) 1000%Q) in
            retry_loop fuel' attempt (slept ++ [delay])
      end
  end.

(** Iterations after which the loop has certainly left. *)
Definition retry_fuel : nat := S (Z.to_nat maxRetries).

Definition callApiWithRetry_opt : option (Run T) := retry_loop retry_fuel 0 [].

End Retry.

(** [callApiWithRetry]: the run of the loop.  The loop leaves within
    [retry_fuel] iterations (lemma [retry_loop_leaves] below), so that the
    second branch is never taken. *)
Definition callApiWithRetry {T : Type} (Math_random : nat -> Q)
    (apiCall : Operation T) (maxRetries : Z) (initialDelay : Z) : Run T :=
  match callApiWithRetry_opt Math_random apiCall maxRetries initialDelay with
  | Some r => r
  | None => mkRun (Rejected ThrownUndefined) 0 []
  end.

(** The default parameters [maxRetries = 3], [initialDelay = 1000]. *)
Definition callApiWithRetry_default {T : Type} (Math_random : nat -> Q)
    (apiCall : Operation T) : Run T :=
  callApiWithRetry Math_random apiCall 3 1000.

(** The delay computed before retry number [k] (from 1):
    [initialDelay * Math.pow(2, k - 1) + Math.random() * 1000]. *)
Definition delay_at (Math_random : nat -> Q) (initialDelay : Z) (k : nat) : Q :=
  Binary64.add
    (Binary64.mul (inject_Z initialDelay) (Binary64.Math_pow2 (Z.of_nat k - 1)))
    (Binary64.mul (Math_random (k - 1)%nat) 1000%Q).

(** The exponential part of that delay as the integer it is meant to be,
    [initialDelay * 2^(k-1)]. *)
Definition backoff (initialDelay : Z) (k : nat) : Q :=
  inject_Z (initialDelay * 2 ^ (Z.of_nat k - 1)).

(** The delay before retry [k] is computed within the double-precision
    numbers: the power of two, the exponential part and the exponential part
    plus 1000 are finite doubles (lemma [exact_backoff_integer] below: for
    an integer [initialDelay], as long as [|initialDelay| * 2^(k-1) + 1000]
    is below [2^53]). *)
Definition exact_backoff (initialDelay : Z) (k : nat) : Prop :=
  Binary64.finite (Binary64.Math_pow2 (Z.of_nat k - 1))
  /\ Binary64.finite (backoff initialDelay k)
  /\ Binary64.finite (backoff initialDelay k + 1000)%Q.

(** The contract of [Math.random]: a value in [0, 1). *)
Definition unit_interval (Math_random : nat -> Q) : Prop :=
  forall k, (0 <= Math_random k /\ Math_random k < 1)%Q.

(* ================================================================== *)
(** ** Promises and [Promise.all] *)
(* ================================================================== *)

(** A promise: what it settles with, and how long after its creation. *)
Record Promise (T : Type) : Type := mkPromise {
  settled : Outcome T;
  latency : nat
}.
Arguments mkPromise {T} settled latency.
Arguments settled {T} p.
Arguments latency {T} p.

(** A promise factory [() => Promise<T>]: invoking it starts the operation
    and returns its promise.  The factories of this repository are arrow
    functions around [callApiWithRetry], an [async] function; a factory that
    throws before it returns a promise is outside the model. *)
Definition Factory (T : Type) : Type := unit -> Promise T.

Section PromiseAll.
Context {T : Type}.

(** [values[index] = value] on an array that has this index. *)
Fixpoint set_index (index : nat) (value : option T) (values : list (option T))
  : list (option T) :=
  match values, index with
  | [], _ => []
  | _ :: rest, O => value :: rest
  | x :: rest, S index' => x :: set_index index' value rest
  end.

(** The slots that have been written. *)
Fixpoint written (values : list (option T)) : list T :=
  match values with
  | [] => []
  | Some v :: rest => v :: written rest
  | None :: rest => written rest
  end.

(** The settlements of the promises of an array, each with its index, in
    the order in which they happen: by latency, and by index among
    promises that settle at the same instant. *)
Fixpoint insert_settlement (x : nat * Promise T) (l : list (nat * Promise T))
  : list (nat * Promise T) :=
  match l with
  | [] => [x]
  | y :: l' =>
      if (latency (snd x) <=? latency (snd y))%nat then x :: l
      else y :: insert_settlement x l'
  end.

(** [x] settles no later than [y]. *)
Definition earlier (x y : nat * Promise T) : Prop :=
  (latency (snd x) <= latency (snd y))%nat.

Definition settlements (promises : list (Promise T)) : list (nat * Promise T) :=
  fold_right insert_settlement [] (combine (seq 0 (length promises)) promises).

(** The reactions of [Promise.all]: a fulfilment stores its value at the
    index of its promise and counts down, the last one resolves with the
    array; the first rejection rejects.  [None]: still pending. *)
Fixpoint react (events : list (nat * Promise T)) (values : list (option T))
    (remaining : nat) : option (Promise (list T)) :=
  match events with
  | [] => None
  | (index, p) :: rest =>
      match settled p with
      | Rejected reason => Some (mkPromise (Rejected reason) (latency p))
      | Fulfilled v =>
          let values := set_index index (Some v) values in
          let remaining := (remaining - 1)%nat in
          if (remaining =? 0)%nat
          then Some (mkPromise (Fulfilled (written values)) (latency p))
          else react rest values remaining
      end
  end.

(** [Promise.all(promises)], all the promises having been created at the
    same instant. *)
Definition Promise_all (promises : list (Promise T)) : option (Promise (list T)) :=
  match promises with
  | [] => Some (mkPromise (Fulfilled []) 0)
  | _ =>
      react (settlements promises)
            (repeat None (length promises)) (length promises)
  end.

End PromiseAll.

(** [Promise.all([a, b])] on a pair of promises of different types, where
    [b] is the promise of a call that was started before the calls behind
    [a], and [a] is the promise of an [async] function that awaits them.
    When both are rejected, the earlier rejection is handed on; at the same
    instant it is that of [b], whose rejection reaches [Promise.all] at
    once, while that of [a] has still to pass through the reactions of the
    promises that [a] awaits. *)
Definition Promise_all2 {A B : Type} (pa : Promise A) (pb : Promise B)
  : Promise (A * B) :=
  match settled pa, settled pb with
  | Fulfilled a, Fulfilled b =>
      mkPromise (Fulfilled (a, b)) (Nat.max (latency pa) (latency pb))
  | Rejected ea, Fulfilled _ => mkPromise (Rejected ea) (latency pa)
  | Fulfilled _, Rejected eb => mkPromise (Rejected eb) (latency pb)
  | Rejected ea, Rejected eb =>
      if (latency pa <? latency pb)%nat
      then mkPromise (Rejected ea) (latency pa)
      else mkPromise (Rejected eb) (latency pb)
  end.

(* ================================================================== *)
(** ** Running promise factories in batches *)
(* ================================================================== *)

(** [Array.prototype.slice(from, to)] for [0 <= from <= to]. *)
Definition slice {A : Type} (from to : nat) (l : list A) : list A :=
  firstn (to - from) (skipn from l).

(** What a run of [runPromisesInBatches] did: the promise it returned, and
    the indices of the factories it invoked, in the order of invocation. *)
Record BatchRun (T : Type) : Type := mkBatchRun {
  returned : Promise (list T);
  started : list nat
}.
Arguments mkBatchRun {T} returned started.
Arguments returned {T} b.
Arguments started {T} b.

(** A factory whose promise fulfils with [v]. *)
Definition fulfils {T : Type} (factory : Factory T) (v : T) : Prop :=
  settled (factory tt) = Fulfilled v.

Section Batches.
Context {T : Type}.
Variable promiseFactories : list (Factory T).
Variable batchSize : nat.

(** The [for] loop, at its test [i < promiseFactories.length]; [now] is
    the time elapsed since the call and [invoked] the factories invoked so
    far.  [None]: the loop is still running when the fuel is spent, or is
    suspended on a promise that never settles. *)
Fixpoint batch_loop (fuel : nat) (i : nat) (results : list T) (now : nat)
    (invoked : list nat) : option (BatchRun T) :=
  if (i <? length promiseFactories)%nat then
    match fuel with
    | O => None
    | S fuel' =>
        let batchFactories := slice i (i + batchSize) promiseFactories in
        let batchPromises := map (fun factory : Factory T => factory tt) batchFactories in
        let invoked := invoked ++ seq i (length batchFactories) in
        match Promise_all batchPromises with
        | None => None
        | Some all =>
            match settled all with
            | Rejected reason =>
                Some (mkBatchRun (mkPromise (Rejected reason) (now + latency all)) invoked)
            | Fulfilled batchResults =>
                batch_loop fuel' (i + batchSize) (results ++ batchResults)
                           (now + latency all) invoked
            end
        end
    end
  else Some (mkBatchRun (mkPromise (Fulfilled results) now) invoked).

Definition runPromisesInBatches : option (BatchRun T) :=
  batch_loop (length promiseFactories) 0 [] 0 [].

End Batches.

(* ================================================================== *)
(** ** Data types ([types.ts]) and JSON values *)
(* ================================================================== *)

(** A value produced by [JSON.parse]; [JNull] is [null]. *)
Inductive Json : Type :=
| JNull
| JBool (b : bool)
| JNumber (q : Q)
| JString (s : string)
| JArray (items : list Json)
| JObject (members : list (string * Json)).

Record Material : Type := mkMaterial {
  name : string;
  quantity : Z;
  dimensions : string
}.

Record CuttingList : Type := mkCuttingList {
  houseName : string;
  description : string;
  materials : list Material
}.

Record ImageView : Type := mkImageView {
  label : string;
  url : string
}.

Record EditPreferences : Type := mkEditPreferences {
  primaryColor : string;
  secondaryColor : string;
  roofMaterial : string;
  featureHighlights : string
}.

(** The value returned by a cycle.  [cuttingList] is declared
    [CuttingList | null]; at run time it holds whatever [JSON.parse]
    returned, the cast [as CuttingList] checking nothing. *)
Record CycleResult : Type := mkCycleResult {
  imageViews : option (list ImageView);
  sketchUrl : option string;
  cuttingList : Json;
  detailedDescription : string
}.

(* ================================================================== *)
(** ** The remote service *)
(* ================================================================== *)

(** A response schema of the structured-output mode. *)
Inductive Schema : Type :=
| SchemaString (about : string)
| SchemaInteger (about : string)
| SchemaArray (about : string) (items : Schema)
| SchemaObject (properties : list (string * Schema)) (required : list string).

Record ImagesConfig : Type := mkImagesConfig {
  numberOfImages : Z;
  outputMimeType : string;
  aspectRatio : string
}.

Record GenerateImagesParameters : Type := mkImagesParameters {
  images_model : string;
  prompt : string;
  images_config : ImagesConfig
}.

Record ContentConfig : Type := mkContentConfig {
  systemInstruction : string;
  responseMimeType : option string;
  responseSchema : option Schema
}.

Record GenerateContentParameters : Type := mkContentParameters {
  content_model : string;
  contents : string;
  content_config : ContentConfig
}.

Record Image : Type := mkImage { imageBytes : option string }.
Record GeneratedImage : Type := mkGeneratedImage { image : option Image }.
Record GenerateImagesResponse : Type := mkImagesResponse {
  generatedImages : option (list GeneratedImage)
}.
(** [text] is read as a string, as the code reads it. *)
Record GenerateContentResponse : Type := mkContentResponse { text : string }.

(** [ai.models]: the outcome of each call depends on its parameters and on
    how many times the closure that makes it has been invoked before. *)
Record Models : Type := mkModels {
  generateImages : GenerateImagesParameters -> Operation GenerateImagesResponse;
  generateContent : GenerateContentParameters -> Operation GenerateContentResponse
}.

(** A request sent to the service. *)
Inductive Request : Type :=
| ImagesRequest (p : GenerateImagesParameters)
| ContentRequest (p : GenerateContentParameters).

(** The text that a request carries to the model. *)
Definition request_prompt (r : Request) : string :=
  match r with
  | ImagesRequest p => prompt p
  | ContentRequest p => contents p
  end.

(** The places of the service layer that call [callApiWithRetry]. *)
Inductive CallSite : Type :=
| ViewSite (view : string)
| SketchSite
| CuttingListSite
| DescriptionSite.

(** The surroundings of a cycle: the service, the draws of [Math.random]
    and the time that the promise of each call site takes to settle, and
    [JSON.parse] ([None] when it throws a [SyntaxError]). *)
Record World : Type := mkWorld {
  ai_models : Models;
  Math_random : CallSite -> nat -> Q;
  took : CallSite -> nat;
  JSON_parse : string -> option Json
}.

(* ================================================================== *)
(** ** Asset generation *)
(* ================================================================== *)

Definition cuttingListSchema : Schema :=
  SchemaObject
    [ ("houseName", SchemaString "A fun and creative name for the miniature house.");
      ("description", SchemaString "A short, one-sentence description of the house design.");
      ("materials",
        SchemaArray "A list of simple craft materials needed to build the house."
          (SchemaObject
            [ ("name", SchemaString "The name of the material (e.g., Cardboard, Craft Stick, Bottle Cap).");
              ("quantity", SchemaInteger "The number of pieces of this material needed.");
              ("dimensions", SchemaString "The size of each piece (e.g., '10cm x 15cm', '5cm long', 'Standard size').") ]
            ["name"; "quantity"; "dimensions"])) ]
    ["houseName"; "description"; "materials"].

Definition VIEWS : list string :=
  ["Front view"; "Back view"; "Left side view"; "Right side view"; "Top-down view"].

(** Result types for image generation, to tell them apart after batching. *)
Inductive ImageResult : Type :=
| ViewImageResult (label : string) (base64 : option string)
| SketchImageResult (base64 : option string).

(** [res.generatedImages?.[0]?.image?.imageBytes ?? null]. *)
Definition first_image_bytes (res : GenerateImagesResponse) : option string :=
  match generatedImages res with
  | None => None
  | Some images =>
      match nth_error images 0 with
      | None => None
      | Some generated =>
          match image generated with
          | None => None
          | Some img => imageBytes img
          end
      end
  end.

Definition imageConfig : ImagesConfig := mkImagesConfig 1 "image/jpeg" "1:1".

Definition view_prompt (detailedDescription view : string) : string :=
  template
    [ "A photorealistic 3D architectural render of a miniature dollhouse for kids. The design is based on this detailed description: ";
      dq; detailedDescription; dq;
      ". Show the "; view;
      " of the house. The style is cute, playful, and looks like a real, buildable model. White background." ].

Definition sketch_prompt (detailedDescription : string) : string :=
  template
    [ "A simple black and white blueprint-style line drawing of the miniature house based on this detailed description: ";
      dq; detailedDescription; dq;
      ". The sketch must include clear, simple measurement labels for key parts like walls, roof, door, and windows. The style should be a clean, technical drawing on a white background." ].

Definition cuttingList_contents (detailedDescription : string) : string :=
  template
    [ "Based on the following detailed description, create a simple cutting list for a miniature house that a child could build with adult help. Description: ";
      dq; detailedDescription; dq ].

Definition view_parameters (detailedDescription view : string) : GenerateImagesParameters :=
  mkImagesParameters "imagen-4.0-generate-001" (view_prompt detailedDescription view) imageConfig.

Definition sketch_parameters (detailedDescription : string) : GenerateImagesParameters :=
  mkImagesParameters "imagen-4.0-generate-001" (sketch_prompt detailedDescription) imageConfig.

Definition cuttingList_parameters (detailedDescription : string) : GenerateContentParameters :=
  mkContentParameters "gemini-2.5-flash" (cuttingList_contents detailedDescription)
    (mkContentConfig
       "You are a helpful and creative assistant for kids who designs simple, buildable miniature houses. Based on the provided detailed description, generate a descriptive name for the house and a simple cutting list of materials. The materials should be common craft supplies like cardboard, craft sticks, or foam board. The dimensions should be easy for a child to measure and cut with adult supervision. Keep the design simple, fun, and use a maximum of 5 material types."
       (Some "application/json")
       (Some cuttingListSchema)).

Definition data_url (base64 : string) : string :=
  template ["data:image/jpeg;base64,"; base64].

(** The requests that a run of the wrapper sent: one for each attempt. *)
Definition sent {T : Type} (request : Request) (run : Run T) : list Request :=
  repeat request (attempts run).

(** A cycle: the promise returned to the caller and every request sent to
    the service, grouped by call site (the description first, then the
    cutting list, then the factories in the order of their invocation). *)
Record Cycle : Type := mkCycle {
  answer : Promise CycleResult;
  requests : list Request
}.

Section Orchestration.
Variable world : World.

Let ai := ai_models world.

(** The wrapped call of each call site, for a description. *)
Definition view_run (detailedDescription view : string) : Run GenerateImagesResponse :=
  callApiWithRetry_default (Math_random world (ViewSite view))
    (generateImages ai (view_parameters detailedDescription view)).

Definition sketch_run (detailedDescription : string) : Run GenerateImagesResponse :=
  callApiWithRetry_default (Math_random world SketchSite)
    (generateImages ai (sketch_parameters detailedDescription)).

Definition cuttingList_run (detailedDescription : string) : Run GenerateContentResponse :=
  callApiWithRetry_default (Math_random world CuttingListSite)
    (generateContent ai (cuttingList_parameters detailedDescription)).

(** The factories: nothing is sent before a factory is invoked. *)
Definition view_factory (detailedDescription view : string) : Factory ImageResult :=
  fun _ =>
    mkPromise
      (then_ (fun res => ViewImageResult view (first_image_bytes res))
             (outcome (view_run detailedDescription view)))
      (took world (ViewSite view)).

Definition sketch_factory (detailedDescription : string) : Factory ImageResult :=
  fun _ =>
    mkPromise
      (then_ (fun res => SketchImageResult (first_image_bytes res))
             (outcome (sketch_run detailedDescription)))
      (took world SketchSite).

Definition imagePromiseFactories (detailedDescription : string)
  : list (Factory ImageResult) :=
  map (view_factory detailedDescription) VIEWS ++ [sketch_factory detailedDescription].

(** The requests that each factory sends once invoked, in the order of
    [imagePromiseFactories]. *)
Definition factory_requests (detailedDescription : string) : list (list Request) :=
  map (fun view =>
         sent (ImagesRequest (view_parameters detailedDescription view))
              (view_run detailedDescription view)) VIEWS
  ++ [sent (ImagesRequest (sketch_parameters detailedDescription))
           (sketch_run detailedDescription)].

(** [filter] by the guard [result.type === 'view' && !!result.base64]
    followed by [map] to an [ImageView], in one pass. *)
Definition view_of (result : ImageResult) : option ImageView :=
  match result with
  | ViewImageResult label (Some base64) =>
      if truthy base64 then Some (mkImageView label (data_url base64)) else None
  | _ => None
  end.

Fixpoint filter_map {A B : Type} (f : A -> option B) (l : list A) : list B :=
  match l with
  | [] => []
  | x :: rest =>
      match f x with
      | Some y => y :: filter_map f rest
      | None => filter_map f rest
      end
  end.

Definition is_sketch (r : ImageResult) : bool :=
  match r with
  | SketchImageResult _ => true
  | _ => false
  end.

Definition sketch_url_of (sketchResult : option ImageResult) : option string :=
  match sketchResult with
  | Some (SketchImageResult (Some base64)) =>
      if truthy base64 then Some (data_url base64) else None
  | _ => None
  end.

(** The [try] block around [JSON.parse]. *)
Definition parse_cuttingList (cuttingListResponse : GenerateContentResponse) : Json :=
  let jsonText := trim (text cuttingListResponse) in
  if truthy jsonText then
    match JSON_parse world jsonText with
    | Some parsed => parsed
    | None => JNull
    end
  else JNull.

Definition assemble (detailedDescription : string)
    (allImageResults : list ImageResult)
    (cuttingListResponse : GenerateContentResponse) : CycleResult :=
  let imageViews := filter_map view_of allImageResults in
  let sketchResult := find is_sketch allImageResults in
  let sketchUrl := sketch_url_of sketchResult in
  let cuttingList := parse_cuttingList cuttingListResponse in
  mkCycleResult
    (if (0 <? length imageViews)%nat then Some imageViews else None)
    sketchUrl
    cuttingList
    detailedDescription.

Definition generateAssetsFromDescription (detailedDescription : string)
  : option Cycle :=
  let cuttingListRun := cuttingList_run detailedDescription in
  let cuttingListPromise :=
    mkPromise (outcome cuttingListRun) (took world CuttingListSite) in
  match runPromisesInBatches (imagePromiseFactories detailedDescription) 3 with
  | None => None
  | Some batches =>
      let imageBatchPromise := returned batches in
      let all := Promise_all2 imageBatchPromise cuttingListPromise in
      Some (mkCycle
        (mkPromise
           (then_ (fun '(allImageResults, cuttingListResponse) =>
                     assemble detailedDescription allImageResults cuttingListResponse)
                  (settled all))
           (latency all))
        (sent (ContentRequest (cuttingList_parameters detailedDescription)) cuttingListRun
         ++ flat_map (fun i => nth i (factory_requests detailedDescription) [])
                     (started batches)))
  end.

(* ---------------------------------------------------------------- *)
(** *** The two entry points *)

Definition description_parameters (prompt : string) : GenerateContentParameters :=
  mkContentParameters "gemini-2.5-flash"
    (template
      [ "Based on the user's idea, create a detailed and consistent architectural description for a miniature house. This description will be used to generate multiple 3D views, so it must be very specific about colors, shapes, materials, windows, doors, and unique features. User's idea: ";
        dq; prompt; dq ])
    (mkContentConfig
      "You are an imaginative architect for kids' toys. Your task is to expand a simple idea into a detailed, concrete description of a miniature house. Be creative but precise. Do not use markdown."
      None None).

(** The part shared by the two entry points: send the description request,
    trim the text of the answer, fail when nothing is left, and generate
    the assets otherwise. *)
Definition description_run (parameters : GenerateContentParameters)
  : Run GenerateContentResponse :=
  callApiWithRetry_default (Math_random world DescriptionSite)
    (generateContent ai parameters).

Definition describe_then_generate (parameters : GenerateContentParameters)
    (failure : string) : option Cycle :=
  let run := description_run parameters in
  let asked := sent (ContentRequest parameters) run in
  match outcome run with
  | Rejected reason =>
      Some (mkCycle (mkPromise (Rejected reason) (took world DescriptionSite)) asked)
  | Fulfilled response =>
      let detailedDescription := trim (text response) in
      if negb (truthy detailedDescription) then
        Some (mkCycle
                (mkPromise (Rejected (ErrorObject failure)) (took world DescriptionSite))
                asked)
      else
        match generateAssetsFromDescription detailedDescription with
        | None => None
        | Some cycle =>
            Some (mkCycle
                    (mkPromise (settled (answer cycle))
                               (took world DescriptionSite + latency (answer cycle)))
                    (asked ++ requests cycle))
        end
  end.

Definition generateHouseDesign (prompt : string) : option Cycle :=
  describe_then_generate (description_parameters prompt)
    "Could not generate a detailed description for the house.".

(** The directive lines of the edit prompt. *)
Definition primaryColor_line (edits : EditPreferences) : string :=
  template ["- Change the primary color to "; primaryColor edits; "."; nl].
Definition secondaryColor_line (edits : EditPreferences) : string :=
  template ["- Change the secondary color to "; secondaryColor edits; "."; nl].
Definition roofMaterial_line (edits : EditPreferences) : string :=
  template ["- Change the roof to be made of or look like "; roofMaterial edits; "."; nl].
Definition featureHighlights_line (edits : EditPreferences) : string :=
  template ["- Also, incorporate this request: "; featureHighlights edits; "."; nl].

Definition editPrompt (originalDescription : string) (edits : EditPreferences) : string :=
  (let editPrompt := "Based on this original house description, please generate a new, complete architectural description that incorporates the following changes. Do not just list the changes, provide the full, updated description." ++ nl ++ nl in
   let editPrompt := editPrompt ++ template ["Original Description: "; dq; originalDescription; dq; nl; nl] in
   let editPrompt := editPrompt ++ "Requested Changes:" ++ nl in
   let editPrompt :=
     if truthy (primaryColor edits) then editPrompt ++ primaryColor_line edits else editPrompt in
   let editPrompt :=
     if truthy (secondaryColor edits) then editPrompt ++ secondaryColor_line edits else editPrompt in
   let editPrompt :=
     if truthy (roofMaterial edits) then editPrompt ++ roofMaterial_line edits else editPrompt in
   let editPrompt :=
     if truthy (featureHighlights edits) then editPrompt ++ featureHighlights_line edits else editPrompt in
   editPrompt)%string.

Definition edit_parameters (originalDescription : string) (edits : EditPreferences)
  : GenerateContentParameters :=
  mkContentParameters "gemini-2.5-flash"
    (editPrompt originalDescription edits)
    (mkContentConfig
      "You are an imaginative architect for kids' toys. Your task is to revise an existing description of a miniature house based on user feedback. Integrate the changes seamlessly into a new, complete description. Do not use markdown."
      None None).

Definition editHouseDesign (originalDescription : string) (edits : EditPreferences)
  : option Cycle :=
  describe_then_generate (edit_parameters originalDescription edits)
    "Could not generate an updated description for the house.".

End Orchestration.

(* ================================================================== *)
(** ** Vocabulary of the statements *)
(* ================================================================== *)

(** The image views of a result, [null] read as no view. *)
Definition views_of (result : CycleResult) : list ImageView :=
  match imageViews result with
  | Some views => views
  | None => []
  end.

(** A payload that the guard [!!result.base64] lets through: neither [null]
    nor the empty string. *)
Definition has_payload (base64 : option string) : bool :=
  match base64 with
  | Some bytes => truthy bytes
  | None => false
  end.

(** The reference displayed for a payload. *)
Definition displayed (base64 : option string) : option string :=
  match base64 with
  | Some bytes => if truthy bytes then Some (data_url bytes) else None
  | None => None
  end.

(** The seven requests of a cycle for a description. *)
Definition cycle_requests (detailedDescription : string) : list Request :=
  ContentRequest (cuttingList_parameters detailedDescription)
  :: map (fun view => ImagesRequest (view_parameters detailedDescription view)) VIEWS
  ++ [ImagesRequest (sketch_parameters detailedDescription)].

(** Two worlds that a cycle for a description cannot tell apart: the
    service answers alike to the seven requests built from that
    description, and the draws, the latencies and [JSON.parse] are the same.
    What the service answers to any other request is left free. *)
Definition agree_on (detailedDescription : string) (w w' : World) : Prop :=
  (forall view k, In view VIEWS ->
     generateImages (ai_models w) (view_parameters detailedDescription view) k
     = generateImages (ai_models w') (view_parameters detailedDescription view) k)
  /\ (forall k,
        generateImages (ai_models w) (sketch_parameters detailedDescription) k
        = generateImages (ai_models w') (sketch_parameters detailedDescription) k)
  /\ (forall k,
        generateContent (ai_models w) (cuttingList_parameters detailedDescription) k
        = generateContent (ai_models w') (cuttingList_parameters detailedDescription) k)
  /\ (forall site k, Math_random w site k = Math_random w' site k)
  /\ (forall site, took w site = took w' site)
  /\ (forall text, JSON_parse w text = JSON_parse w' text).

(** A text that quotes the description. *)
Definition quotes (text detailedDescription : string) : Prop :=
  exists before after : string,
    text = (before ++ dq ++ detailedDescription ++ dq ++ after)%string.

(** The header of the edit prompt, up to and with [Requested Changes:]. *)
Definition edit_preamble (originalDescription : string) : string :=
  ("Based on this original house description, please generate a new, complete architectural description that incorporates the following changes. Do not just list the changes, provide the full, updated description."
   ++ nl ++ nl
   ++ "Original Description: " ++ dq ++ originalDescription ++ dq ++ nl ++ nl
   ++ "Requested Changes:" ++ nl)%string.

(** The four fields with their directive lines, in the order of the code. *)
Definition directive_table (edits : EditPreferences) : list (string * string) :=
  [ (primaryColor edits, primaryColor_line edits);
    (secondaryColor edits, secondaryColor_line edits);
    (roofMaterial edits, roofMaterial_line edits);
    (featureHighlights edits, featureHighlights_line edits) ].

(** The directive lines of the fields that [present] keeps. *)
Definition directives (present : string -> bool) (edits : EditPreferences) : list string :=
  map snd (filter (fun entry => present (fst entry)) (directive_table edits)).

(** *** The statements of the specification, in its own words *)

(** The edit instruction as the specification words it: a field counts as
    present when it is not empty after trimming. *)
Definition editPrompt_as_specified (originalDescription : string)
    (edits : EditPreferences) : string :=
  (edit_preamble originalDescription
   ++ String.concat "" (directives (fun field => truthy (trim field)) edits))%string.

(** The viewpoints that the specification keeps: those with a payload that
    is not null. *)
Definition views_as_specified (payload : string -> option string) : list string :=
  filter (fun view => match payload view with Some _ => true | None => false end) VIEWS.

(** The CuttingList shape of the specification: a string [houseName], a
    string [description] and an array [materials] of one to five entries,
    each with a string [name], an integer [quantity] and a string
    [dimensions]. *)
Fixpoint member (key : string) (members : list (string * Json)) : option Json :=
  match members with
  | [] => None
  | (k, v) :: rest => if String.eqb k key then Some v else member key rest
  end.

Definition is_string (v : option Json) : bool :=
  match v with
  | Some (JString _) => true
  | _ => false
  end.

Definition is_integer (v : option Json) : bool :=
  match v with
  | Some (JNumber q) => (Z.pos (Qden (Qred q)) =? 1)%Z
  | _ => false
  end.

Definition Material_shape (v : Json) : bool :=
  match v with
  | JObject ms =>
      is_string (member "name" ms) && is_integer (member "quantity" ms)
      && is_string (member "dimensions" ms)
  | _ => false
  end.

Definition CuttingList_shape (v : Json) : bool :=
  match v with
  | JObject ms =>
      is_string (member "houseName" ms) && is_string (member "description" ms)
      && match member "materials" ms with
         | Some (JArray items) =>
             (1 <=? length items)%nat && (length items <=? 5)%nat
             && forallb Material_shape items
         | _ => false
         end
  | _ => false
  end.

(* ================================================================== *)
(** ** A reference [JSON.parse] *)
(* ================================================================== *)

(** [JSON.parse] belongs to the language, not to the repository; the
    orchestration takes it from the [World].  This reference parser follows
    the JSON grammar (ECMA-404) and is the one plugged in to run the
    definitions on sample texts.  A number is the double nearest to what its
    literal denotes (a literal beyond the largest double, which the language
    reads as [Infinity], is out of its reach); the members of an object are kept in the order of the
    text, a repeated key keeping its place and taking the last value; a
    [\u] escape is kept as the UTF-8 bytes of its character, two escapes
    that write a pair of surrogates making one character. *)
Module JSON.

Definition is_space (c : ascii) : bool :=
  let n := nat_of_ascii c in
  (n =? 32)%nat || (n =? 9)%nat || (n =? 10)%nat || (n =? 13)%nat.

Fixpoint skip_space (s : string) : string :=
  match s with
  | String c r => if is_space c then skip_space r else s
  | EmptyString => s
  end.

Definition digit_of (c : ascii) : option Z :=
  let n := nat_of_ascii c in
  if (48 <=? n)%nat && (n <=? 57)%nat then Some (Z.of_nat (n - 48)) else None.

Definition hex_of (c : ascii) : option nat :=
  let n := nat_of_ascii c in
  if (48 <=? n)%nat && (n <=? 57)%nat then Some (n - 48)%nat
  else if (65 <=? n)%nat && (n <=? 70)%nat then Some (n - 55)%nat
  else if (97 <=? n)%nat && (n <=? 102)%nat then Some (n - 87)%nat
  else None.

(** The UTF-8 bytes of a code point. *)
Definition utf8 (n : N) : string :=
  let byte k := String (ascii_of_N k) EmptyString in
  (if n <? 128 then byte n
   else if n <? 2048 then byte (192 + n / 64) ++ byte (128 + n mod 64)
   else if n <? 65536 then
     byte (224 + n / 4096) ++ byte (128 + (n / 64) mod 64) ++ byte (128 + n mod 64)
   else
     byte (240 + n / 262144) ++ byte (128 + (n / 4096) mod 64)
     ++ byte (128 + (n / 64) mod 64) ++ byte (128 + n mod 64))%N%string.

(** The code unit written by four hexadecimal digits. *)
Definition code_unit (h1 h2 h3 h4 : ascii) : option N :=
  match hex_of h1, hex_of h2, hex_of h3, hex_of h4 with
  | Some a, Some b, Some c, Some d =>
      Some (((N.of_nat a * 16 + N.of_nat b) * 16 + N.of_nat c) * 16 + N.of_nat d)%N
  | _, _, _, _ => None
  end.

(** The low surrogate that an escape at the head of [s] writes. *)
Definition low_surrogate (s : string) : option N :=
  match s with
  | String b (String u (String h1 (String h2 (String h3 (String h4 _))))) =>
      if (nat_of_ascii b =? 92)%nat && (nat_of_ascii u =? 117)%nat then
        match code_unit h1 h2 h3 h4 with
        | Some low => if ((56320 <=? low) && (low <? 57344))%N then Some low else None
        | None => None
        end
      else None
  | _ => None
  end.

(** The characters of a string literal after its opening quote, up to the
    closing quote. *)
Fixpoint string_body (s : string) : option (string * string) :=
  match s with
  | EmptyString => None
  | String c r =>
      let n := nat_of_ascii c in
      if (n =? 34)%nat then Some (EmptyString, r)
      else if (n <? 32)%nat then None
      else if (n =? 92)%nat then
        match r with
        | String e r1 =>
            let simple (ch : nat) :=
              match string_body r1 with
              | Some (body, rest) => Some (String (ascii_of_nat ch) body, rest)
              | None => None
              end in
            match nat_of_ascii e with
            | 34 => simple 34%nat
            | 92 => simple 92%nat
            | 47 => simple 47%nat
            | 98 => simple 8%nat
            | 102 => simple 12%nat
            | 110 => simple 10%nat
            | 114 => simple 13%nat
            | 116 => simple 9%nat
            | 117 =>
                match r1 with
                | String h1 (String h2 (String h3 (String h4 r2))) =>
                    match code_unit h1 h2 h3 h4 with
                    | Some high =>
                        let single :=
                          match string_body r2 with
                          | Some (body, rest) => Some ((utf8 high ++ body)%string, rest)
                          | None => None
                          end in
                        if ((55296 <=? high) && (high <? 56320))%N then
                          match r2 with
                          | String _ (String _ (String _ (String _ (String _ (String _ r3))))) =>
                              match low_surrogate r2 with
                              | Some low =>
                                  match string_body r3 with
                                  | Some (body, rest) =>
                                      Some ((utf8 (65536 + (high - 55296) * 1024
                                                   + (low - 56320))%N ++ body)%string,
                                            rest)
                                  | None => None
                                  end
                              | None => single
                              end
                          | _ => single
                          end
                        else single
                    | None => None
                    end
                | _ => None
                end
            | _ => None
            end
        | EmptyString => None
        end
      else
        match string_body r with
        | Some (body, rest) => Some (String c body, rest)
        | None => None
        end
  end.

(** The longest run of digits at the head of a string: their number,
    their value, and what follows. *)
Fixpoint digits (s : string) (count : nat) (value : Z) : nat * Z * string :=
  match s with
  | String c r =>
      match digit_of c with
      | Some d => digits r (S count) (value * 10 + d)
      | None => (count, value, s)
      end
  | EmptyString => (count, value, s)
  end.

Definition leading_zero (s : string) : bool :=
  match s with
  | String c (String d _) =>
      (nat_of_ascii c =? 48)%nat
      && match digit_of d with Some _ => true | None => false end
  | _ => false
  end.

Definition scale (mantissa exponent : Z) : Q :=
  if (0 <=? exponent)%Z then inject_Z (mantissa * 10 ^ exponent)
  else Qmake mantissa (Z.to_pos (10 ^ (- exponent))).

Definition number (s : string) : option (Q * string) :=
  let '(negative, s) :=
    match s with
    | String c r => if (nat_of_ascii c =? 45)%nat then (true, r) else (false, s)
    | EmptyString => (false, s)
    end in
  if leading_zero s then None else
  let '(int_count, int_value, s) := digits s 0 0 in
  if (int_count =? 0)%nat then None else
  let fraction :=
    match s with
    | String c r =>
        if (nat_of_ascii c =? 46)%nat then
          let '(count, value, r') := digits r 0 int_value in
          if (count =? 0)%nat then None else Some (count, value, r')
        else Some (0%nat, int_value, s)
    | EmptyString => Some (0%nat, int_value, s)
    end in
  match fraction with
  | None => None
  | Some (frac_count, mantissa, s) =>
      let exponent :=
        match s with
        | String c r =>
            if (nat_of_ascii c =? 101)%nat || (nat_of_ascii c =? 69)%nat then
              let '(minus, r) :=
                match r with
                | String sign r' =>
                    if (nat_of_ascii sign =? 45)%nat then (true, r')
                    else if (nat_of_ascii sign =? 43)%nat then (false, r')
                    else (false, r)
                | EmptyString => (false, r)
                end in
              let '(count, value, r') := digits r 0 0 in
              if (count =? 0)%nat then None
              else Some ((if minus then - value else value)%Z, r')
            else Some (0%Z, s)
        | EmptyString => Some (0%Z, s)
        end in
      match exponent with
      | None => None
      | Some (e, rest) =>
          let signed := (if negative then - mantissa else mantissa)%Z in
          Some (Qred (Binary64.round (scale signed (e - Z.of_nat frac_count))), rest)
      end
  end.

Fixpoint set_member (key : string) (v : Json) (members : list (string * Json))
  : list (string * Json) :=
  match members with
  | [] => [(key, v)]
  | (k, old) :: rest =>
      if String.eqb k key then (k, v) :: rest else (k, old) :: set_member key v rest
  end.

Definition strip (word rest : string) : option string :=
  if String.prefix word rest
  then Some (substring (String.length word) (String.length rest - String.length word) rest)
  else None.

Fixpoint value (fuel : nat) (s : string) {struct fuel} : option (Json * string) :=
  match fuel with
  | O => None
  | S fuel' =>
      match skip_space s with
      | EmptyString => None
      | String c r as s' =>
          match nat_of_ascii c with
          | 34 =>
              match string_body r with
              | Some (body, rest) => Some (JString body, rest)
              | None => None
              end
          | 91 =>
              match skip_space r with
              | String c' r' =>
                  if (nat_of_ascii c' =? 93)%nat then Some (JArray [], r')
                  else
                    match elements fuel' r [] with
                    | Some (items, rest) => Some (JArray items, rest)
                    | None => None
                    end
              | EmptyString => None
              end
          | 123 =>
              match skip_space r with
              | String c' r' =>
                  if (nat_of_ascii c' =? 125)%nat then Some (JObject [], r')
                  else
                    match members fuel' r [] with
                    | Some (ms, rest) => Some (JObject ms, rest)
                    | None => None
                    end
              | EmptyString => None
              end
          | _ =>
              match strip "null" s', strip "true" s', strip "false" s' with
              | Some rest, _, _ => Some (JNull, rest)
              | _, Some rest, _ => Some (JBool true, rest)
              | _, _, Some rest => Some (JBool false, rest)
              | _, _, _ =>
                  match number s' with
                  | Some (q, rest) => Some (JNumber q, rest)
                  | None => None
                  end
              end
          end
      end
  end

with elements (fuel : nat) (s : string) (acc : list Json) {struct fuel}
  : option (list Json * string) :=
  match fuel with
  | O => None
  | S fuel' =>
      match value fuel' s with
      | Some (v, rest) =>
          match skip_space rest with
          | String c r =>
              if (nat_of_ascii c =? 44)%nat then elements fuel' r (acc ++ [v])
              else if (nat_of_ascii c =? 93)%nat then Some (acc ++ [v], r)
              else None
          | EmptyString => None
          end
      | None => None
      end
  end

with members (fuel : nat) (s : string) (acc : list (string * Json)) {struct fuel}
  : option (list (string * Json) * string) :=
  match fuel with
  | O => None
  | S fuel' =>
      match skip_space s with
      | String q r =>
          if (nat_of_ascii q =? 34)%nat then
            match string_body r with
            | Some (key, rest) =>
                match skip_space rest with
                | String colon r1 =>
                    if (nat_of_ascii colon =? 58)%nat then
                      match value fuel' r1 with
                      | Some (v, rest') =>
                          match skip_space rest' with
                          | String c r2 =>
                              if (nat_of_ascii c =? 44)%nat
                              then members fuel' r2 (set_member key v acc)
                              else if (nat_of_ascii c =? 125)%nat
                              then Some (set_member key v acc, r2)
                              else None
                          | EmptyString => None
                          end
                      | None => None
                      end
                    else None
                | EmptyString => None
                end
            | None => None
            end
          else None
      | EmptyString => None
      end
  end.

(** [JSON.parse(text)]: one value, with nothing but white space around
    it; [None] stands for the [SyntaxError]. *)
Definition parse (text : string) : option Json :=
  match value (2 * String.length text + 2) text with
  | Some (v, rest) =>
      match skip_space rest with
      | EmptyString => Some v
      | String _ _ => None
      end
  | None => None
  end.

End JSON.

(* ================================================================== *)
(** ** Sample surroundings, used to run the definitions *)
(* ================================================================== *)

Module Samples.

(** A draw of [Math.random] that always returns one half. *)
Definition half : nat -> Q := fun _ => (1 # 2)%Q.

(** Draws that always return one of the two largest doubles below one,
    [1 - 2^-52] and [1 - 2^-53], and a draw of fifteen sixteenths. *)
Definition almost_one : nat -> Q := fun _ => (1 - Binary64.pow2 (-52))%Q.
Definition nearly_one : nat -> Q := fun _ => (1 - Binary64.pow2 (-53))%Q.
Definition fifteen_sixteenths : nat -> Q := fun _ => (15 # 16)%Q.

(** Characters outside ASCII, by their UTF-8 bytes: U+00A0 NO-BREAK SPACE,
    U+2003 EM SPACE, U+2028 LINE SEPARATOR, U+FEFF BYTE ORDER MARK, which
    are white space; U+200B ZERO WIDTH SPACE, which is not; and U+212A
    KELVIN SIGN, whose lower case is [k]. *)
Definition utf8_bytes (l : list nat) : string :=
  string_of_list_ascii (map ascii_of_nat l).
Definition no_break_space : string := utf8_bytes [194; 160].
Definition em_space : string := utf8_bytes [226; 128; 131].
Definition line_separator : string := utf8_bytes [226; 128; 168].
Definition byte_order_mark : string := utf8_bytes [239; 187; 191].
Definition zero_width_space : string := utf8_bytes [226; 128; 139].
Definition kelvin_sign : string := utf8_bytes [226; 132; 170].


(** Always refused for a reason that is not a rate limit. *)
Definition forbidden : Operation Z :=
  fun _ => Rejected (ErrorObject "API key not valid").

(** Always rejects with a string, not an [Error], that reads like a rate
    limit. *)
Definition throws_string : Operation Z :=
  fun _ => Rejected (ThrownString "429 quota exceeded: rate limit").

(** Factories that settle after a given latency. *)
Definition succeeds_with (v : Z) (after : nat) : Factory Z :=
  fun _ => mkPromise (Fulfilled v) after.
Definition fails_with (message : string) (after : nat) : Factory Z :=
  fun _ => mkPromise (Rejected (ErrorObject message)) after.

(** Three operations that succeed, the first one being the slowest. *)
Definition three_successes : list (Factory Z) :=
  [succeeds_with 10 5; succeeds_with 20 1; succeeds_with 30 3].

(** Two failures in the first chunk of three, one more in the second. *)
Definition failures : list (Factory Z) :=
  [succeeds_with 10 5; fails_with "boom" 9; fails_with "bang" 2;
   succeeds_with 40 1; fails_with "late" 1].

(** A service that answers at once: every image call returns the
    payload chosen for the view named in its prompt ([sketch] when no view
    is named), every text call returns [reply]. *)
Definition image_response (bytes : option string) : GenerateImagesResponse :=
  mkImagesResponse (Some [mkGeneratedImage (Some (mkImage bytes))]).

Definition view_named (prompt : string) : option string :=
  find (fun view => includes prompt (template ["Show the "; view; " of the house"])) VIEWS.

Definition models (payload : string -> option string) (sketch : option string)
    (reply : string) : Models :=
  mkModels
    (fun p _ =>
       Fulfilled (image_response
                    match view_named (prompt p) with
                    | Some view => payload view
                    | None => sketch
                    end))
    (fun _ _ => Fulfilled (mkContentResponse reply)).

Definition world_of (m : Models) : World :=
  mkWorld m (fun _ => half) (fun _ => 1%nat) JSON.parse.

(** Every image comes back; the structured call answers [{}]. *)
Definition braces : World :=
  world_of (models (fun _ => Some "QUJD") (Some "QUJD") "{}").

(** The front view comes back with an empty payload. *)
Definition empty_front : World :=
  world_of (models (fun view => if String.eqb view "Front view" then Some "" else Some "QUJD")
                   (Some "QUJD") "{}").

(** No image comes back at all. *)
Definition no_image : World :=
  world_of (models (fun _ => None) None "null").

(** The text call answers with white space only. *)
Definition blank : World :=
  world_of (models (fun _ => Some "QUJD") (Some "QUJD") "   ").

(** The text call answers with a no-break space and an em space. *)
Definition unicode_blank : World :=
  world_of (models (fun _ => Some "QUJD") (Some "QUJD")
                   (no_break_space ++ em_space)%string).

(** The structured call answers [{}] behind a byte order mark. *)
Definition marked_braces : World :=
  world_of (models (fun _ => Some "QUJD") (Some "QUJD")
                   (byte_order_mark ++ "{}")%string).

(** The structured call answers with a text that is not JSON. *)
Definition not_json : World :=
  world_of (models (fun _ => Some "QUJD") (Some "QUJD") "Sorry, no list today.").

(** The scenario of the specification: the text call expands the idea
    into a description, every image comes back, and the structured call
    (the one that asks for JSON) answers with a cutting list of one
    material. *)
Definition quoted (s : string) : string := template [dq; s; dq].

Definition mushroom_list : string :=
  template
    [ "{"; quoted "houseName"; ":"; quoted "Mushroom Cottage"; ",";
      quoted "description"; ":"; quoted "A cozy fungal home."; ",";
      quoted "materials"; ":[{";
      quoted "name"; ":"; quoted "Cardboard"; ",";
      quoted "quantity"; ":4,";
      quoted "dimensions"; ":"; quoted "10cm x 10cm"; "}]}" ].

Definition mushroom : World :=
  world_of
    (mkModels
       (fun _ _ => Fulfilled (image_response (Some "QUJD")))
       (fun p _ =>
          Fulfilled (mkContentResponse
            match responseMimeType (content_config p) with
            | Some _ => mushroom_list
            | None => "A round red-capped mushroom cottage with a wooden door."
            end))).

(** The payload that the service returns for a view of a description. *)
Definition payload_in (w : World) (detailedDescription view : string) : option string :=
  match generateImages (ai_models w) (view_parameters detailedDescription view) 0 with
  | Fulfilled res => first_image_bytes res
  | Rejected _ => None
  end.

Definition only_spaces : EditPreferences := mkEditPreferences " " "" "" "".
Definition no_edit : EditPreferences := mkEditPreferences "" "" "" "".
Definition red_roof : EditPreferences := mkEditPreferences "red" "" "slate" "".

End Samples.

(* ================================================================== *)
(** ** The application ([App.tsx]) *)
(* ================================================================== *)

(** The state of the [App] component and its two submit handlers.  A
    handler is run from the state it closes over to the state it leaves
    once its promise has settled; it sets every field to a value that does
    not depend on the state, so that the setters are applied in the order of
    the code. *)
Module App.

Definition api_key_message : string :=
  "There's a problem with the connection to the creative engine. Please ask an adult to check the API Key configuration.".
Definition quota_message : string :=
  "The Dream Builder is very popular right now and has run out of creative energy for the moment. Please try again later!".
Definition safety_message : string :=
  "Your idea is super creative, but the Dream Builder couldn't process it. Could you try describing your house in a different way?".
Definition stuck_message : string :=
  "Oh no! The blueprint machine got stuck. Please try a different idea.".
Definition hiccup_message (message : string) : string :=
  template ["The blueprint machine had a little hiccup: "; message; ". Please try again."].

Definition getFriendlyErrorMessage (error : Thrown) : string :=
  match error with
  | ErrorObject msg =>
      let message := toLowerCase msg in
      if includes message "api key not valid" || includes message "api_key_invalid"
         || includes message "permission denied"
      then api_key_message
      else if includes message "quota" then quota_message
      else if includes message "safety" || includes message "blocked" then safety_message
      else hiccup_message msg
  | _ => stuck_message
  end.

(** The markers that the message is searched for, once in lower case. *)
Definition mentions_api_key (msg : string) : bool :=
  includes (toLowerCase msg) "api key not valid"
  || includes (toLowerCase msg) "api_key_invalid"
  || includes (toLowerCase msg) "permission denied".
Definition mentions_quota (msg : string) : bool :=
  includes (toLowerCase msg) "quota".
Definition mentions_safety (msg : string) : bool :=
  includes (toLowerCase msg) "safety" || includes (toLowerCase msg) "blocked".

Inductive ActiveView : Type := design | sketch.

(** Truthiness of a value that [JSON.parse] may return. *)
Definition json_truthy (v : Json) : bool :=
  match v with
  | JNull => false
  | JBool b => b
  | JNumber q => negb (Qeq_bool q 0)
  | JString s => truthy s
  | JArray _ => true
  | JObject _ => true
  end.

(** The fields of a result, under names that the state does not take. *)
Definition result_imageViews (r : CycleResult) : option (list ImageView) := imageViews r.
Definition result_sketchUrl (r : CycleResult) : option string := sketchUrl r.
Definition result_cuttingList (r : CycleResult) : Json := cuttingList r.
Definition result_detailedDescription (r : CycleResult) : string := detailedDescription r.

(** The [useState] cells of the component; [None] and [JNull] are [null]. *)
Record State : Type := mkState {
  prompt : string;
  isLoading : bool;
  error : option string;
  imageViews : option (list ImageView);
  sketchUrl : option string;
  cuttingList : Json;
  activeView : ActiveView;
  detailedDescription : option string;
  isEditing : bool
}.

Definition setIsLoading (v : bool) (s : State) : State :=
  mkState (prompt s) v (error s) (imageViews s) (sketchUrl s) (cuttingList s)
          (activeView s) (detailedDescription s) (isEditing s).
Definition setError (v : option string) (s : State) : State :=
  mkState (prompt s) (isLoading s) v (imageViews s) (sketchUrl s) (cuttingList s)
          (activeView s) (detailedDescription s) (isEditing s).
Definition setImageUrls (v : option (list ImageView)) (s : State) : State :=
  mkState (prompt s) (isLoading s) (error s) v (sketchUrl s) (cuttingList s)
          (activeView s) (detailedDescription s) (isEditing s).
Definition setSketchUrl (v : option string) (s : State) : State :=
  mkState (prompt s) (isLoading s) (error s) (imageViews s) v (cuttingList s)
          (activeView s) (detailedDescription s) (isEditing s).
Definition setCuttingList (v : Json) (s : State) : State :=
  mkState (prompt s) (isLoading s) (error s) (imageViews s) (sketchUrl s) v
          (activeView s) (detailedDescription s) (isEditing s).
Definition setActiveView (v : ActiveView) (s : State) : State :=
  mkState (prompt s) (isLoading s) (error s) (imageViews s) (sketchUrl s) (cuttingList s)
          v (detailedDescription s) (isEditing s).
Definition setDetailedDescription (v : option string) (s : State) : State :=
  mkState (prompt s) (isLoading s) (error s) (imageViews s) (sketchUrl s) (cuttingList s)
          (activeView s) v (isEditing s).
Definition setIsEditing (v : bool) (s : State) : State :=
  mkState (prompt s) (isLoading s) (error s) (imageViews s) (sketchUrl s) (cuttingList s)
          (activeView s) (detailedDescription s) v.

(** The state of the first render. *)
Definition initial : State :=
  mkState "" false None None None JNull design None false.

Definition clearContent (s : State) : State :=
  let s := setImageUrls None s in
  let s := setSketchUrl None s in
  let s := setCuttingList JNull s in
  let s := setDetailedDescription None s in
  let s := setError None s in
  setIsEditing false s.

Definition handleUndo (s : State) : State := clearContent s.

(** Each field of the result is stored when it is truthy. *)
Definition handleGenerationResult (result : CycleResult) (s : State) : State :=
  let s :=
    match result_imageViews result with
    | Some views => setImageUrls (Some views) s
    | None => s
    end in
  let s :=
    match result_sketchUrl result with
    | Some u => if truthy u then setSketchUrl (Some u) s else s
    | None => s
    end in
  let s :=
    if json_truthy (result_cuttingList result)
    then setCuttingList (result_cuttingList result) s else s in
  if truthy (result_detailedDescription result)
  then setDetailedDescription (Some (result_detailedDescription result)) s else s.

(** [imageViews || sketchUrl || cuttingList], as a boolean. *)
Definition hasContent (s : State) : bool :=
  match imageViews s with
  | Some _ => true
  | None =>
      match sketchUrl s with
      | Some u => truthy u || json_truthy (cuttingList s)
      | None => json_truthy (cuttingList s)
      end
  end.

(** The [try] / [catch] / [finally] around the awaited cycle. *)
Definition settle (answer : Outcome CycleResult) (s : State) : State :=
  let s :=
    match answer with
    | Fulfilled result => handleGenerationResult result s
    | Rejected e => setError (Some (getFriendlyErrorMessage e)) s
    end in
  setIsLoading false s.

(** A handler returns the state it leaves and the requests it has sent. *)
Definition handleSubmit (world : World) (s : State) : option (State * list Request) :=
  if negb (truthy (trim (prompt s))) || isLoading s then Some (s, [])
  else
    let asked := prompt s in
    let s := setIsLoading true s in
    let s := setError None s in
    let s := setImageUrls None s in
    let s := setSketchUrl None s in
    let s := setCuttingList JNull s in
    let s := setDetailedDescription None s in
    let s := setIsEditing false s in
    let s := setActiveView design s in
    match generateHouseDesign world asked with
    | None => None
    | Some cycle => Some (settle (settled (answer cycle)) s, requests cycle)
    end.

Definition handleEditSubmit (world : World) (preferences : EditPreferences) (s : State)
  : option (State * list Request) :=
  match detailedDescription s with
  | None => Some (s, [])
  | Some described =>
      if negb (truthy described) || isLoading s then Some (s, [])
      else
        let s := setIsLoading true s in
        let s := setError None s in
        let s := setImageUrls None s in
        let s := setSketchUrl None s in
        let s := setCuttingList JNull s in
        let s := setIsEditing false s in
        let s := setActiveView design s in
        match editHouseDesign world described preferences with
        | None => None
        | Some cycle => Some (settle (settled (answer cycle)) s, requests cycle)
        end
  end.

End App.

(* ================================================================== *)
(** ** More sample surroundings *)
(* ================================================================== *)

(** The consecutive chunks of a list, [size] elements each but for the
    last one; [fuel] bounds their number. *)
Fixpoint chunks {A : Type} (fuel size : nat) (l : list A) : list (list A) :=
  match fuel, l with
  | _, [] => []
  | O, _ :: _ => []
  | S fuel', _ :: _ => firstn size l :: chunks fuel' size (skipn size l)
  end.

(** The time that a chunk of promises created together takes to settle
    when all of them fulfil: the latency of the slowest. *)
Definition slowest {T : Type} (chunk : list (Factory T)) : nat :=
  list_max (map (fun factory : Factory T => latency (factory tt)) chunk).

(** The answer of the service for a view, once through the wrapper; a
    response without image when the call fails. *)
Definition view_response (world : World) (detailedDescription view : string)
  : GenerateImagesResponse :=
  match outcome (view_run world detailedDescription view) with
  | Fulfilled res => res
  | Rejected _ => mkImagesResponse None
  end.

Module Cases.

(** An operation that is always refused for a rate limit. *)
Definition throttled : Operation Z :=
  fun _ => Rejected (ErrorObject "Resource exhausted: quota exceeded").

(** The sum of the delays of a run, in milliseconds. *)
Definition total_wait (waits : list Q) : Q := fold_right Qplus 0%Q waits.

(** The image call of the front view is refused; every other call
    returns. *)
Definition front_refused : World :=
  Samples.world_of
    (mkModels
       (fun p _ =>
          if includes (prompt p) "Show the Front view of the house"
          then Rejected (ErrorObject "Request blocked by safety filters")
          else Fulfilled (Samples.image_response (Some "QUJD")))
       (fun _ _ => Fulfilled (mkContentResponse "{}"))).

(** Every call is refused for an invalid key. *)
Definition locked_out : World :=
  Samples.world_of
    (mkModels (fun _ _ => Rejected (ErrorObject "API key not valid. Please pass a valid API key."))
              (fun _ _ => Rejected (ErrorObject "API key not valid. Please pass a valid API key."))).

(** A state with a design on display, after a first cycle. *)
Definition showing : App.State :=
  App.mkState "a mushroom cottage" false None
    (Some [mkImageView "Front view" "data:image/jpeg;base64,QUJD"])
    (Some "data:image/jpeg;base64,QUJD") (JObject []) App.design
    (Some "A round hut.") false.

(** The state once an idea has been typed. *)
Definition typed : App.State :=
  App.mkState "a mushroom cottage" false None None None JNull App.sketch None false.

End Cases.

(* ================================================================== *)
(** * Properties *)
(* ================================================================== *)

(** ** Rounding to a double *)

Section Rounding.
Import Binary64.

Lemma pow2_pos s : (0 < pow2 s)%Q.
Proof. apply Qpower_0_lt. reflexivity. Qed.

Lemma pow2_plus a b : (pow2 (a + b) == pow2 a * pow2 b)%Q.
Proof. apply Qpower_plus. discriminate. Qed.

Lemma pow2_le a b : (a <= b)%Z -> (pow2 a <= pow2 b)%Q.
Proof. intros H. apply Qpower_le_compat_l; [exact H|]. discriminate. Qed.

Lemma pow2_nonneg_Z a : (0 <= a)%Z -> (pow2 a == inject_Z (2 ^ a))%Q.
Proof. intros H. unfold pow2. rewrite Zpower_Qpower by exact H. reflexivity. Qed.

Lemma nearest_even_floor y : (Qfloor y <= nearest_even y <= Qfloor y + 1)%Z.
Proof.
  unfold nearest_even. destruct (Qcompare _ _); [destruct (Z.even _)| |]; lia.
Qed.

Lemma nearest_even_lower (m : Z) y : (inject_Z m <= y)%Q -> (m <= nearest_even y)%Z.
Proof.
  intros H. apply Qfloor_resp_le in H. rewrite Qfloor_Z in H.
  pose proof (nearest_even_floor y). lia.
Qed.

Lemma nearest_even_upper (m : Z) y : (y <= inject_Z m)%Q -> (nearest_even y <= m)%Z.
Proof.
  intros H. unfold nearest_even.
  assert (Hf : (Qfloor y <= m)%Z).
  { apply Qfloor_resp_le in H. rewrite Qfloor_Z in H. exact H. }
  assert (Hstep : (inject_Z (Qfloor y) < y)%Q -> (Qfloor y + 1 <= m)%Z).
  { intros Hlt. assert (Hq : (inject_Z (Qfloor y) < inject_Z m)%Q) by (eapply Qlt_le_trans; eauto).
    rewrite <- Zlt_Qlt in Hq. lia. }
  destruct (Qcompare (y - inject_Z (Qfloor y)) (1 # 2)) eqn:Hc.
  - destruct (Z.even _); [exact Hf|]. apply Hstep. apply Qeq_alt in Hc. lra.
  - exact Hf.
  - apply Hstep. apply Qgt_alt in Hc. lra.
Qed.

Lemma exponent_le x : (0 < x)%Q -> (pow2 (exponent x) <= x)%Q.
Proof.
  intros Hx. unfold exponent.
  set (e := (Z.log2 (Qnum x) - Z.log2 (Z.pos (Qden x)))%Z).
  destruct (Qle_bool (pow2 e) x) eqn:Hb.
  - apply Qle_bool_iff. exact Hb.
  - destruct x as [n d]. cbn [Qnum Qden] in *.
    assert (Hn : (0 < n)%Z). { unfold Qlt in Hx. cbn in Hx. lia. }
    pose proof (Z.log2_spec n Hn) as [Hn1 _].
    pose proof (Z.log2_spec (Z.pos d) (Pos2Z.is_pos d)) as [_ Hd2].
    pose proof (Z.log2_nonneg n) as Hln. pose proof (Z.log2_nonneg (Z.pos d)) as Hld.
    assert (E : (pow2 (e - 1) * pow2 (Z.log2 (Z.pos d) + 1) == pow2 (Z.log2 n))%Q).
    { rewrite <- pow2_plus. unfold e. replace (_ + _)%Z with (Z.log2 n) by lia. reflexivity. }
    rewrite (pow2_nonneg_Z (Z.log2 n)) in E by lia.
    rewrite (pow2_nonneg_Z (Z.log2 (Z.pos d) + 1)) in E by lia.
    assert (Hq1 : (inject_Z (2 ^ Z.log2 n) <= inject_Z n)%Q) by (rewrite <- Zle_Qle; lia).
    assert (Hq2 : (inject_Z (Z.pos d) <= inject_Z (2 ^ (Z.log2 (Z.pos d) + 1)))%Q).
    { rewrite <- Zle_Qle. rewrite <- Z.add_1_r in Hd2. lia. }
    pose proof (pow2_pos (e - 1)) as Hp.
    assert (Hx' : (n # d == inject_Z n / inject_Z (Z.pos d))%Q) by apply Qmake_Qdiv.
    rewrite Hx'. apply Qle_shift_div_l.
    + change 0%Q with (inject_Z 0). rewrite <- Zlt_Qlt. lia.
    + eapply Qle_trans; [|exact Hq1]. rewrite <- E.
      apply Qmult_le_l; [exact Hp|exact Hq2].
Qed.

Lemma finite_opp x : finite x -> finite (- x)%Q.
Proof.
  intros (m & q & Hm & Hq & E). exists (- m)%Z, q. repeat split; try lia.
  rewrite E, inject_Z_opp. ring.
Qed.

Lemma finite_integer z : (Z.abs z < 2 ^ 53)%Z -> finite (inject_Z z).
Proof.
  intros H. exists z, 0%Z. repeat split; try lia. unfold pow2. cbn. ring.
Qed.

(** A positive finite number is a multiple of [2^s] or lies below
    [2^(s+52)]. *)
Lemma finite_cases a s :
  finite a -> (0 < a)%Q -> (-1074 <= s)%Z ->
  (exists M : Z, (a == inject_Z M * pow2 s)%Q)
  \/ ((-1074 < s)%Z /\ (a < pow2 (s + 52))%Q).
Proof.
  intros (m & q & Hm & Hq & E) Ha Hs.
  destruct (Z_le_gt_dec s q) as [Hsq|Hsq].
  - left. exists (m * 2 ^ (q - s))%Z. rewrite E, inject_Z_mult.
    rewrite <- (pow2_nonneg_Z (q - s)) by lia.
    rewrite <- Qmult_assoc, <- pow2_plus. replace (q - s + s)%Z with q by lia. reflexivity.
  - right. split; [lia|].
    assert (Hlt : (a < pow2 (q + 53))%Q).
    { rewrite E. rewrite pow2_plus. rewrite (Qmult_comm (pow2 q)).
      apply Qmult_lt_compat_r; [apply pow2_pos|].
      rewrite (pow2_nonneg_Z 53) by lia. rewrite <- Zlt_Qlt. lia. }
    assert (Hle : (pow2 (q + 53) <= pow2 (s + 52))%Q) by (apply pow2_le; lia).
    lra.
Qed.

Section RoundPositive.
Variable x : Q.
Hypothesis x_pos : (0 < x)%Q.

Let s := (Z.max (exponent x) (-1022) - 52)%Z.
Let N := nearest_even (x / pow2 s).

Lemma scale_ge : (-1074 <= s)%Z.
Proof. unfold s. lia. Qed.

Lemma scale_leading : (-1074 < s)%Z -> (pow2 (s + 52) <= x)%Q.
Proof.
  intros H. replace (s + 52)%Z with (exponent x) by (unfold s in *; lia).
  apply exponent_le. exact x_pos.
Qed.

Lemma multiple_below (M : Z) : (inject_Z M * pow2 s <= x)%Q -> (M <= N)%Z.
Proof.
  intros H. apply nearest_even_lower. apply Qle_shift_div_l; [apply pow2_pos|exact H].
Qed.

Lemma multiple_above (M : Z) : (x <= inject_Z M * pow2 s)%Q -> (N <= M)%Z.
Proof.
  intros H. apply nearest_even_upper. apply Qle_shift_div_r; [apply pow2_pos|exact H].
Qed.

Lemma round_positive_eq : round_positive x = (inject_Z N * pow2 s)%Q.
Proof. reflexivity. Qed.

Lemma round_positive_nonneg : (0 <= round_positive x)%Q.
Proof.
  rewrite round_positive_eq.
  apply Qmult_le_0_compat; [|apply Qlt_le_weak, pow2_pos].
  change 0%Q with (inject_Z 0). rewrite <- Zle_Qle.
  apply multiple_below. change (inject_Z 0) with 0%Q. lra.
Qed.

Lemma round_positive_lower a :
  finite a -> (0 < a)%Q -> (a <= x)%Q -> (a <= round_positive x)%Q.
Proof.
  intros Hfin Ha Hax. rewrite round_positive_eq.
  pose proof (pow2_pos s) as Hp.
  destruct (finite_cases a s Hfin Ha scale_ge) as [[M HM]|[Hs Hsmall]].
  - rewrite HM. apply Qmult_le_compat_r; [|lra].
    rewrite <- Zle_Qle. apply multiple_below. rewrite <- HM. exact Hax.
  - pose proof (scale_leading Hs) as Hlead.
    assert (E : (pow2 (s + 52) == inject_Z (2 ^ 52) * pow2 s)%Q).
    { rewrite <- (pow2_nonneg_Z 52) by lia. rewrite <- pow2_plus.
      replace (52 + s)%Z with (s + 52)%Z by lia. reflexivity. }
    assert (H52 : (2 ^ 52 <= N)%Z) by (apply multiple_below; rewrite <- E; exact Hlead).
    apply Qlt_le_weak. eapply Qlt_le_trans; [exact Hsmall|]. rewrite E.
    apply Qmult_le_compat_r; [|lra]. rewrite <- Zle_Qle. exact H52.
Qed.

Lemma round_positive_upper b :
  finite b -> (x <= b)%Q -> (round_positive x <= b)%Q.
Proof.
  intros Hfin Hxb. rewrite round_positive_eq.
  pose proof (pow2_pos s) as Hp.
  assert (Hb : (0 < b)%Q) by lra.
  destruct (finite_cases b s Hfin Hb scale_ge) as [[M HM]|[Hs Hsmall]].
  - rewrite HM. apply Qmult_le_compat_r; [|lra].
    rewrite <- Zle_Qle. apply multiple_above. rewrite <- HM. exact Hxb.
  - pose proof (scale_leading Hs) as Hlead. lra.
Qed.
End RoundPositive.

(** Rounding does not cross a finite number. *)
Lemma round_between a b x :
  finite a -> finite b -> (a <= x)%Q -> (x <= b)%Q ->
  (a <= round x /\ round x <= b)%Q.
Proof.
  intros Ha Hb Hax Hxb. unfold round.
  destruct (Qcompare x 0) eqn:Hc.
  - apply Qeq_alt in Hc. lra.
  - apply Qlt_alt in Hc.
    assert (Hx : (0 < - x)%Q) by lra.
    pose proof (round_positive_nonneg (- x) Hx) as H0.
    split.
    + pose proof (round_positive_upper (- x) Hx (- a)%Q (finite_opp a Ha)) as H. lra.
    + destruct (Qlt_le_dec b 0) as [Hneg|Hpos]; [|lra].
      pose proof (round_positive_lower (- x) Hx (- b)%Q (finite_opp b Hb)) as H. lra.
  - apply Qgt_alt in Hc.
    pose proof (round_positive_nonneg x Hc) as H0.
    split.
    + destruct (Qlt_le_dec 0 a) as [Hpos|Hneg]; [|lra].
      apply (round_positive_lower x Hc a Ha Hpos Hax).
    + apply (round_positive_upper x Hc b Hb Hxb).
Qed.

(** A double is its own rounding. *)
Lemma round_finite x : finite x -> (round x == x)%Q.
Proof.
  intros H. destruct (round_between x x x H H) as [H1 H2]; lra.
Qed.

Lemma finite_eq x y : (x == y)%Q -> finite x -> finite y.
Proof.
  intros E (m & q & Hm & Hq & Hx). exists m, q. repeat split; try lia.
  rewrite <- E. exact Hx.
Qed.

Lemma finite_pow2 e : (0 <= e <= 1023)%Z -> finite (pow2 e).
Proof.
  intros He. destruct (Z_le_gt_dec e 971) as [Hle|Hgt].
  - exists 1%Z, e. repeat split; try lia. ring.
  - exists (2 ^ (e - 971))%Z, 971%Z. repeat split; try lia.
    + rewrite Z.abs_eq by (apply Z.pow_nonneg; lia).
      apply Z.pow_lt_mono_r; lia.
    + rewrite <- (pow2_nonneg_Z (e - 971)) by lia. rewrite <- pow2_plus.
      replace (e - 971 + 971)%Z with e by lia. reflexivity.
Qed.

End Rounding.

(** The operations of [Binary64] give what the machine gives: products and
    sums that are rounded down, rounded up, rounded to the even neighbour,
    exact, negative, and below the smallest normal double. *)
Section Machine.
Import Floats.

Example Binary64_agrees_with_the_machine :
  Q_of_float (1 / 10) = Some (Qred (Binary64.round (1 # 10)))
  /\ Q_of_float (1 / 10 + 2 / 10) = Some (Qred (Binary64.add (Binary64.round (1 # 10))
                                                        (Binary64.round (2 # 10))))
  /\ Q_of_float ((1 - Z.ldexp 1 (-52)) * 1000)
     = Some (Qred (Binary64.mul (1 - Binary64.pow2 (-52)) 1000))
  /\ Q_of_float ((1 - Z.ldexp 1 (-53)) * 1000)
     = Some (Qred (Binary64.mul (1 - Binary64.pow2 (-53)) 1000))
  /\ Q_of_float (1000 * 1 + (1 - Z.ldexp 1 (-52)) * 1000)
     = Some (Qred (delay_at Samples.almost_one 1000 1))
  /\ Q_of_float (1000 * 2 + (1 - Z.ldexp 1 (-52)) * 1000)
     = Some (Qred (delay_at Samples.almost_one 1000 2))
  /\ Q_of_float (1000 * 1 + (1 - Z.ldexp 1 (-53)) * 1000)
     = Some (Qred (delay_at Samples.nearly_one 1000 1))
  /\ Q_of_float (1000 * 2 + (1 - Z.ldexp 1 (-53)) * 1000)
     = Some (Qred (delay_at Samples.nearly_one 1000 2))
  /\ Q_of_float (1000 * 4 + 0.5 * 1000) = Some (Qred (delay_at Samples.half 1000 3))
  /\ Q_of_float (Z.ldexp 1 60 * 1 + 0.9375 * 1000)
     = Some (Qred (delay_at Samples.fifteen_sixteenths (2 ^ 60) 1))
  /\ Q_of_float (-1000 * 2 + 0.9375 * 1000)
     = Some (Qred (delay_at Samples.fifteen_sixteenths (-1000) 2))
  /\ Q_of_float (- (1 / 3)) = Some (Qred (Binary64.round (- (1 # 3))))
  /\ Q_of_float (Z.ldexp 1 (-1074) * 0.5)
     = Some (Qred (Binary64.mul (Binary64.pow2 (-1074)) (1 # 2)))
  /\ Q_of_float (Z.ldexp 3 (-1074) * 0.5)
     = Some (Qred (Binary64.mul (3 * Binary64.pow2 (-1074)) (1 # 2)))
  /\ Q_of_float (Z.ldexp 5 (-1074) * 0.5)
     = Some (Qred (Binary64.mul (5 * Binary64.pow2 (-1074)) (1 # 2)))
  /\ Q_of_float (Z.ldexp 1 (-1022) * (1 - Z.ldexp 1 (-53)))
     = Some (Qred (Binary64.mul (Binary64.pow2 (-1022)) (1 - Binary64.pow2 (-53)))).
Proof. repeat split; vm_compute; reflexivity. Qed.

End Machine.

(** ** The retry wrapper *)

Section RetryFacts.
Context {T : Type}.
Variable Math_random : nat -> Q.
Variable apiCall : Operation T.
Variable maxRetries : Z.
Variable initialDelay : Z.

Local Abbreviation loop := (retry_loop Math_random apiCall maxRetries initialDelay).

(** The loop leaves before the fuel is spent as soon as the fuel exceeds
    the number of failures that the attempt cap still tolerates. *)
Lemma retry_loop_leaves fuel : forall attempt slept,
  (Z.to_nat maxRetries - attempt < fuel)%nat ->
  exists r, loop fuel attempt slept = Some r.
Proof.
  induction fuel as [|fuel IH]; intros attempt slept Hfuel; [lia|].
  cbn [retry_loop].
  destruct (apiCall attempt) as [v|error]; [eauto|].
  destruct (maxRetries <=? Z.of_nat (S attempt))%Z eqn:Hcap; cbn [orb]; [eauto|].
  destruct (isRateLimitError error); cbn [negb]; [|eauto].
  apply IH. apply Z.leb_gt in Hcap. lia.
Qed.

(** More fuel does not change the run. *)
Lemma retry_loop_more_fuel fuel : forall attempt slept r extra,
  loop fuel attempt slept = Some r ->
  loop (fuel + extra) attempt slept = Some r.
Proof.
  induction fuel as [|fuel IH]; intros attempt slept r extra; [discriminate|].
  cbn [retry_loop Nat.add].
  destruct (apiCall attempt) as [v|error]; [auto|].
  destruct ((maxRetries <=? Z.of_nat (S attempt))%Z || negb (isRateLimitError error));
    [auto|apply IH].
Qed.

Lemma callApiWithRetry_opt_some :
  callApiWithRetry_opt Math_random apiCall maxRetries initialDelay
  = Some (callApiWithRetry Math_random apiCall maxRetries initialDelay).
Proof.
  unfold callApiWithRetry.
  destruct (retry_loop_leaves (retry_fuel maxRetries) 0 []) as [r Hr].
  - unfold retry_fuel. lia.
  - unfold callApiWithRetry_opt. rewrite Hr. reflexivity.
Qed.

(** The run of the wrapper is the run of the loop, whatever fuel lets the
    loop leave. *)
Lemma callApiWithRetry_of_loop fuel r :
  loop fuel 0 [] = Some r ->
  callApiWithRetry Math_random apiCall maxRetries initialDelay = r.
Proof.
  intros Hr.
  pose proof callApiWithRetry_opt_some as Hs. unfold callApiWithRetry_opt in Hs.
  apply retry_loop_more_fuel with (extra := retry_fuel maxRetries) in Hr.
  apply retry_loop_more_fuel with (extra := fuel) in Hs.
  rewrite Nat.add_comm in Hs. congruence.
Qed.

(** A failure that is not retried ends the run at the first attempt. *)
Lemma callApiWithRetry_first_failure error :
  apiCall 0%nat = Rejected error ->
  isRateLimitError error = false ->
  callApiWithRetry Math_random apiCall maxRetries initialDelay
  = mkRun (Rejected error) 1 [].
Proof.
  intros Hcall Hclass. apply (callApiWithRetry_of_loop 1).
  cbn [retry_loop]. rewrite Hcall, Hclass, orb_true_r. reflexivity.
Qed.


End RetryFacts.

(** For an integer delay the computation stays within the doubles as long
    as the exponential part plus 1000 is below [2^53]. *)
Lemma exact_backoff_integer initialDelay k :
  (1 <= k <= 1024)%nat ->
  (Z.abs initialDelay * 2 ^ (Z.of_nat k - 1) + 1000 < 2 ^ 53)%Z ->
  exact_backoff initialDelay k.
Proof.
  intros Hk Hsmall.
  assert (Hpow : (0 < 2 ^ (Z.of_nat k - 1))%Z) by (apply Z.pow_pos_nonneg; lia).
  assert (Habs : (Z.abs (initialDelay * 2 ^ (Z.of_nat k - 1))
                  = Z.abs initialDelay * 2 ^ (Z.of_nat k - 1))%Z).
  { rewrite Z.abs_mul. f_equal. apply Z.abs_eq. lia. }
  repeat split.
  - apply finite_pow2. lia.
  - apply finite_integer. lia.
  - apply (finite_eq (inject_Z (initialDelay * 2 ^ (Z.of_nat k - 1) + 1000))).
    + unfold backoff. rewrite inject_Z_plus. reflexivity.
    + apply finite_integer. lia.
Qed.

(** The delay before retry [k] lies between the exponential part and the
    exponential part plus 1000, both included, when these are doubles. *)
Lemma delay_at_bounds Math_random initialDelay k :
  unit_interval Math_random ->
  (1 <= k)%nat ->
  exact_backoff initialDelay k ->
  (backoff initialDelay k <= delay_at Math_random initialDelay k
   /\ delay_at Math_random initialDelay k <= backoff initialDelay k + 1000)%Q.
Proof.
  intros Hrnd Hk (_ & Hbase & Htop). unfold delay_at.
  destruct (Hrnd (k - 1)%nat) as [H0 H1].
  set (base := backoff initialDelay k) in *.
  assert (Hprod : (inject_Z initialDelay * Binary64.Math_pow2 (Z.of_nat k - 1) == base)%Q).
  { unfold Binary64.Math_pow2. rewrite pow2_nonneg_Z by lia.
    unfold base, backoff. rewrite inject_Z_mult. reflexivity. }
  assert (Hexp : (base <= Binary64.mul (inject_Z initialDelay)
                                       (Binary64.Math_pow2 (Z.of_nat k - 1))
                  /\ Binary64.mul (inject_Z initialDelay)
                                  (Binary64.Math_pow2 (Z.of_nat k - 1)) <= base)%Q).
  { apply round_between; try assumption; rewrite Hprod; apply Qle_refl. }
  assert (Hjit : (0 <= Binary64.mul (Math_random (k - 1)%nat) 1000
                  /\ Binary64.mul (Math_random (k - 1)%nat) 1000 <= 1000)%Q).
  { apply round_between.
    - apply (finite_integer 0). lia.
    - apply (finite_integer 1000). lia.
    - lra.
    - lra. }
  apply round_between; try assumption; lra.
Qed.

(** The classifier refuses an [Error] exactly when its lower-cased message
    holds none of the three markers. *)
Lemma isRateLimitError_message msg :
  isRateLimitError (ErrorObject msg) = false <->
  includes (toLowerCase msg) "quota" = false
  /\ includes (toLowerCase msg) "rate limit" = false
  /\ includes (toLowerCase msg) "429" = false.
Proof.
  cbn [isRateLimitError]. rewrite !orb_false_iff. tauto.
Qed.

Example classifier_ignores_case :
  isRateLimitError (ErrorObject "Quota exceeded for this project") = true
  /\ isRateLimitError (ErrorObject "RATE LIMIT reached") = true
  /\ isRateLimitError (ErrorObject "got status: 429 Too Many Requests") = true
  /\ isRateLimitError (ErrorObject "API key not valid") = false
  /\ isRateLimitError (ThrownRecord [("message", "quota")]) = false.
Proof. repeat split; reflexivity. Qed.

Example trim_samples :
  trim "  a mushroom cottage  " = "a mushroom cottage"
  /\ trim "   " = ""
  /\ trim ("{}" ++ nl)%string = "{}".
Proof. repeat split; reflexivity. Qed.

(** White space outside ASCII is trimmed as well, a zero width space is
    not; the Kelvin sign is lower-cased to [k]. *)
Example trim_unicode_samples :
  trim (Samples.no_break_space ++ Samples.em_space)%string = ""
  /\ trim (Samples.byte_order_mark ++ "{}")%string = "{}"
  /\ trim (Samples.no_break_space ++ "{}" ++ Samples.line_separator)%string = "{}"
  /\ trim (Samples.zero_width_space ++ " ")%string = Samples.zero_width_space
  /\ toLowerCase ("Request BLOC" ++ Samples.kelvin_sign ++ "ED")%string = "request blocked".
Proof. repeat split; reflexivity. Qed.




(** Why the bounds ask for doubles: with an initial delay of [2^60] ms, next
    to which the doubles are 256 apart, and a draw of fifteen sixteenths, the
    delay before the first retry is [2^60 + 1024], above
    [initialDelay + 1000]. *)
Example delay_beyond_the_exact_integers :
  (delay_at Samples.fifteen_sixteenths (2 ^ 60) 1 == inject_Z (2 ^ 60 + 1024))%Q
  /\ ~ (delay_at Samples.fifteen_sixteenths (2 ^ 60) 1
        <= inject_Z (2 ^ 60 * 2 ^ (Z.of_nat 1 - 1)) + 1000)%Q.
Proof.
  split; vm_compute; [reflexivity | intros H; apply H; reflexivity].
Qed.

(** C5.  An operation that always fails with a failure that the classifier
    does not take for a rate limit (for an [Error], a message that holds
    none of the three markers): the wrapper invokes it once, sleeps never,
    and rejects with the failure of that invocation as it is. *)
Theorem callApiWithRetry_other_failure_once :
  forall (T : Type) (Math_random : nat -> Q) (apiCall : Operation T)
         (maxRetries initialDelay : Z),
    (forall k, exists e, apiCall k = Rejected e /\ isRateLimitError e = false) ->
    exists e,
      apiCall 0%nat = Rejected e
      /\ callApiWithRetry Math_random apiCall maxRetries initialDelay
         = mkRun (Rejected e) 1 [].
Proof.
  intros T Math_random apiCall maxRetries initialDelay Hfail.
  destruct (Hfail 0%nat) as (e & Hcall & Hclass).
  exists e. split; [exact Hcall|].
  apply callApiWithRetry_first_failure; assumption.
Qed.

(** The same on a sample: an operation that is always refused. *)
Lemma callApiWithRetry_other_failure_once_witness :
  exists e,
    Samples.forbidden 0%nat = Rejected e
    /\ callApiWithRetry Samples.half Samples.forbidden 3 1000
       = mkRun (Rejected e) 1 [].
Proof.
  apply (callApiWithRetry_other_failure_once Z Samples.half Samples.forbidden 3 1000).
  intros k. exists (ErrorObject "API key not valid"). split; reflexivity.
Defined.

(** C10.  A thrown value that is not an [Error] is never taken for a rate
    limit, whatever it holds; the wrapper therefore rejects with it after
    the first attempt, without a retry and without a delay, for every
    [maxRetries] and [initialDelay]. *)
Theorem callApiWithRetry_non_Error_not_retried :
  forall (error : Thrown),
    instanceofError error = false ->
    isRateLimitError error = false
    /\ forall (T : Type) (Math_random : nat -> Q) (apiCall : Operation T)
              (maxRetries initialDelay : Z),
         apiCall 0%nat = Rejected error ->
         callApiWithRetry Math_random apiCall maxRetries initialDelay
         = mkRun (Rejected error) 1 [].
Proof.
  intros error Hnot.
  assert (Hclass : isRateLimitError error = false)
    by (destruct error; [discriminate Hnot | reflexivity ..]).
  split; [exact Hclass|].
  intros T Math_random apiCall maxRetries initialDelay Hcall.
  apply callApiWithRetry_first_failure; assumption.
Qed.

(** The same on a sample: a thrown string that reads like a rate limit. *)
Lemma callApiWithRetry_non_Error_not_retried_witness :
  isRateLimitError (ThrownString "429 quota exceeded: rate limit") = false
  /\ callApiWithRetry Samples.half Samples.throws_string 3 1000
     = mkRun (Rejected (ThrownString "429 quota exceeded: rate limit")) 1 [].
Proof.
  destruct (callApiWithRetry_non_Error_not_retried
              (ThrownString "429 quota exceeded: rate limit") eq_refl) as [Hclass Hrun].
  split; [exact Hclass|].
  apply (Hrun Z Samples.half Samples.throws_string 3%Z 1000%Z). reflexivity.
Defined.

(** ** [Promise.all] *)

Lemma Forall2_nth_error_l {A B : Type} (R : A -> B -> Prop) (l1 : list A) :
  forall (l2 : list B) i a,
    Forall2 R l1 l2 -> nth_error l1 i = Some a ->
    exists b, nth_error l2 i = Some b /\ R a b.
Proof.
  induction l1 as [|x l1 IH]; intros l2 i a Hall Hnth.
  - destruct i; discriminate.
  - inversion Hall as [|? y ? l2' Hxy Hrest]; subst. destruct i as [|i]; cbn in *.
    + inversion Hnth; subst. eauto.
    + eapply IH; eauto.
Qed.

Lemma StronglySorted_suffix {A : Type} (R : A -> A -> Prop) (l1 : list A) :
  forall l2, StronglySorted R (l1 ++ l2) -> StronglySorted R l2.
Proof.
  induction l1 as [|x l1 IH]; intros l2 Hs; [exact Hs|].
  cbn in Hs. apply StronglySorted_inv in Hs. apply IH, Hs.
Qed.

Section PromiseAllFacts.
Context {T : Type}.

Lemma length_set_index (values : list (option T)) : forall index value,
  length (set_index index value values) = length values.
Proof.
  induction values as [|x rest IH]; intros [|index] value; cbn; auto.
Qed.

Lemma nth_error_set_index_same (values : list (option T)) : forall index value,
  (index < length values)%nat ->
  nth_error (set_index index value values) index = Some value.
Proof.
  induction values as [|x rest IH]; intros [|index] value Hlt; cbn in *;
    try lia; auto.
  apply IH. lia.
Qed.

Lemma nth_error_set_index_other (values : list (option T)) : forall index value j,
  index <> j ->
  nth_error (set_index index value values) j = nth_error values j.
Proof.
  induction values as [|x rest IH]; intros [|index] value [|j] Hne; cbn;
    try congruence; auto.
Qed.

Lemma written_map_Some (vs : list T) : written (map Some vs) = vs.
Proof.
  induction vs as [|v vs IH]; cbn; congruence.
Qed.

(** *** The order of the settlements *)

Lemma insert_settlement_perm x (l : list (nat * Promise T)) :
  Permutation (insert_settlement x l) (x :: l).
Proof.
  induction l as [|y l IH]; cbn; [reflexivity|].
  destruct (latency (snd x) <=? latency (snd y))%nat; [reflexivity|].
  rewrite IH. apply perm_swap.
Qed.

Lemma settlements_perm (promises : list (Promise T)) :
  Permutation (settlements promises)
              (combine (seq 0 (length promises)) promises).
Proof.
  unfold settlements.
  induction (combine (seq 0 (length promises)) promises) as [|x l IH];
    cbn; [reflexivity|].
  rewrite insert_settlement_perm. auto.
Qed.

Lemma insert_settlement_sorted x (l : list (nat * Promise T)) :
  Sorted earlier l -> Sorted earlier (insert_settlement x l).
Proof.
  induction l as [|y l IH]; intros Hs; cbn.
  - repeat constructor.
  - destruct (latency (snd x) <=? latency (snd y))%nat eqn:Hle.
    + constructor; [assumption|]. constructor. apply Nat.leb_le, Hle.
    + apply Nat.leb_gt in Hle. inversion Hs as [|? ? Hl Hhd]; subst.
      constructor; [auto|].
      destruct l as [|z l]; cbn.
      * constructor. unfold earlier. lia.
      * destruct (latency (snd x) <=? latency (snd z))%nat.
        -- constructor. unfold earlier. lia.
        -- inversion Hhd; subst. constructor. assumption.
Qed.

Lemma settlements_sorted (promises : list (Promise T)) :
  StronglySorted earlier (settlements promises).
Proof.
  apply Sorted_StronglySorted.
  - intros x y z. unfold earlier. lia.
  - unfold settlements.
    induction (combine (seq 0 (length promises)) promises) as [|x l IH]; cbn.
    + constructor.
    + apply insert_settlement_sorted, IH.
Qed.

Lemma In_combine_seq (l : list (Promise T)) : forall a i p,
  In (i, p) (combine (seq a (length l)) l) <->
  (a <= i)%nat /\ nth_error l (i - a) = Some p.
Proof.
  induction l as [|q l IH]; intros a i p; cbn [length seq combine In].
  - split; [tauto|]. intros [_ H]. destruct (i - a)%nat; discriminate.
  - rewrite IH. split.
    + intros [Heq | [Hle Hnth]].
      * inversion Heq; subst. rewrite Nat.sub_diag. auto.
      * split; [lia|]. replace (i - a)%nat with (S (i - S a)) by lia. exact Hnth.
    + intros [Hle Hnth]. destruct (Nat.eq_dec a i) as [->|Hne].
      * rewrite Nat.sub_diag in Hnth. cbn in Hnth. left. congruence.
      * right. split; [lia|].
        replace (i - a)%nat with (S (i - S a)) in Hnth by lia. exact Hnth.
Qed.

Lemma map_fst_combine_seq (l : list (Promise T)) : forall a,
  map fst (combine (seq a (length l)) l) = seq a (length l).
Proof.
  induction l as [|q l IH]; intros a; cbn; [reflexivity|]. now rewrite IH.
Qed.

Lemma In_settlements (promises : list (Promise T)) i p :
  In (i, p) (settlements promises) <-> nth_error promises i = Some p.
Proof.
  rewrite (settlements_perm promises), In_combine_seq.
  rewrite Nat.sub_0_r. split; [tauto | split; [lia | assumption]].
Qed.

Lemma NoDup_settlements (promises : list (Promise T)) :
  NoDup (map fst (settlements promises)).
Proof.
  apply (Permutation_NoDup
           (l := map fst (combine (seq 0 (length promises)) promises))).
  - apply Permutation_map. symmetry. apply settlements_perm.
  - rewrite map_fst_combine_seq. apply seq_NoDup.
Qed.

(** *** Every promise fulfils *)

Lemma react_all_fulfilled (events : list (nat * Promise T)) :
  forall values remaining,
    remaining = length events ->
    events <> [] ->
    NoDup (map fst events) ->
    (forall i p, In (i, p) events ->
       (i < length values)%nat /\ exists v, settled p = Fulfilled v) ->
    exists values' t,
      react events values remaining = Some (mkPromise (Fulfilled (written values')) t)
      /\ length values' = length values
      /\ (forall i p v, In (i, p) events -> settled p = Fulfilled v ->
            nth_error values' i = Some (Some v))
      /\ (forall j, ~ In j (map fst events) ->
            nth_error values' j = nth_error values j).
Proof.
  induction events as [|[i p] rest IH]; intros values remaining Hrem Hne Hnd Hall;
    [congruence|].
  destruct (Hall i p (or_introl eq_refl)) as [Hi [v Hv]].
  subst remaining. cbn [react length]. rewrite Hv.
  replace (S (length rest) - 1)%nat with (length rest) by lia.
  cbn [map fst] in Hnd. inversion Hnd as [|? ? Hnotin Hnd']; subst.
  destruct rest as [|e2 rest'].
  - cbn [length Nat.eqb].
    exists (set_index i (Some v) values), (latency p).
    split; [reflexivity|]. split; [apply length_set_index|]. split.
    + intros i' p' v' [Heq|[]] Hv'. inversion Heq; subst.
      rewrite nth_error_set_index_same by assumption. congruence.
    + intros j Hj. apply nth_error_set_index_other. cbn in Hj. tauto.
  - cbn [length Nat.eqb].
    destruct (IH (set_index i (Some v) values) (S (length rest'))) as
      (values' & t & Hreact & Hlen & Hin & Hout); auto.
    + discriminate.
    + intros i' p' Hin'. rewrite length_set_index. apply Hall. right. exact Hin'.
    + exists values', t. split; [exact Hreact|].
      split; [rewrite Hlen; apply length_set_index|]. split.
      * intros i' p' v' [Heq|Hin'] Hv'.
        -- inversion Heq; subst. rewrite Hout by assumption.
           rewrite nth_error_set_index_same by assumption. congruence.
        -- eapply Hin; eauto.
      * intros j Hj. rewrite Hout by (cbn in Hj |- *; tauto).
        apply nth_error_set_index_other. cbn in Hj. tauto.
Qed.

(** When every promise fulfils, [Promise.all] fulfils with the values in
    the order of the promises, whatever the latencies. *)
Lemma Promise_all_fulfilled (promises : list (Promise T)) (vs : list T) :
  Forall2 (fun p v => settled p = Fulfilled v) promises vs ->
  exists t, Promise_all promises = Some (mkPromise (Fulfilled vs) t).
Proof.
  intros Hall. destruct promises as [|p0 promises'].
  { inversion Hall; subst. exists 0%nat. reflexivity. }
  unfold Promise_all. remember (p0 :: promises') as promises eqn:Hps.
  assert (Hlen : length promises = length vs) by (eapply Forall2_length; eauto).
  destruct (react_all_fulfilled (settlements promises)
              (repeat None (length promises)) (length promises))
    as (values' & t & Hreact & Hlen' & Hin & _).
  - rewrite (Permutation_length (settlements_perm promises)).
    rewrite length_combine, length_seq. lia.
  - intros Hnil. assert (H : In (0%nat, p0) (settlements promises))
      by (apply In_settlements; rewrite Hps; reflexivity).
    rewrite Hnil in H. destruct H.
  - apply NoDup_settlements.
  - intros i p Hip. apply In_settlements in Hip. split.
    + rewrite repeat_length. apply nth_error_Some. congruence.
    + destruct (Forall2_nth_error_l _ _ _ _ _ Hall Hip) as (v & _ & Hv). eauto.
  - exists t. rewrite Hreact. do 3 f_equal.
    rewrite <- (written_map_Some vs). f_equal.
    apply nth_error_ext. intros j.
    destruct (nth_error promises j) as [p|] eqn:Hp.
    + destruct (Forall2_nth_error_l _ _ _ _ _ Hall Hp) as (v & Hvs & Hv).
      rewrite nth_error_map, Hvs. cbn.
      apply (Hin j p v); [apply In_settlements; exact Hp | exact Hv].
    + apply nth_error_None in Hp.
      rewrite (proj2 (nth_error_None _ _)) by (rewrite Hlen', repeat_length; lia).
      rewrite (proj2 (nth_error_None _ _)) by (rewrite length_map; lia).
      reflexivity.
Qed.

(** *** Some promise rejects *)

Lemma react_first_rejection (pre : list (nat * Promise T)) :
  forall i p post reason values remaining,
    Forall (fun x => exists v, settled (snd x) = Fulfilled v) pre ->
    settled p = Rejected reason ->
    (length pre < remaining)%nat ->
    react (pre ++ (i, p) :: post) values remaining
    = Some (mkPromise (Rejected reason) (latency p)).
Proof.
  induction pre as [|[j q] pre IH]; intros i p post reason values remaining Hpre Hp Hrem.
  - cbn. rewrite Hp. reflexivity.
  - inversion Hpre as [|? ? [v Hq] Hpre']; subst. cbn in Hq.
    cbn [app react]. rewrite Hq. cbn [length] in Hrem.
    destruct (remaining - 1 =? 0)%nat eqn:Hz; [apply Nat.eqb_eq in Hz; lia|].
    apply IH; auto. lia.
Qed.

Lemma first_rejection_split (events : list (nat * Promise T)) :
  (exists x reason, In x events /\ settled (snd x) = Rejected reason) ->
  exists pre x reason post,
    events = pre ++ x :: post
    /\ Forall (fun y => exists v, settled (snd y) = Fulfilled v) pre
    /\ settled (snd x) = Rejected reason.
Proof.
  induction events as [|y events IH]; intros (x & reason & Hin & Hx); [destruct Hin|].
  destruct (settled (snd y)) as [v|ry] eqn:Hy.
  - destruct IH as (pre & x' & reason' & post & -> & Hpre & Hx').
    + destruct Hin as [->|Hin]; [congruence | eauto].
    + exists (y :: pre), x', reason', post. repeat split; auto.
      constructor; eauto.
  - exists [], y, ry, events. repeat split; auto.
Qed.

(** When some promise rejects, [Promise.all] rejects with the reason of a
    rejected promise that no other rejected promise precedes in time. *)
Lemma Promise_all_rejected (promises : list (Promise T)) :
  (exists q reason, In q promises /\ settled q = Rejected reason) ->
  exists i p reason,
    nth_error promises i = Some p
    /\ settled p = Rejected reason
    /\ Promise_all promises = Some (mkPromise (Rejected reason) (latency p))
    /\ forall q reason', In q promises -> settled q = Rejected reason' ->
         (latency p <= latency q)%nat.
Proof.
  intros (q & rq & Hq & Hrq).
  destruct (In_nth_error _ _ Hq) as [iq Hiq].
  destruct (first_rejection_split (settlements promises))
    as (pre & [i p] & reason & post & Hsplit & Hpre & Hp).
  { exists (iq, q), rq. split; [apply In_settlements; exact Hiq | exact Hrq]. }
  cbn [snd] in Hp.
  assert (Hip : nth_error promises i = Some p).
  { apply In_settlements. rewrite Hsplit. apply in_elt. }
  exists i, p, reason. repeat split; auto.
  - destruct promises as [|p0 promises']; [destruct i; discriminate|].
    unfold Promise_all. remember (p0 :: promises') as ps.
    rewrite Hsplit. apply react_first_rejection; auto.
    assert (Hlen : length (settlements ps) = length ps).
    { rewrite (Permutation_length (settlements_perm ps)).
      rewrite length_combine, length_seq. lia. }
    rewrite Hsplit, length_app in Hlen. cbn [length] in Hlen. lia.
  - intros q' reason' Hq' Hrq'.
    destruct (In_nth_error _ _ Hq') as [j Hj].
    apply In_settlements in Hj. rewrite Hsplit in Hj.
    pose proof (settlements_sorted promises) as Hsorted. rewrite Hsplit in Hsorted.
    apply in_app_or in Hj. destruct Hj as [Hj|[Hj|Hj]].
    + rewrite Forall_forall in Hpre. destruct (Hpre _ Hj) as [v Hv].
      cbn in Hv. congruence.
    + inversion Hj; subst. lia.
    + apply StronglySorted_suffix, StronglySorted_inv in Hsorted.
      destruct Hsorted as [_ Hall].
      rewrite Forall_forall in Hall. apply (Hall _ Hj).
Qed.

Lemma fulfilled_or_rejected (promises : list (Promise T)) :
  (exists vs, Forall2 (fun p v => settled p = Fulfilled v) promises vs)
  \/ (exists q reason, In q promises /\ settled q = Rejected reason).
Proof.
  induction promises as [|p promises IH].
  - left. exists []. constructor.
  - destruct (settled p) as [v|reason] eqn:Hp.
    + destruct IH as [[vs Hvs]|(q & reason & Hq & Hr)].
      * left. exists (v :: vs). constructor; assumption.
      * right. exists q, reason. split; [right|]; assumption.
    + right. exists p, reason. split; [left; reflexivity | assumption].
Qed.

(** [Promise.all] always settles. *)
Lemma Promise_all_settles (promises : list (Promise T)) :
  exists p, Promise_all promises = Some p.
Proof.
  destruct (fulfilled_or_rejected promises) as [[vs Hvs]|Hrej].
  - destruct (Promise_all_fulfilled promises vs Hvs) as [t Ht]. eauto.
  - destruct (Promise_all_rejected promises Hrej) as (i & p & reason & _ & _ & Hall & _).
    eauto.
Qed.

End PromiseAllFacts.

(** ** The batched runner *)

Lemma Forall2_skipn {A B : Type} (R : A -> B -> Prop) n : forall l1 l2,
  Forall2 R l1 l2 -> Forall2 R (skipn n l1) (skipn n l2).
Proof.
  induction n as [|n IH]; intros l1 l2 H; [exact H|].
  destruct H; cbn; [constructor | auto].
Qed.

Lemma Forall2_firstn {A B : Type} (R : A -> B -> Prop) n : forall l1 l2,
  Forall2 R l1 l2 -> Forall2 R (firstn n l1) (firstn n l2).
Proof.
  induction n as [|n IH]; intros l1 l2 H; [constructor|].
  destruct H; cbn; constructor; auto.
Qed.

Lemma Forall2_map_l {A B C : Type} (R : C -> B -> Prop) (f : A -> C) l1 l2 :
  Forall2 (fun a b => R (f a) b) l1 l2 -> Forall2 R (map f l1) l2.
Proof.
  induction 1; cbn; constructor; auto.
Qed.

Section BatchFacts.
Context {T : Type}.
Variable promiseFactories : list (Factory T).
Variable batchSize : nat.
Hypothesis batchSize_positive : (1 <= batchSize)%nat.

Local Abbreviation loop := (batch_loop promiseFactories batchSize).
Local Abbreviation size := (length promiseFactories).

Lemma slice_chunk i :
  slice i (i + batchSize) promiseFactories
  = firstn batchSize (skipn i promiseFactories).
Proof.
  unfold slice. f_equal. lia.
Qed.

Lemma length_chunk i :
  length (firstn batchSize (skipn i promiseFactories))
  = (Nat.min size (i + batchSize) - i)%nat.
Proof.
  rewrite length_firstn, length_skipn. lia.
Qed.

Lemma nth_error_chunk i k :
  nth_error (firstn batchSize (skipn i promiseFactories)) k
  = if (k <? batchSize)%nat then nth_error promiseFactories (i + k) else None.
Proof.
  rewrite nth_error_firstn, nth_error_skipn. reflexivity.
Qed.

(** Every factory fulfils: the loop ends, with the values in the order of
    the factories, every factory having been invoked. *)
Lemma batch_loop_all_fulfilled (vs : list T) :
  Forall2 fulfils promiseFactories vs ->
  forall fuel i results now invoked,
    (size - i <= fuel)%nat ->
    exists t,
      loop fuel i results now invoked
      = Some (mkBatchRun (mkPromise (Fulfilled (results ++ skipn i vs)) t)
                         (invoked ++ seq i (size - i))).
Proof.
  intros Hall.
  assert (Hlen : length vs = size) by (symmetry; eapply Forall2_length; eauto).
  induction fuel as [|fuel IH]; intros i results now invoked Hfuel.
  - cbn [batch_loop].
    destruct (i <? size)%nat eqn:Hi; [apply Nat.ltb_lt in Hi; lia|].
    apply Nat.ltb_ge in Hi. exists now.
    rewrite skipn_all2 by lia. replace (size - i)%nat with 0%nat by lia.
    cbn [seq]. now rewrite !app_nil_r.
  - cbn [batch_loop].
    destruct (i <? size)%nat eqn:Hi.
    + apply Nat.ltb_lt in Hi. rewrite slice_chunk.
      destruct (Promise_all_fulfilled
                  (map (fun factory : Factory T => factory tt)
                       (firstn batchSize (skipn i promiseFactories)))
                  (firstn batchSize (skipn i vs))) as [t Ht].
      { apply Forall2_map_l, Forall2_firstn, Forall2_skipn, Hall. }
      rewrite Ht. cbn [settled latency].
      destruct (IH (i + batchSize)%nat
                   (results ++ firstn batchSize (skipn i vs)) (now + t)%nat
                   (invoked ++ seq i (length (firstn batchSize (skipn i promiseFactories)))))
        as [t' Ht']; [lia|].
      exists t'. rewrite Ht'. do 2 f_equal.
      * rewrite <- app_assoc, (Nat.add_comm i batchSize), <- skipn_skipn, firstn_skipn.
        reflexivity.
      * rewrite <- app_assoc. f_equal. rewrite length_chunk.
        destruct (Nat.le_gt_cases (i + batchSize) size) as [Hle|Hgt].
        -- rewrite Nat.min_r by lia.
           replace (size - i)%nat with ((i + batchSize - i) + (size - (i + batchSize)))%nat
             by lia.
           rewrite seq_app. do 2 f_equal. lia.
        -- rewrite Nat.min_l by lia.
           replace (size - (i + batchSize))%nat with 0%nat by lia.
           cbn [seq]. now rewrite app_nil_r.
    + apply Nat.ltb_ge in Hi. exists now.
      rewrite skipn_all2 by lia. replace (size - i)%nat with 0%nat by lia.
      cbn [seq]. now rewrite !app_nil_r.
Qed.

(** Some factory at or after [i] rejects: the loop ends at the first chunk
    [c] (counted from the chunk of [i]) that holds a rejecting factory. *)
Lemma batch_loop_first_failure :
  forall fuel i results now invoked,
    (size - i <= fuel)%nat ->
    (exists j factory reason,
        (i <= j)%nat /\ nth_error promiseFactories j = Some factory
        /\ settled (factory tt) = Rejected reason) ->
    exists c j factory reason t,
      (i + c * batchSize <= j < i + c * batchSize + batchSize)%nat
      /\ nth_error promiseFactories j = Some factory
      /\ settled (factory tt) = Rejected reason
      /\ (forall j' factory',
            (i <= j' < i + c * batchSize)%nat ->
            nth_error promiseFactories j' = Some factory' ->
            exists v, settled (factory' tt) = Fulfilled v)
      /\ (forall j' factory' reason',
            (i + c * batchSize <= j' < i + c * batchSize + batchSize)%nat ->
            nth_error promiseFactories j' = Some factory' ->
            settled (factory' tt) = Rejected reason' ->
            (latency (factory tt) <= latency (factory' tt))%nat)
      /\ loop fuel i results now invoked
         = Some (mkBatchRun (mkPromise (Rejected reason) t)
                   (invoked ++ seq i (Nat.min size (i + c * batchSize + batchSize) - i))).
Proof.
  induction fuel as [|fuel IH]; intros i results now invoked Hfuel
    (j & factory & reason & Hij & Hj & Hreason);
    assert (Hjs : (j < size)%nat) by (apply nth_error_Some; congruence);
    [lia|].
  cbn [batch_loop].
  replace (i <? size)%nat with true by (symmetry; apply Nat.ltb_lt; lia).
  rewrite slice_chunk.
  set (chunk := firstn batchSize (skipn i promiseFactories)).
  set (promises := map (fun f : Factory T => f tt) chunk).
  destruct (fulfilled_or_rejected promises) as [[vs Hvs]|Hrej].
  - (* the chunk of [i] fulfils: the failure is further on *)
    destruct (Promise_all_fulfilled promises vs Hvs) as [t Ht].
    rewrite Ht. cbn [settled latency].
    assert (Hchunk : forall j' factory',
               (i <= j' < i + batchSize)%nat ->
               nth_error promiseFactories j' = Some factory' ->
               exists v, settled (factory' tt) = Fulfilled v).
    { intros j' factory' Hj' Hnth.
      assert (Hp : nth_error promises (j' - i) = Some (factory' tt)).
      { unfold promises, chunk. rewrite nth_error_map, nth_error_chunk.
        replace (j' - i <? batchSize)%nat with true
          by (symmetry; apply Nat.ltb_lt; lia).
        replace (i + (j' - i))%nat with j' by lia. now rewrite Hnth. }
      destruct (Forall2_nth_error_l _ _ _ _ _ Hvs Hp) as (v & _ & Hv). eauto. }
    assert (Hfar : (i + batchSize <= j)%nat).
    { destruct (Nat.le_gt_cases (i + batchSize) j) as [|Hlt]; [assumption|].
      destruct (Hchunk j factory) as [v Hv]; [lia | assumption | congruence]. }
    destruct (IH (i + batchSize)%nat (results ++ vs) (now + t)%nat
                 (invoked ++ seq i (length chunk)))
      as (c & j1 & f1 & r1 & t1 & Hin & Hnth & Hr1 & Hbefore & Hfirst & Hrun);
      [lia | exists j, factory, reason; auto |].
    exists (S c), j1, f1, r1, t1.
    replace (i + S c * batchSize)%nat with (i + batchSize + c * batchSize)%nat by lia.
    split; [lia|]. split; [assumption|]. split; [assumption|]. split.
    + intros j' factory' Hj' Hnth'.
      destruct (Nat.le_gt_cases (i + batchSize) j').
      * apply (Hbefore j'); [lia | assumption].
      * apply (Hchunk j'); [lia | assumption].
    + split; [exact Hfirst|].
      rewrite Hrun. do 2 f_equal. rewrite <- app_assoc. f_equal.
      unfold chunk. rewrite length_chunk, Nat.min_r by lia.
      replace (Nat.min size (i + batchSize + c * batchSize + batchSize) - i)%nat
        with ((i + batchSize - i)
              + (Nat.min size (i + batchSize + c * batchSize + batchSize)
                 - (i + batchSize)))%nat by lia.
      rewrite seq_app. do 2 f_equal. lia.
  - (* the chunk of [i] holds a rejection *)
    destruct (Promise_all_rejected promises Hrej)
      as (k & p & r & Hk & Hr & Hall & Hmin).
    rewrite Hall. cbn [settled latency].
    unfold promises, chunk in Hk. rewrite nth_error_map, nth_error_chunk in Hk.
    destruct (k <? batchSize)%nat eqn:Hkb; [|discriminate].
    apply Nat.ltb_lt in Hkb.
    destruct (nth_error promiseFactories (i + k)) as [f|] eqn:Hf; [|discriminate].
    cbn in Hk. inversion Hk; subst p.
    exists 0%nat, (i + k)%nat, f, r, (now + latency (f tt))%nat.
    cbn [Nat.mul]. rewrite Nat.add_0_r.
    split; [lia|]. split; [assumption|]. split; [assumption|].
    split; [intros j' factory' Hj'; lia|]. split.
    + intros j' factory' reason' Hj' Hnth' Hr'.
      apply (Hmin (factory' tt) reason'); [|assumption].
      apply (nth_error_In _ (j' - i)). unfold promises, chunk.
      rewrite nth_error_map, nth_error_chunk.
      replace (j' - i <? batchSize)%nat with true
        by (symmetry; apply Nat.ltb_lt; lia).
      replace (i + (j' - i))%nat with j' by lia. now rewrite Hnth'.
    + unfold chunk. rewrite length_chunk. reflexivity.
Qed.

End BatchFacts.

Lemma Forall_fulfils {T : Type} (promiseFactories : list (Factory T)) :
  (forall factory, In factory promiseFactories -> exists v, fulfils factory v) ->
  exists vs, Forall2 fulfils promiseFactories vs.
Proof.
  induction promiseFactories as [|f fs IH]; intros Hall.
  - exists []. constructor.
  - destruct (Hall f (or_introl eq_refl)) as [v Hv].
    destruct IH as [vs Hvs]; [intros g Hg; apply Hall; right; exact Hg|].
    exists (v :: vs). constructor; assumption.
Qed.

Lemma Forall2_same_outcome {T : Type} (fs : list (Factory T)) :
  forall gs vs,
    Forall2 (fun f g => settled (f tt) = settled (g tt)) fs gs ->
    Forall2 fulfils fs vs -> Forall2 fulfils gs vs.
Proof.
  induction fs as [|f fs IH]; intros gs vs Hsame Hfs;
    inversion Hsame; subst; inversion Hfs; subst; constructor.
  - unfold fulfils in *. congruence.
  - apply IH; assumption.
Qed.

(** With a batch size of zero the loop never advances: whatever the fuel,
    it is still running. *)
Lemma batch_loop_zero_runs_on {T : Type} (promiseFactories : list (Factory T)) :
  forall fuel i results now invoked,
    (i < length promiseFactories)%nat ->
    batch_loop promiseFactories 0 fuel i results now invoked = None.
Proof.
  induction fuel as [|fuel IH]; intros i results now invoked Hi; cbn [batch_loop];
    replace (i <? length promiseFactories)%nat with true
      by (symmetry; apply Nat.ltb_lt; exact Hi); [reflexivity|].
  unfold slice. rewrite Nat.add_0_r, Nat.sub_diag. cbn [firstn map Promise_all settled latency].
  rewrite Nat.add_0_r. apply IH. exact Hi.
Qed.

(** C4.  For a batch size of at least one, when every operation succeeds the
    runner returns as many results as there are operations, the result at
    each index being the one of the operation at that index; and the
    results are the same for operations that succeed with the same values
    after other delays. *)
Theorem runPromisesInBatches_preserves_order :
  forall (T : Type) (promiseFactories : list (Factory T)) (batchSize : nat),
    (1 <= batchSize)%nat ->
    (forall factory, In factory promiseFactories -> exists v, fulfils factory v) ->
    exists run results,
      runPromisesInBatches promiseFactories batchSize = Some run
      /\ settled (returned run) = Fulfilled results
      /\ length results = length promiseFactories
      /\ (forall i factory,
            nth_error promiseFactories i = Some factory ->
            exists v, nth_error results i = Some v
                      /\ settled (factory tt) = Fulfilled v)
      /\ (forall others : list (Factory T),
            Forall2 (fun f g => settled (f tt) = settled (g tt)) promiseFactories others ->
            exists run',
              runPromisesInBatches others batchSize = Some run'
              /\ settled (returned run') = Fulfilled results).
Proof.
  intros T promiseFactories batchSize Hsize Hall.
  destruct (Forall_fulfils promiseFactories Hall) as [vs Hvs].
  destruct (batch_loop_all_fulfilled promiseFactories batchSize Hsize vs Hvs
              (length promiseFactories) 0 [] 0 []) as [t Hrun]; [lia|].
  cbn [app skipn] in Hrun.
  eexists _, vs. split; [exact Hrun|]. cbn [returned settled].
  split; [reflexivity|]. split; [symmetry; eapply Forall2_length; eauto|]. split.
  - intros i factory Hi.
    destruct (Forall2_nth_error_l _ _ _ _ _ Hvs Hi) as (v & Hv & Hf). eauto.
  - intros others Hsame.
    pose proof (Forall2_same_outcome _ _ _ Hsame Hvs) as Hothers.
    destruct (batch_loop_all_fulfilled others batchSize Hsize vs Hothers
                (length others) 0 [] 0 []) as [t' Hrun']; [lia|].
    cbn [app skipn] in Hrun'. eexists. split; [exact Hrun' | reflexivity].
Qed.

(** The same on a sample: three successes in batches of two. *)
Lemma runPromisesInBatches_preserves_order_witness :
  exists run results,
    runPromisesInBatches Samples.three_successes 2 = Some run
    /\ settled (returned run) = Fulfilled results
    /\ length results = length Samples.three_successes
    /\ (forall i factory,
          nth_error Samples.three_successes i = Some factory ->
          exists v, nth_error results i = Some v
                    /\ settled (factory tt) = Fulfilled v)
    /\ (forall others : list (Factory Z),
          Forall2 (fun f g => settled (f tt) = settled (g tt))
                  Samples.three_successes others ->
          exists run',
            runPromisesInBatches others 2 = Some run'
            /\ settled (returned run') = Fulfilled results).
Proof.
  apply (runPromisesInBatches_preserves_order Z Samples.three_successes 2).
  - lia.
  - intros factory [<-|[<-|[<-|[]]]]; eexists; reflexivity.
Defined.

(** C6.  For a batch size of at least one, when some operation fails the
    runner rejects: with the failure of an operation of the first chunk
    that holds a failing operation (the one that fails first in that
    chunk, hence the failing operation itself when there is only one), no
    list of results being returned; every operation up to the end of that
    chunk has been started, and none of a later chunk. *)
Theorem runPromisesInBatches_fails_fast :
  forall (T : Type) (promiseFactories : list (Factory T)) (batchSize : nat),
    (1 <= batchSize)%nat ->
    (exists factory reason,
        In factory promiseFactories /\ settled (factory tt) = Rejected reason) ->
    exists run c j factory reason,
      runPromisesInBatches promiseFactories batchSize = Some run
      /\ (c * batchSize <= j < c * batchSize + batchSize)%nat
      /\ nth_error promiseFactories j = Some factory
      /\ settled (factory tt) = Rejected reason
      /\ settled (returned run) = Rejected reason
      /\ (forall j' factory',
            (j' < c * batchSize)%nat ->
            nth_error promiseFactories j' = Some factory' ->
            exists v, settled (factory' tt) = Fulfilled v)
      /\ (forall j' factory' reason',
            (c * batchSize <= j' < c * batchSize + batchSize)%nat ->
            nth_error promiseFactories j' = Some factory' ->
            settled (factory' tt) = Rejected reason' ->
            (latency (factory tt) <= latency (factory' tt))%nat)
      /\ started run
         = seq 0 (Nat.min (length promiseFactories) (c * batchSize + batchSize))
      /\ (forall j', (c * batchSize + batchSize <= j')%nat -> ~ In j' (started run))
      /\ (forall j1 factory1 reason1,
            nth_error promiseFactories j1 = Some factory1 ->
            settled (factory1 tt) = Rejected reason1 ->
            (forall j2 factory2 reason2,
                nth_error promiseFactories j2 = Some factory2 ->
                settled (factory2 tt) = Rejected reason2 -> j2 = j1) ->
            settled (returned run) = Rejected reason1).
Proof.
  intros T promiseFactories batchSize Hsize (f0 & r0 & Hin0 & Hr0).
  destruct (In_nth_error _ _ Hin0) as [j0 Hj0].
  destruct (batch_loop_first_failure promiseFactories batchSize Hsize
              (length promiseFactories) 0 [] 0 [])
    as (c & j & factory & reason & t & Hj & Hnth & Hr & Hbefore & Hfirst & Hrun).
  { lia. }
  { exists j0, f0, r0. split; [lia | split; assumption]. }
  cbn [Nat.add app] in *. rewrite Nat.sub_0_r in Hrun.
  eexists _, c, j, factory, reason. split; [exact Hrun|].
  cbn [returned settled started].
  split; [exact Hj|]. split; [exact Hnth|]. split; [exact Hr|]. split; [reflexivity|].
  split; [intros j' factory' Hj'; apply Hbefore; lia|].
  split; [exact Hfirst|]. split; [reflexivity|]. split.
  - intros j' Hj' Hin. apply in_seq in Hin. lia.
  - intros j1 factory1 reason1 Hj1 Hr1 Honly.
    assert (j = j1) by (eapply Honly; eauto). subst j1. congruence.
Qed.

(** The same on a sample: five operations in batches of three, two of the
    first batch failing. *)
Lemma runPromisesInBatches_fails_fast_witness :
  exists run c j factory reason,
    runPromisesInBatches Samples.failures 3 = Some run
    /\ (c * 3 <= j < c * 3 + 3)%nat
    /\ nth_error Samples.failures j = Some factory
    /\ settled (factory tt) = Rejected reason
    /\ settled (returned run) = Rejected reason
    /\ (forall j' factory',
          (j' < c * 3)%nat ->
          nth_error Samples.failures j' = Some factory' ->
          exists v, settled (factory' tt) = Fulfilled v)
    /\ (forall j' factory' reason',
          (c * 3 <= j' < c * 3 + 3)%nat ->
          nth_error Samples.failures j' = Some factory' ->
          settled (factory' tt) = Rejected reason' ->
          (latency (factory tt) <= latency (factory' tt))%nat)
    /\ started run = seq 0 (Nat.min (length Samples.failures) (c * 3 + 3))
    /\ (forall j', (c * 3 + 3 <= j')%nat -> ~ In j' (started run))
    /\ (forall j1 factory1 reason1,
          nth_error Samples.failures j1 = Some factory1 ->
          settled (factory1 tt) = Rejected reason1 ->
          (forall j2 factory2 reason2,
              nth_error Samples.failures j2 = Some factory2 ->
              settled (factory2 tt) = Rejected reason2 -> j2 = j1) ->
          settled (returned run) = Rejected reason1).
Proof.
  apply (runPromisesInBatches_fails_fast Z Samples.failures 3).
  - lia.
  - exists (Samples.fails_with "boom" 9), (ErrorObject "boom").
    split; [right; left; reflexivity | reflexivity].
Defined.

(** The run of the sample with failures: the second chunk is not started,
    and the failure reported is the earliest of the first chunk. *)
Example failures_run :
  runPromisesInBatches Samples.failures 3
  = Some (mkBatchRun (mkPromise (Rejected (ErrorObject "bang")) 2) [0; 1; 2]%nat).
Proof. reflexivity. Qed.

Example three_successes_run :
  runPromisesInBatches Samples.three_successes 2
  = Some (mkBatchRun (mkPromise (Fulfilled [10; 20; 30]%Z) 8) [0; 1; 2]%nat).
Proof. reflexivity. Qed.

(** ** The orchestration *)

Lemma retry_loop_attempts {T : Type} Math_random (apiCall : Operation T)
    maxRetries initialDelay fuel :
  forall attempt slept r,
    retry_loop Math_random apiCall maxRetries initialDelay fuel attempt slept = Some r ->
    (attempt < attempts r)%nat.
Proof.
  induction fuel as [|fuel IH]; intros attempt slept r; cbn [retry_loop]; [discriminate|].
  destruct (apiCall attempt) as [v|error].
  - intros H. inversion H; subst. cbn. lia.
  - destruct ((maxRetries <=? Z.of_nat (S attempt))%Z || negb (isRateLimitError error)).
    + intros H. inversion H; subst. cbn. lia.
    + intros H. apply IH in H. lia.
Qed.

(** The wrapper invokes the operation at least once. *)
Lemma callApiWithRetry_attempts {T : Type} Math_random (apiCall : Operation T)
    maxRetries initialDelay :
  (1 <= attempts (callApiWithRetry Math_random apiCall maxRetries initialDelay))%nat.
Proof.
  pose proof (callApiWithRetry_opt_some Math_random apiCall maxRetries initialDelay) as H.
  apply retry_loop_attempts in H. lia.
Qed.

Lemma factories_fulfil_or_reject {T : Type} (fs : list (Factory T)) :
  (exists vs, Forall2 fulfils fs vs)
  \/ (exists factory reason, In factory fs /\ settled (factory tt) = Rejected reason).
Proof.
  induction fs as [|f fs IH].
  - left. exists []. constructor.
  - destruct (settled (f tt)) as [v|reason] eqn:Hf.
    + destruct IH as [[vs Hvs]|(g & reason & Hg & Hr)].
      * left. exists (v :: vs). constructor; assumption.
      * right. exists g, reason. split; [right|]; assumption.
    + right. exists f, reason. split; [left; reflexivity | assumption].
Qed.

(** For a batch size of at least one the runner always returns; it starts
    factories of the array only, and it fulfils only when every factory
    does, all of them having been started. *)
Lemma runPromisesInBatches_returns {T : Type} (fs : list (Factory T)) batchSize :
  (1 <= batchSize)%nat ->
  exists run,
    runPromisesInBatches fs batchSize = Some run
    /\ (forall j, In j (started run) -> (j < length fs)%nat)
    /\ (forall results, settled (returned run) = Fulfilled results ->
          Forall2 fulfils fs results /\ started run = seq 0 (length fs)).
Proof.
  intros Hsize. destruct (factories_fulfil_or_reject fs) as [[vs Hvs]|Hrej].
  - destruct (batch_loop_all_fulfilled fs batchSize Hsize vs Hvs (length fs) 0 [] 0 [])
      as [t Hrun]; [lia|].
    cbn [app skipn] in Hrun. rewrite Nat.sub_0_r in Hrun.
    eexists. split; [exact Hrun|]. cbn [started returned settled]. split.
    + intros j Hj. apply in_seq in Hj. lia.
    + intros results Hres. inversion Hres; subst. auto.
  - destruct Hrej as (f0 & r0 & Hin0 & Hr0).
    destruct (In_nth_error _ _ Hin0) as [j0 Hj0].
    destruct (batch_loop_first_failure fs batchSize Hsize (length fs) 0 [] 0 [])
      as (c & j & f & reason & t & _ & _ & _ & _ & _ & Hrun).
    { lia. }
    { exists j0, f0, r0. split; [lia | split; assumption]. }
    cbn [app] in Hrun. eexists. split; [exact Hrun|].
    cbn [started returned settled]. split.
    + intros j' Hj'. apply in_seq in Hj'. lia.
    + intros results Hres. discriminate Hres.
Qed.

Section OrchestrationFacts.
Variable world : World.
Variable detailedDescription : string.

Local Abbreviation d := detailedDescription.

(** The results of the six factories when each of them fulfils. *)
Lemma image_factories_fulfil (res : string -> GenerateImagesResponse)
    (sres : GenerateImagesResponse) :
  (forall view, In view VIEWS -> outcome (view_run world d view) = Fulfilled (res view)) ->
  outcome (sketch_run world d) = Fulfilled sres ->
  Forall2 fulfils (imagePromiseFactories world d)
    (map (fun view => ViewImageResult view (first_image_bytes (res view))) VIEWS
     ++ [SketchImageResult (first_image_bytes sres)]).
Proof.
  intros Hviews Hsketch. unfold imagePromiseFactories.
  apply Forall2_app.
  - induction VIEWS as [|view views IH]; cbn [map]; constructor.
    + unfold fulfils, view_factory. cbn [settled].
      rewrite (Hviews view (or_introl eq_refl)). reflexivity.
    + apply IH. intros v Hv. apply Hviews. right. exact Hv.
  - constructor; [|constructor].
    unfold fulfils, sketch_factory. cbn [settled]. rewrite Hsketch. reflexivity.
Qed.

(** The cycle always returns a promise. *)
Lemma generateAssets_returns :
  exists batches,
    runPromisesInBatches (imagePromiseFactories world d) 3 = Some batches
    /\ (forall j, In j (started batches) -> (j < 6)%nat)
    /\ (forall results, settled (returned batches) = Fulfilled results ->
          Forall2 fulfils (imagePromiseFactories world d) results
          /\ started batches = seq 0 6)
    /\ generateAssetsFromDescription world d
       = Some (mkCycle
           (mkPromise
              (then_ (fun '(allImageResults, cuttingListResponse) =>
                        assemble world d allImageResults cuttingListResponse)
                     (settled (Promise_all2 (returned batches)
                        (mkPromise (outcome (cuttingList_run world d))
                                   (took world CuttingListSite)))))
              (latency (Promise_all2 (returned batches)
                        (mkPromise (outcome (cuttingList_run world d))
                                   (took world CuttingListSite)))))
           (sent (ContentRequest (cuttingList_parameters d)) (cuttingList_run world d)
            ++ flat_map (fun i => nth i (factory_requests world d) [])
                        (started batches))).
Proof.
  destruct (runPromisesInBatches_returns (imagePromiseFactories world d) 3)
    as (batches & Hrun & Hstarted & Hfulfilled); [lia|].
  exists batches. split; [exact Hrun|].
  split; [exact Hstarted|]. split; [exact Hfulfilled|].
  unfold generateAssetsFromDescription. rewrite Hrun. reflexivity.
Qed.

(** When the six image calls and the structured call all return, the
    cycle fulfils with the result assembled from what they returned. *)
Lemma generateAssets_success (res : string -> GenerateImagesResponse)
    (sres : GenerateImagesResponse) (cresp : GenerateContentResponse) :
  (forall view, In view VIEWS -> outcome (view_run world d view) = Fulfilled (res view)) ->
  outcome (sketch_run world d) = Fulfilled sres ->
  outcome (cuttingList_run world d) = Fulfilled cresp ->
  exists cycle,
    generateAssetsFromDescription world d = Some cycle
    /\ settled (answer cycle)
       = Fulfilled
           (assemble world d
              (map (fun view => ViewImageResult view (first_image_bytes (res view))) VIEWS
               ++ [SketchImageResult (first_image_bytes sres)])
              cresp).
Proof.
  intros Hviews Hsketch Hlist.
  pose proof (image_factories_fulfil res sres Hviews Hsketch) as Hall.
  destruct generateAssets_returns as (batches & Hrun & _ & _ & Hgen).
  destruct (batch_loop_all_fulfilled (imagePromiseFactories world d) 3
              ltac:(lia) _ Hall (length (imagePromiseFactories world d)) 0 [] 0 [])
    as [t Hloop]; [lia|].
  unfold runPromisesInBatches in Hrun. rewrite Hloop in Hrun.
  inversion Hrun; subst batches. clear Hrun.
  eexists. split; [exact Hgen|].
  cbn [answer settled returned]. unfold Promise_all2. cbn [settled app skipn].
  rewrite Hlist. reflexivity.
Qed.

(** The views kept by the guard, read off the list of viewpoints. *)
Lemma filter_map_view_of (payload : string -> option string) sketch (views : list string) :
  filter_map view_of
    (map (fun view => ViewImageResult view (payload view)) views
     ++ [SketchImageResult sketch])
  = filter_map (fun view => option_map (mkImageView view) (displayed (payload view))) views.
Proof.
  induction views as [|view views IH]; [reflexivity|].
  cbn [map app filter_map view_of]. rewrite IH.
  destruct (payload view) as [bytes|]; cbn [displayed]; [|reflexivity].
  destruct (truthy bytes); reflexivity.
Qed.

Lemma find_sketch (payload : string -> option string) sketch (views : list string) :
  find is_sketch
    (map (fun view => ViewImageResult view (payload view)) views
     ++ [SketchImageResult sketch])
  = Some (SketchImageResult sketch).
Proof.
  induction views as [|view views IH]; [reflexivity | exact IH].
Qed.

Lemma labels_of_kept (payload : string -> option string) (views : list string) :
  map label
    (filter_map (fun view => option_map (mkImageView view) (displayed (payload view))) views)
  = filter (fun view => has_payload (payload view)) views.
Proof.
  induction views as [|view views IH]; [reflexivity|].
  cbn [filter_map filter]. rewrite <- IH.
  destruct (payload view) as [bytes|]; cbn [has_payload displayed];
    [destruct (truthy bytes)|]; reflexivity.
Qed.

Lemma urls_of_kept (payload : string -> option string) (views : list string) v :
  In v (filter_map (fun view => option_map (mkImageView view) (displayed (payload view)))
                   views) ->
  In (label v) views /\ displayed (payload (label v)) = Some (url v).
Proof.
  induction views as [|view views IH]; [intros []|].
  cbn [filter_map].
  destruct (displayed (payload view)) as [u|] eqn:Hd; cbn [option_map].
  - intros [<-|Hin]; cbn [label url].
    + split; [left; reflexivity | exact Hd].
    + destruct (IH Hin). split; [right|]; assumption.
  - intros Hin. destruct (IH Hin). split; [right|]; assumption.
Qed.

End OrchestrationFacts.

(** ** The assets of a cycle *)

(** C8, as the code has it.  When the five view calls, the sketch call and
    the structured call all return: the cutting list is what the response
    of the structured call parses to, whatever the images; the image views
    are the viewpoints whose payload is neither null nor empty, in the order
    of [VIEWS], each with the data URL of its own payload, and [null] stands
    for no view at all; the sketch goes to [sketchUrl] only.  In particular
    six null payloads give [imageViews = null] and [sketchUrl = null]. *)
Theorem generateAssets_views_with_payload :
  forall (world : World) (detailedDescription : string)
         (res : string -> GenerateImagesResponse)
         (sres : GenerateImagesResponse) (cresp : GenerateContentResponse),
    (forall view, In view VIEWS ->
       outcome (view_run world detailedDescription view) = Fulfilled (res view)) ->
    outcome (sketch_run world detailedDescription) = Fulfilled sres ->
    outcome (cuttingList_run world detailedDescription) = Fulfilled cresp ->
    exists cycle result,
      generateAssetsFromDescription world detailedDescription = Some cycle
      /\ settled (answer cycle) = Fulfilled result
      /\ cuttingList result = parse_cuttingList world cresp
      /\ map label (views_of result)
         = filter (fun view => has_payload (first_image_bytes (res view))) VIEWS
      /\ (forall v, In v (views_of result) ->
            displayed (first_image_bytes (res (label v))) = Some (url v))
      /\ (imageViews result = None <-> views_of result = [])
      /\ sketchUrl result = displayed (first_image_bytes sres)
      /\ ((forall view, In view VIEWS -> first_image_bytes (res view) = None) ->
          first_image_bytes sres = None ->
          imageViews result = None /\ sketchUrl result = None).
Proof.
  intros world d res sres cresp Hviews Hsketch Hlist.
  destruct (generateAssets_success world d res sres cresp Hviews Hsketch Hlist)
    as (cycle & Hgen & Hanswer).
  set (payload := fun view => first_image_bytes (res view)).
  set (kept := filter_map
                 (fun view => option_map (mkImageView view) (displayed (payload view)))
                 VIEWS).
  set (result := assemble world d
                   (map (fun view => ViewImageResult view (payload view)) VIEWS
                    ++ [SketchImageResult (first_image_bytes sres)]) cresp).
  exists cycle, result. split; [exact Hgen|]. split; [exact Hanswer|].
  assert (Hviews_of : views_of result = kept).
  { unfold result, views_of, assemble. cbn [imageViews].
    rewrite (filter_map_view_of payload). fold kept.
    destruct kept; reflexivity. }
  assert (Hnull : imageViews result = None <-> kept = []).
  { unfold result, assemble. cbn [imageViews].
    rewrite (filter_map_view_of payload). fold kept.
    destruct kept; cbn; split; congruence. }
  assert (Hsk : sketchUrl result = displayed (first_image_bytes sres)).
  { unfold result, assemble. cbn [sketchUrl]. rewrite (find_sketch payload).
    unfold sketch_url_of, displayed. destruct (first_image_bytes sres); reflexivity. }
  split; [reflexivity|].
  split; [rewrite Hviews_of; apply labels_of_kept|].
  split; [intros v Hv; rewrite Hviews_of in Hv; apply (urls_of_kept payload VIEWS v Hv)|].
  split; [rewrite Hviews_of; exact Hnull|].
  split; [exact Hsk|].
  intros Hnone Hsnone. split.
  - apply Hnull. unfold kept.
    assert (Hk : forall views, (forall view, In view views -> payload view = None) ->
                 filter_map
                   (fun view => option_map (mkImageView view) (displayed (payload view)))
                   views = []).
    { induction views as [|view views IH]; intros Hall; [reflexivity|].
      cbn [filter_map]. rewrite (Hall view (or_introl eq_refl)). cbn [displayed option_map].
      apply IH. intros v Hv. apply Hall. right. exact Hv. }
    apply Hk. exact Hnone.
  - rewrite Hsk, Hsnone. reflexivity.
Qed.

(** The same on a sample: a service that returns no image at all. *)
Lemma generateAssets_views_with_payload_witness :
  exists cycle result,
    generateAssetsFromDescription Samples.no_image "A round hut." = Some cycle
    /\ settled (answer cycle) = Fulfilled result
    /\ imageViews result = None
    /\ sketchUrl result = None
    /\ cuttingList result = JNull.
Proof.
  destruct (generateAssets_views_with_payload Samples.no_image "A round hut."
              (fun _ => Samples.image_response None) (Samples.image_response None)
              (mkContentResponse "null"))
    as (cycle & result & Hgen & Hanswer & Hlist & _ & _ & _ & _ & Hnull).
  - intros view Hin. repeat (destruct Hin as [<-|Hin]; [reflexivity|]). destruct Hin.
  - reflexivity.
  - reflexivity.
  - exists cycle, result. split; [exact Hgen|]. split; [exact Hanswer|].
    destruct Hnull as [Hviews Hsketch]; [reflexivity | reflexivity |].
    split; [exact Hviews|]. split; [exact Hsketch|].
    rewrite Hlist. reflexivity.
Defined.

(** C8 as the specification words it fails: a view whose payload is the
    empty string is not null, yet it is left out of the views. *)
Lemma generateAssets_drops_empty_payload :
  exists cycle result,
    generateAssetsFromDescription Samples.empty_front "A round hut." = Some cycle
    /\ settled (answer cycle) = Fulfilled result
    /\ Samples.payload_in Samples.empty_front "A round hut." "Front view" = Some ""
    /\ map label (views_of result)
       = ["Back view"; "Left side view"; "Right side view"; "Top-down view"]
    /\ map label (views_of result)
       <> views_as_specified (Samples.payload_in Samples.empty_front "A round hut.").
Proof.
  eexists _, _. split; [vm_compute; reflexivity|].
  split; [reflexivity|]. split; [reflexivity|]. split; [reflexivity|].
  vm_compute. discriminate.
Qed.

(** C1, as the code has it.  When the images and the structured call
    return: a response text that is empty once trimmed, or that
    [JSON.parse] refuses, gives a result whose cutting list is null, the
    cycle fulfilling all the same; a text that parses gives the parsed value
    as the cutting list, whatever its shape. *)
Theorem generateAssets_cuttingList_of_text :
  forall (world : World) (detailedDescription : string)
         (res : string -> GenerateImagesResponse)
         (sres : GenerateImagesResponse) (cresp : GenerateContentResponse),
    (forall view, In view VIEWS ->
       outcome (view_run world detailedDescription view) = Fulfilled (res view)) ->
    outcome (sketch_run world detailedDescription) = Fulfilled sres ->
    outcome (cuttingList_run world detailedDescription) = Fulfilled cresp ->
    exists cycle result,
      generateAssetsFromDescription world detailedDescription = Some cycle
      /\ settled (answer cycle) = Fulfilled result
      /\ (trim (text cresp) = "" \/ JSON_parse world (trim (text cresp)) = None ->
          cuttingList result = JNull)
      /\ (forall parsed,
            trim (text cresp) <> "" ->
            JSON_parse world (trim (text cresp)) = Some parsed ->
            cuttingList result = parsed).
Proof.
  intros world d res sres cresp Hviews Hsketch Hlist.
  destruct (generateAssets_success world d res sres cresp Hviews Hsketch Hlist)
    as (cycle & Hgen & Hanswer).
  eexists cycle, _. split; [exact Hgen|]. split; [exact Hanswer|].
  unfold assemble. cbn [cuttingList]. unfold parse_cuttingList. split.
  - intros [Hempty|Hparse].
    + rewrite Hempty. reflexivity.
    + rewrite Hparse. destruct (truthy (trim (text cresp))); reflexivity.
  - intros parsed Hne Hparse. rewrite Hparse.
    destruct (trim (text cresp)); [congruence | reflexivity].
Qed.

(** The same on a sample: a structured answer that is not JSON. *)
Lemma generateAssets_cuttingList_of_text_witness :
  exists cycle result,
    generateAssetsFromDescription Samples.not_json "A round hut." = Some cycle
    /\ settled (answer cycle) = Fulfilled result
    /\ cuttingList result = JNull.
Proof.
  destruct (generateAssets_cuttingList_of_text Samples.not_json "A round hut."
              (fun _ => Samples.image_response (Some "QUJD"))
              (Samples.image_response (Some "QUJD"))
              (mkContentResponse "Sorry, no list today."))
    as (cycle & result & Hgen & Hanswer & Hnull & _).
  - intros view Hin. repeat (destruct Hin as [<-|Hin]; [reflexivity|]). destruct Hin.
  - reflexivity.
  - reflexivity.
  - exists cycle, result. split; [exact Hgen|]. split; [exact Hanswer|].
    apply Hnull. right. reflexivity.
Defined.

(** C1 as the specification words it fails: the text [{}] parses to an
    object that has none of the fields of the CuttingList shape, and the
    cutting list of the result is that object, not null. *)
Lemma generateAssets_keeps_malformed_cuttingList :
  exists cycle result,
    generateAssetsFromDescription Samples.braces "A round hut." = Some cycle
    /\ settled (answer cycle) = Fulfilled result
    /\ JSON.parse "{}" = Some (JObject [])
    /\ CuttingList_shape (JObject []) = false
    /\ cuttingList result = JObject []
    /\ cuttingList result <> JNull.
Proof.
  eexists _, _. split; [vm_compute; reflexivity|].
  split; [reflexivity|]. split; [reflexivity|]. split; [reflexivity|].
  split; [reflexivity | discriminate].
Qed.

(** ** One description for each cycle *)

Lemma string_app_assoc (a b c : string) : ((a ++ b) ++ c = a ++ (b ++ c))%string.
Proof.
  induction a as [|x a IH]; cbn; [reflexivity | now rewrite IH].
Qed.

Lemma In_sent {T : Type} (request r : Request) (run : Run T) :
  In r (sent request run) -> r = request.
Proof.
  apply repeat_spec.
Qed.

Lemma sent_by_default {T : Type} Math_random (apiCall : Operation T) (request : Request) :
  In request (sent request (callApiWithRetry_default Math_random apiCall)).
Proof.
  unfold sent, callApiWithRetry_default.
  pose proof (callApiWithRetry_attempts Math_random apiCall 3 1000) as H.
  destruct (attempts _); [lia | left; reflexivity].
Qed.

Section CycleRequests.
Variable world : World.
Variable detailedDescription : string.

Local Abbreviation d := detailedDescription.

(** What a factory sends is its own request. *)
Lemma In_factory_requests i r :
  In r (nth i (factory_requests world d) []) ->
  In r (map (fun view => ImagesRequest (view_parameters d view)) VIEWS
        ++ [ImagesRequest (sketch_parameters d)]).
Proof.
  unfold factory_requests. revert i.
  induction VIEWS as [|view views IH]; intros i; cbn [map app nth].
  - destruct i as [|[|i]]; cbn [nth]; try (intros []).
    intros H. apply In_sent in H. left. symmetry. exact H.
  - destruct i as [|i].
    + intros H. apply In_sent in H. left. symmetry. exact H.
    + intros H. right. apply (IH i H).
Qed.

(** Each factory that has been invoked has sent its request. *)
Lemma factory_request_sent i request :
  nth_error (map (fun view => ImagesRequest (view_parameters d view)) VIEWS
             ++ [ImagesRequest (sketch_parameters d)]) i = Some request ->
  In request (nth i (factory_requests world d) []).
Proof.
  unfold factory_requests. revert i.
  induction VIEWS as [|view views IH]; intros i; cbn [map app].
  - destruct i as [|[|i]]; cbn; try discriminate.
    intros H. inversion H; subst. apply sent_by_default.
  - destruct i as [|i]; cbn [nth_error nth].
    + intros H. inversion H; subst. apply sent_by_default.
    + apply IH.
Qed.

Lemma cycle_requests_quote r :
  In r (cycle_requests d) -> quotes (request_prompt r) d.
Proof.
  unfold cycle_requests. intros [<-|Hin].
  - exists "Based on the following detailed description, create a simple cutting list for a miniature house that a child could build with adult help. Description: ", "".
    reflexivity.
  - apply in_app_or in Hin. destruct Hin as [Hin|[<-|[]]].
    + apply in_map_iff in Hin. destruct Hin as (view & <- & _).
      exists "A photorealistic 3D architectural render of a miniature dollhouse for kids. The design is based on this detailed description: ",
        (". Show the " ++ view ++ " of the house. The style is cute, playful, and looks like a real, buildable model. White background.")%string.
      reflexivity.
    + exists "A simple black and white blueprint-style line drawing of the miniature house based on this detailed description: ",
        ". The sketch must include clear, simple measurement labels for key parts like walls, roof, door, and windows. The style should be a clean, technical drawing on a white background.".
      reflexivity.
Qed.

End CycleRequests.


(** ** The two entry points *)

Lemma string_app_nil_r (a : string) : (a ++ "")%string = a.
Proof.
  induction a as [|x a IH]; cbn; [reflexivity | now rewrite IH].
Qed.

Section EntryPoints.
Variable world : World.

(** A description that is blank once trimmed: the entry point rejects with
    its own error, having sent the description request only. *)
Lemma describe_blank parameters failure response :
  outcome (description_run world parameters) = Fulfilled response ->
  trim (text response) = "" ->
  describe_then_generate world parameters failure
  = Some (mkCycle
            (mkPromise (Rejected (ErrorObject failure)) (took world DescriptionSite))
            (sent (ContentRequest parameters) (description_run world parameters))).
Proof.
  intros Hrun Hblank. unfold describe_then_generate.
  rewrite Hrun, Hblank. reflexivity.
Qed.

(** The entry points always return a promise, and always send the
    description request. *)
Lemma describe_returns parameters failure :
  exists cycle,
    describe_then_generate world parameters failure = Some cycle
    /\ In (ContentRequest parameters) (requests cycle).
Proof.
  unfold describe_then_generate.
  pose proof (sent_by_default (Math_random world DescriptionSite)
                (generateContent (ai_models world) parameters)
                (ContentRequest parameters)) as Hsent.
  fold (description_run world parameters) in Hsent.
  destruct (outcome (description_run world parameters)) as [response|reason].
  - destruct (negb (truthy (trim (text response)))).
    + eexists. split; [reflexivity | exact Hsent].
    + destruct (generateAssets_returns world (trim (text response)))
        as (batches & _ & _ & _ & Hgen).
      rewrite Hgen. eexists. split; [reflexivity|].
      cbn [requests]. apply in_or_app. left. exact Hsent.
  - eexists. split; [reflexivity | exact Hsent].
Qed.

End EntryPoints.

Lemma description_request_is_no_asset_request parameters d :
  responseMimeType (content_config parameters) = None ->
  ~ In (ContentRequest parameters) (cycle_requests d).
Proof.
  intros Hmime [Heq|Hin].
  - inversion Heq; subst parameters. discriminate Hmime.
  - apply in_app_or in Hin. destruct Hin as [Hin|[Heq|[]]]; [|discriminate Heq].
    apply in_map_iff in Hin. destruct Hin as (view & Heq & _). discriminate Heq.
Qed.

(** C7.  When the text call of [generateHouseDesign], or of
    [editHouseDesign], returns a text that is empty once trimmed, the entry
    point rejects with the error that it raises itself, and the only
    requests sent are those of the description: no request of asset
    generation, for any description, has been sent. *)
Theorem empty_description_is_a_failure :
  forall (world : World) (prompt originalDescription : string)
         (edits : EditPreferences) (response : GenerateContentResponse),
    trim (text response) = "" ->
    (outcome (description_run world (description_parameters prompt)) = Fulfilled response ->
     exists cycle,
       generateHouseDesign world prompt = Some cycle
       /\ settled (answer cycle)
          = Rejected (ErrorObject "Could not generate a detailed description for the house.")
       /\ forall r, In r (requests cycle) ->
            r = ContentRequest (description_parameters prompt)
            /\ forall d, ~ In r (cycle_requests d))
    /\
    (outcome (description_run world (edit_parameters originalDescription edits))
       = Fulfilled response ->
     exists cycle,
       editHouseDesign world originalDescription edits = Some cycle
       /\ settled (answer cycle)
          = Rejected (ErrorObject "Could not generate an updated description for the house.")
       /\ forall r, In r (requests cycle) ->
            r = ContentRequest (edit_parameters originalDescription edits)
            /\ forall d, ~ In r (cycle_requests d)).
Proof.
  intros world prompt originalDescription edits response Hblank. split; intros Hrun.
  - unfold generateHouseDesign.
    rewrite (describe_blank world _ _ response Hrun Hblank).
    eexists. split; [reflexivity|]. split; [reflexivity|].
    cbn [requests]. intros r Hr. apply In_sent in Hr. subst r.
    split; [reflexivity|].
    intros d. apply description_request_is_no_asset_request. reflexivity.
  - unfold editHouseDesign.
    rewrite (describe_blank world _ _ response Hrun Hblank).
    eexists. split; [reflexivity|]. split; [reflexivity|].
    cbn [requests]. intros r Hr. apply In_sent in Hr. subst r.
    split; [reflexivity|].
    intros d. apply description_request_is_no_asset_request. reflexivity.
Qed.

(** The same on a sample: a text call that answers with spaces. *)
Lemma empty_description_is_a_failure_witness :
  (exists cycle,
     generateHouseDesign Samples.blank "a mushroom cottage" = Some cycle
     /\ settled (answer cycle)
        = Rejected (ErrorObject "Could not generate a detailed description for the house."))
  /\
  (exists cycle,
     editHouseDesign Samples.blank "A round hut." Samples.red_roof = Some cycle
     /\ settled (answer cycle)
        = Rejected (ErrorObject "Could not generate an updated description for the house.")).
Proof.
  destruct (empty_description_is_a_failure Samples.blank "a mushroom cottage"
              "A round hut." Samples.red_roof (mkContentResponse "   ") eq_refl)
    as [Hgenerate Hedit].
  split.
  - destruct (Hgenerate eq_refl) as (cycle & Hrun & Hanswer & _).
    exists cycle. split; assumption.
  - destruct (Hedit eq_refl) as (cycle & Hrun & Hanswer & _).
    exists cycle. split; assumption.
Defined.

(** ** The edit instruction *)

Lemma editPrompt_structure originalDescription edits :
  editPrompt originalDescription edits
  = (edit_preamble originalDescription
     ++ String.concat "" (directives truthy edits))%string.
Proof.
  unfold editPrompt, edit_preamble, directives, directive_table, template.
  cbn [filter map fst snd String.concat].
  destruct (truthy (primaryColor edits)), (truthy (secondaryColor edits)),
    (truthy (roofMaterial edits)), (truthy (featureHighlights edits));
    cbn [map snd String.concat];
    rewrite ?string_app_assoc, ?string_app_nil_r; reflexivity.
Qed.

(** C2, as the code has it.  The edit instruction is the header, which
    quotes the prior description as it is, followed by one directive line
    for each field that is not the empty string (nothing is trimmed), in the
    order primary color, secondary color, roof material, feature
    highlights; four empty fields leave the header alone; and in every case
    the request for a new description is sent with that instruction. *)
Theorem editHouseDesign_instruction :
  forall (originalDescription : string) (edits : EditPreferences),
    editPrompt originalDescription edits
    = (edit_preamble originalDescription
       ++ String.concat "" (directives truthy edits))%string
    /\ quotes (edit_preamble originalDescription) originalDescription
    /\ editPrompt originalDescription (mkEditPreferences "" "" "" "")
       = edit_preamble originalDescription
    /\ forall world : World,
         exists cycle,
           editHouseDesign world originalDescription edits = Some cycle
           /\ In (ContentRequest (edit_parameters originalDescription edits))
                 (requests cycle)
           /\ contents (edit_parameters originalDescription edits)
              = editPrompt originalDescription edits.
Proof.
  intros originalDescription edits.
  split; [apply editPrompt_structure|]. split.
  - exists ("Based on this original house description, please generate a new, complete architectural description that incorporates the following changes. Do not just list the changes, provide the full, updated description."
            ++ nl ++ nl ++ "Original Description: ")%string,
      (nl ++ nl ++ "Requested Changes:" ++ nl)%string.
    unfold edit_preamble. rewrite !string_app_assoc. reflexivity.
  - split.
    + rewrite editPrompt_structure. unfold directives, directive_table.
      cbn [filter map fst snd truthy primaryColor secondaryColor roofMaterial
           featureHighlights String.concat].
      apply string_app_nil_r.
    + intros world. unfold editHouseDesign.
      destruct (describe_returns world (edit_parameters originalDescription edits)
                  "Could not generate an updated description for the house.")
        as (cycle & Hrun & Hsent).
      exists cycle. split; [exact Hrun|]. split; [exact Hsent | reflexivity].
Qed.

(** C2 as the specification words it fails: a field made of a space is
    empty once trimmed, and the code still writes its directive line. *)
Lemma editPrompt_keeps_blank_field :
  trim (primaryColor Samples.only_spaces) = ""
  /\ directives truthy Samples.only_spaces
     = [primaryColor_line Samples.only_spaces]
  /\ directives (fun field => truthy (trim field)) Samples.only_spaces = []
  /\ editPrompt "A round hut." Samples.only_spaces
     <> editPrompt_as_specified "A round hut." Samples.only_spaces.
Proof.
  split; [reflexivity|]. split; [reflexivity|]. split; [reflexivity|].
  intros Heq. apply (f_equal String.length) in Heq. vm_compute in Heq. discriminate Heq.
Qed.

(** ** The scenario of the specification, run *)

Example mushroom_cottage :
  exists cycle result,
    generateHouseDesign Samples.mushroom "a mushroom cottage" = Some cycle
    /\ settled (answer cycle) = Fulfilled result
    /\ map label (views_of result) = VIEWS
    /\ sketchUrl result = Some "data:image/jpeg;base64,QUJD"
    /\ cuttingList result
       = JObject
           [ ("houseName", JString "Mushroom Cottage");
             ("description", JString "A cozy fungal home.");
             ("materials",
               JArray [ JObject [ ("name", JString "Cardboard");
                                  ("quantity", JNumber (inject_Z 4));
                                  ("dimensions", JString "10cm x 10cm") ] ]) ]
    /\ CuttingList_shape (cuttingList result) = true
    /\ detailedDescription result
       = "A round red-capped mushroom cottage with a wooden door."
    /\ length (requests cycle) = 8%nat.
Proof.
  eexists _, _. split; [vm_compute; reflexivity|].
  repeat split; reflexivity.
Qed.

(* ================================================================== *)
(** * Further properties of the code *)
(* ================================================================== *)

(** ** The retry wrapper, whatever the operation *)

(** The invariant of the loop: when it leaves, the outcome is the one of the
    last invocation, every earlier invocation was refused for a rate limit
    below the cap, one delay was slept after each of them, and a rejection
    is final only at the cap or for another kind of failure. *)
Lemma retry_loop_shape {T : Type} Math_random (apiCall : Operation T)
    maxRetries initialDelay fuel :
  forall attempt slept r,
    retry_loop Math_random apiCall maxRetries initialDelay fuel attempt slept = Some r ->
    (attempt < attempts r)%nat
    /\ outcome r = apiCall (attempts r - 1)%nat
    /\ delays r = slept ++ map (delay_at Math_random initialDelay)
                               (seq (S attempt) (attempts r - 1 - attempt))
    /\ (forall k, (attempt <= k < attempts r - 1)%nat ->
          exists e, apiCall k = Rejected e /\ isRateLimitError e = true
                    /\ (Z.of_nat (S k) < maxRetries)%Z)
    /\ (forall e, outcome r = Rejected e ->
          (maxRetries <= Z.of_nat (attempts r))%Z \/ isRateLimitError e = false).
Proof.
  induction fuel as [|fuel IH]; intros attempt slept r; cbn [retry_loop]; [discriminate|].
  destruct (apiCall attempt) as [v|error] eqn:Hcall.
  - intros H. inversion H; subst. cbn [attempts outcome delays].
    replace (S attempt - 1)%nat with attempt by lia. rewrite Nat.sub_diag.
    cbn [seq map]. rewrite app_nil_r.
    repeat split; auto; try lia. intros e He. discriminate He.
  - destruct ((maxRetries <=? Z.of_nat (S attempt))%Z || negb (isRateLimitError error))
      eqn:Hexit.
    + intros H. inversion H; subst. cbn [attempts outcome delays].
      replace (S attempt - 1)%nat with attempt by lia. rewrite Nat.sub_diag.
      cbn [seq map]. rewrite app_nil_r.
      repeat split; auto; try lia.
      intros e He. inversion He; subst e.
      apply orb_true_iff in Hexit. destruct Hexit as [Hcap|Hother].
      * left. apply Z.leb_le in Hcap. lia.
      * right. apply negb_true_iff in Hother. exact Hother.
    + intros H. apply orb_false_iff in Hexit. destruct Hexit as [Hcap Hrate].
      apply Z.leb_gt in Hcap. apply negb_false_iff in Hrate.
      destruct (IH _ _ _ H) as (Hlt & Hout & Hdel & Hbefore & Hlast).
      split; [lia|]. split; [exact Hout|]. split.
      * rewrite Hdel, <- app_assoc. f_equal.
        replace (attempts r - 1 - attempt)%nat with (S (attempts r - 1 - S attempt)) by lia.
        reflexivity.
      * split; [|exact Hlast].
        intros k Hk. destruct (Nat.eq_dec k attempt) as [->|Hne].
        -- exists error. repeat split; auto.
        -- apply Hbefore. lia.
Qed.

Lemma callApiWithRetry_shape {T : Type} Math_random (apiCall : Operation T)
    maxRetries initialDelay :
  let run := callApiWithRetry Math_random apiCall maxRetries initialDelay in
  (1 <= attempts run)%nat
  /\ outcome run = apiCall (attempts run - 1)%nat
  /\ delays run = map (delay_at Math_random initialDelay) (seq 1 (attempts run - 1))
  /\ (forall k, (k < attempts run - 1)%nat ->
        exists e, apiCall k = Rejected e /\ isRateLimitError e = true
                  /\ (Z.of_nat (S k) < maxRetries)%Z)
  /\ (forall e, outcome run = Rejected e ->
        (maxRetries <= Z.of_nat (attempts run))%Z \/ isRateLimitError e = false).
Proof.
  intros run.
  pose proof (callApiWithRetry_opt_some Math_random apiCall maxRetries initialDelay) as H.
  apply retry_loop_shape in H. fold run in H.
  destruct H as (Hlt & Hout & Hdel & Hbefore & Hlast).
  rewrite Nat.sub_0_r in Hdel. cbn [app] in Hdel.
  repeat split; auto; try lia. intros k Hk. apply Hbefore. lia.
Qed.

Lemma callApiWithRetry_cap {T : Type} Math_random (apiCall : Operation T)
    maxRetries initialDelay :
  (Z.of_nat (attempts (callApiWithRetry Math_random apiCall maxRetries initialDelay))
   <= Z.max 1 maxRetries)%Z.
Proof.
  destruct (callApiWithRetry_shape Math_random apiCall maxRetries initialDelay)
    as (Hone & _ & _ & Hbefore & _).
  set (run := callApiWithRetry Math_random apiCall maxRetries initialDelay) in *.
  destruct (Nat.le_gt_cases (attempts run) 1) as [Hle|Hgt]; [lia|].
  destruct (Hbefore (attempts run - 2)%nat) as (e & _ & _ & Hcap); lia.
Qed.


(** X2.  The wrapper never invokes the operation more than
    [max(1, maxRetries)] times; with [maxRetries] at most one (zero and
    negative values included) it invokes it exactly once and never sleeps,
    even when the failure is a rate limit. *)
Theorem callApiWithRetry_attempt_cap :
  forall (T : Type) (Math_random : nat -> Q) (apiCall : Operation T)
         (maxRetries initialDelay : Z),
    let run := callApiWithRetry Math_random apiCall maxRetries initialDelay in
    (Z.of_nat (attempts run) <= Z.max 1 maxRetries)%Z
    /\ ((maxRetries <= 1)%Z ->
        attempts run = 1%nat /\ delays run = [] /\ outcome run = apiCall 0%nat).
Proof.
  intros T Math_random apiCall maxRetries initialDelay run.
  pose proof (callApiWithRetry_cap Math_random apiCall maxRetries initialDelay) as Hcap.
  destruct (callApiWithRetry_shape Math_random apiCall maxRetries initialDelay)
    as (Hone & Hout & Hdel & _ & _).
  fold run in Hcap, Hone, Hout, Hdel.
  split; [exact Hcap|]. intros Hsmall.
  assert (Hattempts : attempts run = 1%nat) by lia.
  rewrite Hattempts in Hout, Hdel. auto.
Qed.

(** X3.  An operation that keeps failing with rate-limit failures, under a
    cap of at least one: the wrapper invokes it exactly [maxRetries] times,
    sleeps [maxRetries - 1] times, and rejects with the failure of the last
    invocation as it is. *)
Theorem callApiWithRetry_gives_up_at_cap :
  forall (T : Type) (Math_random : nat -> Q) (apiCall : Operation T)
         (maxRetries initialDelay : Z),
    (1 <= maxRetries)%Z ->
    (forall k, exists e, apiCall k = Rejected e /\ isRateLimitError e = true) ->
    let run := callApiWithRetry Math_random apiCall maxRetries initialDelay in
    Z.of_nat (attempts run) = maxRetries
    /\ outcome run = apiCall (Z.to_nat maxRetries - 1)%nat
    /\ (exists e, outcome run = Rejected e)
    /\ length (delays run) = (Z.to_nat maxRetries - 1)%nat.
Proof.
  intros T Math_random apiCall maxRetries initialDelay Hpos Hfail run.
  pose proof (callApiWithRetry_cap Math_random apiCall maxRetries initialDelay) as Hcap.
  destruct (callApiWithRetry_shape Math_random apiCall maxRetries initialDelay)
    as (Hone & Hout & Hdel & _ & Hlast).
  fold run in Hcap, Hone, Hout, Hdel, Hlast.
  destruct (Hfail (attempts run - 1)%nat) as (e & He & Hrate).
  assert (Hattempts : Z.of_nat (attempts run) = maxRetries).
  { destruct (Hlast e) as [Hge|Hother]; [congruence | lia | congruence]. }
  split; [exact Hattempts|].
  replace (Z.to_nat maxRetries) with (attempts run) by lia.
  split; [exact Hout|]. split; [exists e; congruence|].
  rewrite Hdel, length_map, length_seq. reflexivity.
Qed.

(** The same on samples: a cap of zero, and a cap of four on an operation
    that is always throttled. *)
Lemma callApiWithRetry_attempt_cap_witness :
  attempts (callApiWithRetry Samples.half Cases.throttled 0 1000) = 1%nat
  /\ delays (callApiWithRetry Samples.half Cases.throttled 0 1000) = []
  /\ outcome (callApiWithRetry Samples.half Cases.throttled 0 1000) = Cases.throttled 0%nat.
Proof.
  apply (callApiWithRetry_attempt_cap Z Samples.half Cases.throttled 0 1000). lia.
Defined.

Lemma callApiWithRetry_gives_up_at_cap_witness :
  let run := callApiWithRetry Samples.half Cases.throttled 4 1000 in
  Z.of_nat (attempts run) = 4%Z
  /\ outcome run = Cases.throttled (Z.to_nat 4 - 1)%nat
  /\ (exists e, outcome run = Rejected e)
  /\ length (delays run) = (Z.to_nat 4 - 1)%nat.
Proof.
  apply (callApiWithRetry_gives_up_at_cap Z Samples.half Cases.throttled 4 1000).
  - lia.
  - intros k. eexists. split; reflexivity.
Defined.

(** X4.  With the default parameters (three attempts, one second) a call
    through the wrapper sleeps at most twice, at most two seconds the first
    time and three the second, hence at most five seconds in all, whatever
    the operation does. *)
Theorem callApiWithRetry_default_waits_at_most_five_seconds :
  forall (T : Type) (Math_random : nat -> Q) (apiCall : Operation T),
    unit_interval Math_random ->
    let run := callApiWithRetry_default Math_random apiCall in
    (attempts run <= 3)%nat
    /\ (length (delays run) <= 2)%nat
    /\ (forall k, (1 <= k <= length (delays run))%nat ->
          (inject_Z (1000 * Z.of_nat k) <= nth (k - 1) (delays run) 0
           /\ nth (k - 1) (delays run) 0 <= inject_Z (1000 * Z.of_nat k) + 1000)%Q)
    /\ (0 <= Cases.total_wait (delays run))%Q
    /\ (Cases.total_wait (delays run) <= 5000)%Q.
Proof.
  intros T Math_random apiCall Hrnd run. unfold callApiWithRetry_default in run.
  pose proof (callApiWithRetry_cap Math_random apiCall 3 1000) as Hcap.
  destruct (callApiWithRetry_shape Math_random apiCall 3 1000)
    as (Hone & _ & Hdel & _ & _).
  fold run in Hcap, Hone, Hdel.
  assert (Hthree : (attempts run <= 3)%nat) by lia.
  split; [exact Hthree|].
  assert (He1 : exact_backoff 1000 1) by (apply exact_backoff_integer; [lia | reflexivity]).
  assert (He2 : exact_backoff 1000 2) by (apply exact_backoff_integer; [lia | reflexivity]).
  pose proof (delay_at_bounds Math_random 1000 1 Hrnd ltac:(lia) He1) as [Hlo1 Hhi1].
  pose proof (delay_at_bounds Math_random 1000 2 Hrnd ltac:(lia) He2) as [Hlo2 Hhi2].
  change (backoff 1000 1) with (inject_Z 1000) in Hlo1, Hhi1.
  change (backoff 1000 2) with (inject_Z 2000) in Hlo2, Hhi2.
  unfold inject_Z in Hlo1, Hhi1, Hlo2, Hhi2.
  rewrite Hdel.
  destruct (attempts run) as [|[|[|[|n]]]]; try lia;
    cbn [Nat.sub seq map length Cases.total_wait fold_right];
    (split; [lia|]); (split; [|split; lra]).
  - intros k Hk. lia.
  - intros k Hk. assert (k = 1%nat) as -> by lia.
    cbn [Nat.sub nth]. change (inject_Z (1000 * Z.of_nat 1)) with (1000 # 1)%Q. lra.
  - intros k Hk. assert (k = 1 \/ k = 2)%nat as [-> | ->] by lia; cbn [Nat.sub nth].
    + change (inject_Z (1000 * Z.of_nat 1)) with (1000 # 1)%Q. lra.
    + change (inject_Z (1000 * Z.of_nat 2)) with (2000 # 1)%Q. lra.
Qed.

Lemma callApiWithRetry_default_waits_at_most_five_seconds_witness :
  let run := callApiWithRetry_default Samples.half Cases.throttled in
  (attempts run <= 3)%nat
  /\ (length (delays run) <= 2)%nat
  /\ (forall k, (1 <= k <= length (delays run))%nat ->
        (inject_Z (1000 * Z.of_nat k) <= nth (k - 1) (delays run) 0
         /\ nth (k - 1) (delays run) 0 <= inject_Z (1000 * Z.of_nat k) + 1000)%Q)
  /\ (0 <= Cases.total_wait (delays run))%Q
  /\ (Cases.total_wait (delays run) <= 5000)%Q.
Proof.
  apply (callApiWithRetry_default_waits_at_most_five_seconds Z Samples.half Cases.throttled).
  intros k. unfold Samples.half. split; [discriminate | reflexivity].
Defined.

(** The five seconds are reached: with draws of [1 - 2^-53], the largest
    double below one, the two delays are rounded to 2000 and 3000 ms. *)
Example callApiWithRetry_default_waits_five_seconds :
  let run := callApiWithRetry_default Samples.nearly_one Cases.throttled in
  unit_interval Samples.nearly_one
  /\ map Qred (delays run) = [2000%Q; 3000%Q]
  /\ (Cases.total_wait (delays run) == 5000)%Q.
Proof.
  split; [|split].
  - intros k. split; vm_compute; [discriminate | reflexivity].
  - vm_compute. reflexivity.
  - vm_compute. reflexivity.
Qed.

(** ** The batched runner: time and edge cases *)

Lemma StronglySorted_before_last {A : Type} (R : A -> A -> Prop) (pre : list A) x :
  StronglySorted R (pre ++ [x]) -> Forall (fun y => R y x) pre.
Proof.
  induction pre as [|y pre IH]; intros Hs; [constructor|].
  cbn in Hs. apply StronglySorted_inv in Hs. destruct Hs as [Hs Hall].
  constructor; [|apply IH, Hs].
  rewrite Forall_forall in Hall. apply Hall, in_elt.
Qed.

Section PromiseAllTime.
Context {T : Type}.

(** The event that makes [Promise.all] fulfil is the one that brings the
    countdown to zero. *)
Lemma react_fulfilled_at (events : list (nat * Promise T)) :
  forall values remaining vs t,
    react events values remaining = Some (mkPromise (Fulfilled vs) t) ->
    exists pre i q post,
      events = pre ++ (i, q) :: post
      /\ t = latency q
      /\ length pre = (remaining - 1)%nat.
Proof.
  induction events as [|[i p] rest IH]; intros values remaining vs t; cbn [react];
    [discriminate|].
  destruct (settled p) as [v|reason]; [|discriminate].
  destruct (remaining - 1 =? 0)%nat eqn:Hz.
  - intros H. inversion H; subst. apply Nat.eqb_eq in Hz.
    exists [], i, p, rest. repeat split; auto.
  - intros H. apply Nat.eqb_neq in Hz.
    destruct (IH _ _ _ _ H) as (pre & j & q & post & -> & Ht & Hlen).
    exists ((i, p) :: pre), j, q, post. repeat split; auto. cbn [length]. lia.
Qed.

(** When every promise fulfils, [Promise.all] fulfils when the slowest of
    them does. *)
Lemma Promise_all_fulfilled_latency (promises : list (Promise T)) (vs : list T) :
  Forall2 (fun p v => settled p = Fulfilled v) promises vs ->
  Promise_all promises
  = Some (mkPromise (Fulfilled vs) (list_max (map latency promises))).
Proof.
  intros Hall. destruct (Promise_all_fulfilled promises vs Hall) as [t Ht].
  rewrite Ht. do 2 f_equal.
  destruct promises as [|p0 promises'].
  { cbn in Ht. inversion Ht. reflexivity. }
  unfold Promise_all in Ht. remember (p0 :: promises') as promises eqn:Hps.
  destruct (react_fulfilled_at _ _ _ _ _ Ht) as (pre & i & q & post & Hsplit & -> & Hlen).
  assert (Hsize : length (settlements promises) = length promises).
  { rewrite (Permutation_length (settlements_perm promises)).
    rewrite length_combine, length_seq. lia. }
  assert (Hpost : post = []).
  { rewrite Hsplit, length_app in Hsize. cbn [length] in Hsize.
    destruct post; [reflexivity | cbn [length] in Hsize; lia]. }
  subst post.
  pose proof (settlements_sorted promises) as Hsorted. rewrite Hsplit in Hsorted.
  apply StronglySorted_before_last in Hsorted. rewrite Forall_forall in Hsorted.
  assert (Hq : nth_error promises i = Some q)
    by (apply In_settlements; rewrite Hsplit; apply in_elt).
  apply Nat.le_antisymm.
  - assert (Hle : (list_max (map latency promises) <= list_max (map latency promises))%nat)
      by lia.
    apply list_max_le in Hle. rewrite Forall_forall in Hle.
    apply Hle, in_map, (nth_error_In _ _ Hq).
  - apply list_max_le, Forall_forall. intros l Hl.
    apply in_map_iff in Hl. destruct Hl as (p & <- & Hp).
    destruct (In_nth_error _ _ Hp) as [j Hj].
    apply In_settlements in Hj. rewrite Hsplit in Hj.
    apply in_app_or in Hj. destruct Hj as [Hj|[Hj|[]]].
    + apply (Hsorted _ Hj).
    + inversion Hj; subst. lia.
Qed.

End PromiseAllTime.

Section BatchTime.
Context {T : Type}.
Variable promiseFactories : list (Factory T).
Variable batchSize : nat.
Hypothesis batchSize_positive : (1 <= batchSize)%nat.

Lemma batch_loop_time (vs : list T) :
  Forall2 fulfils promiseFactories vs ->
  forall fuel i results now invoked,
    (length promiseFactories - i <= fuel)%nat ->
    exists run,
      batch_loop promiseFactories batchSize fuel i results now invoked = Some run
      /\ latency (returned run)
         = (now + list_sum (map slowest
                                (chunks fuel batchSize (skipn i promiseFactories))))%nat.
Proof.
  intros Hall.
  induction fuel as [|fuel IH]; intros i results now invoked Hfuel; cbn [batch_loop].
  - destruct (i <? length promiseFactories)%nat eqn:Hi;
      [apply Nat.ltb_lt in Hi; lia|].
    apply Nat.ltb_ge in Hi. rewrite skipn_all2 by lia.
    eexists. split; [reflexivity|]. cbn. lia.
  - destruct (i <? length promiseFactories)%nat eqn:Hi.
    + apply Nat.ltb_lt in Hi. rewrite (slice_chunk promiseFactories batchSize) by exact batchSize_positive.
      rewrite (Promise_all_fulfilled_latency
                 (map (fun factory : Factory T => factory tt)
                      (firstn batchSize (skipn i promiseFactories)))
                 (firstn batchSize (skipn i vs)))
        by (apply Forall2_map_l, Forall2_firstn, Forall2_skipn, Hall).
      cbn [settled latency].
      destruct (IH (i + batchSize)%nat
                   (results ++ firstn batchSize (skipn i vs))
                   (now + list_max
                            (map latency
                               (map (fun factory : Factory T => factory tt)
                                  (firstn batchSize (skipn i promiseFactories)))))%nat
                   (invoked ++ seq i (length (firstn batchSize (skipn i promiseFactories)))))
        as (run & Hrun & Htime); [lia|].
      exists run. split; [exact Hrun|]. rewrite Htime.
      destruct (skipn i promiseFactories) as [|f rest] eqn:Hskip.
      { apply (f_equal (@length _)) in Hskip. rewrite length_skipn in Hskip.
        cbn in Hskip. lia. }
      rewrite (Nat.add_comm i batchSize), <- skipn_skipn, Hskip.
      cbn [chunks map]. unfold slowest, list_sum. rewrite ?map_map.
      cbn [fold_right]. lia.
    + apply Nat.ltb_ge in Hi. rewrite skipn_all2 by lia.
      eexists. split; [reflexivity|]. cbn. lia.
Qed.

End BatchTime.

Lemma chunks_of_one {A : Type} (l : list A) : forall fuel,
  (length l <= fuel)%nat -> chunks fuel 1 l = map (fun x => [x]) l.
Proof.
  induction l as [|x l IH]; intros fuel Hfuel; [destruct fuel; reflexivity|].
  destruct fuel as [|fuel]; [cbn in Hfuel; lia|].
  cbn [chunks firstn skipn map]. rewrite IH by (cbn in Hfuel; lia). reflexivity.
Qed.

Lemma chunks_of_all {A : Type} (l : list A) fuel size :
  l <> [] -> (1 <= fuel)%nat -> (length l <= size)%nat -> chunks fuel size l = [l].
Proof.
  intros Hne Hfuel Hsize. destruct l as [|x l]; [congruence|].
  destruct fuel as [|fuel]; [lia|]. cbn [chunks].
  rewrite firstn_all2 by exact Hsize. rewrite skipn_all2 by exact Hsize.
  destruct fuel; reflexivity.
Qed.

(** X5.  For a batch size of at least one, when every operation succeeds
    the call settles after the sum, over the consecutive chunks, of the
    latency of the slowest operation of the chunk: the chunks run one after
    the other, the operations of a chunk together. *)
Theorem runPromisesInBatches_time :
  forall (T : Type) (promiseFactories : list (Factory T)) (batchSize : nat),
    (1 <= batchSize)%nat ->
    (forall factory, In factory promiseFactories -> exists v, fulfils factory v) ->
    exists run,
      runPromisesInBatches promiseFactories batchSize = Some run
      /\ latency (returned run)
         = list_sum (map slowest
                         (chunks (length promiseFactories) batchSize promiseFactories)).
Proof.
  intros T promiseFactories batchSize Hsize Hall.
  destruct (Forall_fulfils promiseFactories Hall) as [vs Hvs].
  destruct (batch_loop_time promiseFactories batchSize Hsize vs Hvs
              (length promiseFactories) 0 [] 0 []) as (run & Hrun & Htime); [lia|].
  exists run. split; [exact Hrun | exact Htime].
Qed.

Lemma runPromisesInBatches_time_witness :
  exists run,
    runPromisesInBatches Samples.three_successes 2 = Some run
    /\ latency (returned run) = 8%nat.
Proof.
  destruct (runPromisesInBatches_time Z Samples.three_successes 2) as (run & Hrun & Htime).
  - lia.
  - intros factory [<-|[<-|[<-|[]]]]; eexists; reflexivity.
  - exists run. split; [exact Hrun | exact Htime].
Defined.

(** X6.  The two extremes, when every operation succeeds: with a batch size
    of one the operations run one after the other and the call takes the
    sum of their latencies; with a batch size that covers the whole list
    they run together and the call takes the latency of the slowest. *)
Theorem runPromisesInBatches_sequential_and_concurrent :
  forall (T : Type) (promiseFactories : list (Factory T)),
    (forall factory, In factory promiseFactories -> exists v, fulfils factory v) ->
    (exists run,
        runPromisesInBatches promiseFactories 1 = Some run
        /\ latency (returned run)
           = list_sum (map (fun factory : Factory T => latency (factory tt))
                           promiseFactories))
    /\ (forall batchSize,
          (1 <= batchSize)%nat -> (length promiseFactories <= batchSize)%nat ->
          exists run,
            runPromisesInBatches promiseFactories batchSize = Some run
            /\ latency (returned run)
               = list_max (map (fun factory : Factory T => latency (factory tt))
                               promiseFactories)).
Proof.
  intros T promiseFactories Hall.
  destruct (Forall_fulfils promiseFactories Hall) as [vs Hvs]. split.
  - destruct (batch_loop_time promiseFactories 1 (le_n 1) vs Hvs
                (length promiseFactories) 0 [] 0 []) as (run & Hrun & Htime); [lia|].
    exists run. split; [exact Hrun|]. rewrite Htime. cbn [skipn Nat.add].
    rewrite chunks_of_one by lia. rewrite map_map. f_equal.
    apply map_ext. intros f. unfold slowest. cbn. lia.
  - intros batchSize Hsize Hcover.
    destruct (batch_loop_time promiseFactories batchSize Hsize vs Hvs
                (length promiseFactories) 0 [] 0 []) as (run & Hrun & Htime); [lia|].
    exists run. split; [exact Hrun|]. rewrite Htime. cbn [skipn Nat.add].
    destruct promiseFactories as [|f fs]; [reflexivity|].
    rewrite chunks_of_all by (cbn [length] in *; try lia; discriminate).
    unfold slowest. cbn [map list_sum fold_right]. lia.
Qed.

Lemma runPromisesInBatches_sequential_and_concurrent_witness :
  (exists run,
      runPromisesInBatches Samples.three_successes 1 = Some run
      /\ latency (returned run) = 9%nat)
  /\ (exists run,
        runPromisesInBatches Samples.three_successes 3 = Some run
        /\ latency (returned run) = 5%nat).
Proof.
  destruct (runPromisesInBatches_sequential_and_concurrent Z Samples.three_successes)
    as [Hone Hall].
  - intros factory [<-|[<-|[<-|[]]]]; eexists; reflexivity.
  - split.
    + destruct Hone as (run & Hrun & Htime). exists run. split; [exact Hrun | exact Htime].
    + destruct (Hall 3%nat) as (run & Hrun & Htime); [lia | cbn; lia |].
      exists run. split; [exact Hrun | exact Htime].
Defined.

(** X7.  A batch size of zero: on an empty list the call returns the empty
    list at once, having started nothing; on any other list the loop never
    advances and the call never returns, whatever the number of iterations
    it is given. *)
Theorem runPromisesInBatches_zero_batch_size :
  forall (T : Type) (promiseFactories : list (Factory T)),
    (promiseFactories = [] ->
     runPromisesInBatches promiseFactories 0
     = Some (mkBatchRun (mkPromise (Fulfilled []) 0) []))
    /\ (promiseFactories <> [] ->
        forall fuel, batch_loop promiseFactories 0 fuel 0 [] 0 [] = None).
Proof.
  intros T promiseFactories. split.
  - intros ->. reflexivity.
  - intros Hne fuel. apply batch_loop_zero_runs_on.
    destruct promiseFactories; [congruence | cbn; lia].
Qed.

Lemma runPromisesInBatches_zero_batch_size_witness :
  runPromisesInBatches (@nil (Factory Z)) 0
  = Some (mkBatchRun (mkPromise (Fulfilled []) 0) [])
  /\ batch_loop Samples.three_successes 0 1000 0 [] 0 [] = None.
Proof.
  destruct (runPromisesInBatches_zero_batch_size Z (@nil (Factory Z))) as [Hempty _].
  destruct (runPromisesInBatches_zero_batch_size Z Samples.three_successes) as [_ Hloop].
  split; [apply Hempty; reflexivity | apply Hloop; discriminate].
Defined.

(** ** Asset generation: failures, requests, results *)

(** What the runner returns, for a batch size of at least one: the values
    of all the factories, all of them started; or the failure of a factory
    of the first chunk that holds one, the factories up to the end of that
    chunk having been started. *)
Lemma runPromisesInBatches_outcome {T : Type} (fs : list (Factory T)) batchSize :
  (1 <= batchSize)%nat ->
  exists run,
    runPromisesInBatches fs batchSize = Some run
    /\ ((exists vs,
           Forall2 fulfils fs vs
           /\ settled (returned run) = Fulfilled vs
           /\ started run = seq 0 (length fs))
        \/ (exists c j factory reason,
              (c * batchSize <= j < c * batchSize + batchSize)%nat
              /\ nth_error fs j = Some factory
              /\ settled (factory tt) = Rejected reason
              /\ settled (returned run) = Rejected reason
              /\ (forall j' factory',
                    (j' < c * batchSize)%nat -> nth_error fs j' = Some factory' ->
                    exists v, settled (factory' tt) = Fulfilled v)
              /\ started run = seq 0 (Nat.min (length fs) (c * batchSize + batchSize)))).
Proof.
  intros Hsize. destruct (factories_fulfil_or_reject fs) as [[vs Hvs]|Hrej].
  - destruct (batch_loop_all_fulfilled fs batchSize Hsize vs Hvs (length fs) 0 [] 0 [])
      as [t Hrun]; [lia|].
    cbn [app skipn] in Hrun. rewrite Nat.sub_0_r in Hrun.
    eexists. split; [exact Hrun|]. left. exists vs. auto.
  - destruct Hrej as (f0 & r0 & Hin0 & Hr0).
    destruct (In_nth_error _ _ Hin0) as [j0 Hj0].
    destruct (batch_loop_first_failure fs batchSize Hsize (length fs) 0 [] 0 [])
      as (c & j & f & reason & t & Hj & Hnth & Hr & Hbefore & _ & Hrun).
    { lia. }
    { exists j0, f0, r0. split; [lia | split; assumption]. }
    cbn [app Nat.add] in Hrun, Hj, Hbefore. rewrite Nat.sub_0_r in Hrun.
    eexists. split; [exact Hrun|]. right. exists c, j, f, reason.
    cbn [returned settled started].
    repeat split; auto; try lia.
    intros j' factory' Hj'. apply Hbefore. lia.
Qed.

Section AssetFacts.
Variable world : World.
Variable detailedDescription : string.

Local Abbreviation d := detailedDescription.

Lemma factory_at j factory :
  nth_error (imagePromiseFactories world d) j = Some factory ->
  (exists view, nth_error VIEWS j = Some view /\ factory = view_factory world d view)
  \/ (j = 5%nat /\ factory = sketch_factory world d).
Proof.
  unfold imagePromiseFactories. intros H.
  destruct (Nat.lt_ge_cases j (length (map (view_factory world d) VIEWS))) as [Hlt|Hge].
  - rewrite nth_error_app1 in H by exact Hlt.
    rewrite nth_error_map in H.
    destruct (nth_error VIEWS j) as [view|]; [|discriminate].
    left. exists view. cbn in H. inversion H. auto.
  - rewrite nth_error_app2 in H by exact Hge.
    rewrite length_map in H, Hge. cbn [VIEWS length] in H, Hge.
    destruct (j - 5)%nat as [|k] eqn:Hk; [|destruct k; discriminate].
    right. cbn in H. inversion H. split; [lia | reflexivity].
Qed.

Lemma view_factory_settled view :
  settled (view_factory world d view tt)
  = then_ (fun res => ViewImageResult view (first_image_bytes res))
          (outcome (view_run world d view)).
Proof. reflexivity. Qed.

Lemma sketch_factory_settled :
  settled (sketch_factory world d tt)
  = then_ (fun res => SketchImageResult (first_image_bytes res))
          (outcome (sketch_run world d)).
Proof. reflexivity. Qed.

(** A factory rejects with the failure of its call, as it is. *)
Lemma factory_rejection j factory reason :
  nth_error (imagePromiseFactories world d) j = Some factory ->
  settled (factory tt) = Rejected reason ->
  (exists view, nth_error VIEWS j = Some view
                /\ outcome (view_run world d view) = Rejected reason)
  \/ (j = 5%nat /\ outcome (sketch_run world d) = Rejected reason).
Proof.
  intros Hj Hr. destruct (factory_at j factory Hj) as [(view & Hview & ->)|[-> ->]].
  - left. exists view. split; [exact Hview|].
    rewrite view_factory_settled in Hr.
    destruct (outcome (view_run world d view)); [discriminate|].
    cbn in Hr. congruence.
  - right. split; [reflexivity|].
    rewrite sketch_factory_settled in Hr.
    destruct (outcome (sketch_run world d)); [discriminate|].
    cbn in Hr. congruence.
Qed.

(** The six factories fulfil only with the images of their own calls. *)
Lemma image_results_inv (views : list string) images :
  Forall2 fulfils (map (view_factory world d) views ++ [sketch_factory world d]) images ->
  (forall view, In view views ->
     outcome (view_run world d view) = Fulfilled (view_response world d view))
  /\ exists sres,
       outcome (sketch_run world d) = Fulfilled sres
       /\ images
          = map (fun view => ViewImageResult view (first_image_bytes (view_response world d view)))
                views
            ++ [SketchImageResult (first_image_bytes sres)].
Proof.
  revert images. induction views as [|view views IH]; intros images Hall; cbn [map app] in Hall.
  - inversion Hall as [|f v fs vs Hf Hrest]; subst. inversion Hrest; subst.
    unfold fulfils in Hf. rewrite sketch_factory_settled in Hf.
    destruct (outcome (sketch_run world d)) as [sres|] eqn:Hs; [|discriminate].
    cbn in Hf. inversion Hf; subst.
    split; [intros view []|]. exists sres. auto.
  - inversion Hall as [|f v fs vs Hf Hrest]; subst.
    destruct (IH _ Hrest) as (Hviews & sres & Hs & ->).
    unfold fulfils in Hf. rewrite view_factory_settled in Hf.
    assert (Hrun : outcome (view_run world d view) = Fulfilled (view_response world d view)).
    { unfold view_response.
      destruct (outcome (view_run world d view)); [reflexivity | discriminate]. }
    rewrite Hrun in Hf. cbn in Hf. inversion Hf; subst. split.
    + intros view' [<-|Hin]; [exact Hrun | apply Hviews, Hin].
    + exists sres. split; [exact Hs | reflexivity].
Qed.

(** A cycle that fulfils: every call returned, and the result is the one
    assembled from what the calls returned. *)
Lemma generateAssets_fulfilled_inv cycle result :
  generateAssetsFromDescription world d = Some cycle ->
  settled (answer cycle) = Fulfilled result ->
  (forall view, In view VIEWS ->
     outcome (view_run world d view) = Fulfilled (view_response world d view))
  /\ exists sres cresp,
       outcome (sketch_run world d) = Fulfilled sres
       /\ outcome (cuttingList_run world d) = Fulfilled cresp
       /\ result
          = assemble world d
              (map (fun view => ViewImageResult view (first_image_bytes (view_response world d view)))
                   VIEWS
               ++ [SketchImageResult (first_image_bytes sres)])
              cresp.
Proof.
  intros Hgen Hres.
  destruct (generateAssets_returns world d) as (batches & _ & _ & Hfulfilled & Hgen').
  rewrite Hgen' in Hgen. inversion Hgen; subst cycle. clear Hgen.
  cbn [answer settled] in Hres. unfold Promise_all2 in Hres. cbn [settled latency] in Hres.
  destruct (settled (returned batches)) as [images|reason] eqn:Himages;
    destruct (outcome (cuttingList_run world d)) as [cresp|reason'];
    cbn [settled latency then_] in Hres; try discriminate Hres;
    [|destruct (latency (returned batches) <? took world CuttingListSite)%nat;
      discriminate Hres].
  inversion Hres; subst result.
  destruct (Hfulfilled images eq_refl) as [Hall _].
  destruct (image_results_inv VIEWS images Hall) as (Hviews & sres & Hs & ->).
  split; [exact Hviews|]. exists sres, cresp. auto.
Qed.

End AssetFacts.

Lemma then_rejected {A B : Type} (f : A -> B) (o : Outcome A) reason :
  then_ f o = Rejected reason -> o = Rejected reason.
Proof.
  destruct o; cbn; intros H; [discriminate H | congruence].
Qed.

Lemma Promise_all2_rejected {A B : Type} (pa : Promise A) (pb : Promise B) reason :
  settled (Promise_all2 pa pb) = Rejected reason ->
  settled pa = Rejected reason \/ settled pb = Rejected reason.
Proof.
  unfold Promise_all2.
  destruct (settled pa) as [a|ra], (settled pb) as [b|rb];
    [| | |destruct (latency pa <? latency pb)%nat]; cbn [settled]; intros H;
    try discriminate H; inversion H; subst; auto.
Qed.

Lemma Promise_all2_of_rejected_l {A B : Type} (pa : Promise A) (pb : Promise B) ra :
  settled pa = Rejected ra ->
  exists reason, settled (Promise_all2 pa pb) = Rejected reason.
Proof.
  intros Ha. unfold Promise_all2. rewrite Ha.
  destruct (settled pb); [|destruct (latency pa <? latency pb)%nat]; cbn [settled]; eauto.
Qed.

Lemma string_app_inv_head (a x y : string) : (a ++ x = a ++ y)%string -> x = y.
Proof.
  induction a as [|c a IH]; cbn; intros H; [exact H|]. inversion H. auto.
Qed.

Lemma length_sent_default {T : Type} Math_random (apiCall : Operation T) request :
  (1 <= length (sent request (callApiWithRetry_default Math_random apiCall)) <= 3)%nat.
Proof.
  unfold sent, callApiWithRetry_default. rewrite repeat_length.
  pose proof (callApiWithRetry_cap Math_random apiCall 3 1000).
  pose proof (callApiWithRetry_attempts Math_random apiCall 3 1000). lia.
Qed.

Section AssetRequests.
Variable world : World.
Variable detailedDescription : string.

Local Abbreviation d := detailedDescription.

Lemma generateAssets_cases :
  exists batches,
    ((exists vs,
        Forall2 fulfils (imagePromiseFactories world d) vs
        /\ settled (returned batches) = Fulfilled vs
        /\ started batches = seq 0 6)
     \/ (exists c j factory reason,
           (c * 3 <= j < c * 3 + 3)%nat
           /\ nth_error (imagePromiseFactories world d) j = Some factory
           /\ settled (factory tt) = Rejected reason
           /\ settled (returned batches) = Rejected reason
           /\ (forall j' factory',
                 (j' < c * 3)%nat ->
                 nth_error (imagePromiseFactories world d) j' = Some factory' ->
                 exists v, settled (factory' tt) = Fulfilled v)
           /\ started batches = seq 0 (Nat.min 6 (c * 3 + 3))))
    /\ generateAssetsFromDescription world d
       = Some (mkCycle
           (mkPromise
              (then_ (fun '(allImageResults, cuttingListResponse) =>
                        assemble world d allImageResults cuttingListResponse)
                     (settled (Promise_all2 (returned batches)
                        (mkPromise (outcome (cuttingList_run world d))
                                   (took world CuttingListSite)))))
              (latency (Promise_all2 (returned batches)
                        (mkPromise (outcome (cuttingList_run world d))
                                   (took world CuttingListSite)))))
           (sent (ContentRequest (cuttingList_parameters d)) (cuttingList_run world d)
            ++ flat_map (fun i => nth i (factory_requests world d) [])
                        (started batches))).
Proof.
  destruct (runPromisesInBatches_outcome (imagePromiseFactories world d) 3)
    as (batches & Hrun & Hcases); [lia|].
  exists batches. split; [exact Hcases|].
  unfold generateAssetsFromDescription. rewrite Hrun. reflexivity.
Qed.

Lemma factory_requests_length i :
  (i < 6)%nat ->
  (1 <= length (nth i (factory_requests world d) []) <= 3)%nat.
Proof.
  intros Hi. unfold factory_requests.
  do 6 (destruct i as [|i]; [cbn [VIEWS map app nth]; apply length_sent_default|]).
  lia.
Qed.

Lemma first_chunk_requests i r :
  (i < 3)%nat ->
  In r (nth i (factory_requests world d) []) ->
  In r (map (fun view => ImagesRequest (view_parameters d view)) (firstn 3 VIEWS)).
Proof.
  intros Hi. unfold factory_requests.
  do 3 (destruct i as [|i];
        [cbn [VIEWS map app nth firstn]; intros H; apply In_sent in H; subst r;
         cbn [In]; auto|]).
  lia.
Qed.

Lemma sketch_is_no_view view :
  ImagesRequest (sketch_parameters d) <> ImagesRequest (view_parameters d view).
Proof.
  intros Hprompt. apply (f_equal request_prompt) in Hprompt.
  cbn [request_prompt prompt sketch_parameters view_parameters] in Hprompt.
  unfold sketch_prompt, view_prompt, template in Hprompt.
  cbn [String.concat append] in Hprompt. discriminate Hprompt.
Qed.

Lemma later_views_differ early late :
  In early (firstn 3 VIEWS) -> In late (skipn 3 VIEWS) ->
  ImagesRequest (view_parameters d late) <> ImagesRequest (view_parameters d early).
Proof.
  intros Hearly Hlate Hprompt. apply (f_equal request_prompt) in Hprompt.
  cbn [request_prompt prompt view_parameters] in Hprompt.
  unfold view_prompt, template in Hprompt. cbn [String.concat] in Hprompt.
  do 5 apply string_app_inv_head in Hprompt.
  cbn [VIEWS firstn skipn In] in Hearly, Hlate.
  destruct Hearly as [<-|[<-|[<-|[]]]]; destruct Hlate as [<-|[<-|[]]];
    cbn in Hprompt; discriminate Hprompt.
Qed.

End AssetRequests.

Lemma NoDup_VIEWS : NoDup VIEWS.
Proof.
  unfold VIEWS.
  repeat (constructor; [cbn [In]; intros H; repeat (destruct H as [H|H]; [discriminate H|]); exact H|]).
  constructor.
Qed.

(** X8.  A cycle of asset generation is all or nothing: it fulfils exactly
    when the five view calls, the sketch call and the structured call all
    return; otherwise it rejects, with the failure of one of these calls
    handed on as it is. *)
Theorem generateAssets_all_or_nothing :
  forall (world : World) (detailed : string),
    exists cycle,
      generateAssetsFromDescription world detailed = Some cycle
      /\ ((exists result, settled (answer cycle) = Fulfilled result) <->
          ((forall view, In view VIEWS ->
              exists res, outcome (view_run world detailed view) = Fulfilled res)
           /\ (exists sres, outcome (sketch_run world detailed) = Fulfilled sres)
           /\ (exists cresp, outcome (cuttingList_run world detailed) = Fulfilled cresp)))
      /\ (forall reason,
            settled (answer cycle) = Rejected reason ->
            outcome (cuttingList_run world detailed) = Rejected reason
            \/ outcome (sketch_run world detailed) = Rejected reason
            \/ exists view, In view VIEWS
                            /\ outcome (view_run world detailed view) = Rejected reason).
Proof.
  intros world d.
  destruct (generateAssets_cases world d) as (batches & Hcases & Hgen).
  eexists. split; [exact Hgen|]. split.
  - split.
    + intros [result Hres].
      destruct (generateAssets_fulfilled_inv world d _ result Hgen Hres)
        as (Hviews & sres & cresp & Hs & Hc & _).
      split; [intros view Hin; eexists; apply Hviews, Hin|]. split; eauto.
    + intros (Hviews & [sres Hs] & [cresp Hc]).
      destruct (generateAssets_success world d (view_response world d) sres cresp)
        as (cycle' & Hgen' & Hanswer); auto.
      * intros view Hin. destruct (Hviews view Hin) as [res Hres].
        unfold view_response. rewrite Hres. reflexivity.
      * rewrite Hgen in Hgen'. inversion Hgen'; subst cycle'. eauto.
  - intros reason Hres. cbn [answer settled] in Hres.
    assert (Hall : settled (Promise_all2 (returned batches)
                      (mkPromise (outcome (cuttingList_run world d))
                                 (took world CuttingListSite))) = Rejected reason).
    { apply then_rejected in Hres. exact Hres. }
    apply Promise_all2_rejected in Hall. destruct Hall as [Hbatch|Hlist].
    + destruct Hcases as [(vs & _ & Hvs & _)|(c & j & f & r & _ & Hj & Hr & Hret & _)];
        [congruence|].
      assert (r = reason) by congruence. subst r.
      destruct (factory_rejection world d j f reason Hj Hr) as [(view & Hview & Hrun)|[_ Hrun]].
      * right. right. exists view. split; [eapply nth_error_In; eauto | exact Hrun].
      * right. left. exact Hrun.
    + left. exact Hlist.
Qed.

(** X9.  When one of the first three view calls fails, the cycle rejects
    and the second batch is never started: the only requests sent are the
    structured one and those of the first three views; no request is sent
    for the two other views nor for the sketch. *)
Theorem generateAssets_first_batch_failure :
  forall (world : World) (detailed view : string) (reason : Thrown),
    In view (firstn 3 VIEWS) ->
    outcome (view_run world detailed view) = Rejected reason ->
    exists cycle,
      generateAssetsFromDescription world detailed = Some cycle
      /\ (exists reason', settled (answer cycle) = Rejected reason')
      /\ (forall r, In r (requests cycle) ->
            r = ContentRequest (cuttingList_parameters detailed)
            \/ In r (map (fun v => ImagesRequest (view_parameters detailed v))
                         (firstn 3 VIEWS)))
      /\ ~ In (ImagesRequest (sketch_parameters detailed)) (requests cycle)
      /\ (forall late, In late (skipn 3 VIEWS) ->
            ~ In (ImagesRequest (view_parameters detailed late)) (requests cycle)).
Proof.
  intros world d view reason Hview Hfail.
  destruct (generateAssets_cases world d) as (batches & Hcases & Hgen).
  assert (Hindex : exists jv, (jv < 3)%nat
            /\ nth_error (imagePromiseFactories world d) jv
               = Some (view_factory world d view)).
  { cbn [VIEWS firstn In] in Hview.
    destruct Hview as [<-|[<-|[<-|[]]]];
      [exists 0%nat | exists 1%nat | exists 2%nat]; (split; [lia | reflexivity]). }
  destruct Hindex as (jv & Hjv & Hnth).
  assert (Hrejects : settled (view_factory world d view tt) = Rejected reason)
    by (rewrite view_factory_settled, Hfail; reflexivity).
  assert (Hstarted : (exists r0, settled (returned batches) = Rejected r0)
                     /\ started batches = [0; 1; 2]%nat).
  { destruct Hcases as [(vs & Hall & _ & _)|(c & j & f & r & Hj & _ & _ & Hret & Hbefore & Hst)].
    - destruct (Forall2_nth_error_l _ _ _ _ _ Hall Hnth) as (v & _ & Hv).
      unfold fulfils in Hv. congruence.
    - destruct c as [|c].
      + split; [eauto | exact Hst].
      + destruct (Hbefore jv _ ltac:(lia) Hnth) as [v Hv]. congruence. }
  destruct Hstarted as [[r0 Hr0] Hstarted].
  rewrite Hstarted in Hgen.
  eexists. split; [exact Hgen|]. cbn [answer requests settled].
  assert (Hreq : forall r,
            In r (sent (ContentRequest (cuttingList_parameters d)) (cuttingList_run world d)
                  ++ flat_map (fun i => nth i (factory_requests world d) []) [0; 1; 2]%nat) ->
            r = ContentRequest (cuttingList_parameters d)
            \/ In r (map (fun v => ImagesRequest (view_parameters d v)) (firstn 3 VIEWS))).
  { intros r Hin. apply in_app_or in Hin. destruct Hin as [Hin|Hin].
    - left. apply In_sent in Hin. exact Hin.
    - right. apply in_flat_map in Hin. destruct Hin as (i & Hi & Hin).
      apply (first_chunk_requests world d i r); [|exact Hin].
      cbn [In] in Hi. lia. }
  split.
  - destruct (Promise_all2_of_rejected_l (returned batches)
                (mkPromise (outcome (cuttingList_run world d)) (took world CuttingListSite))
                r0 Hr0) as [r1 Hr1].
    exists r1. rewrite Hr1. reflexivity.
  - split; [exact Hreq|]. split.
    + intros Hin. destruct (Hreq _ Hin) as [Heq|Hin']; [discriminate Heq|].
      apply in_map_iff in Hin'. destruct Hin' as (v & Heq & _).
      apply (sketch_is_no_view d v). symmetry. exact Heq.
    + intros late Hlate Hin. destruct (Hreq _ Hin) as [Heq|Hin']; [discriminate Heq|].
      apply in_map_iff in Hin'. destruct Hin' as (v & Heq & Hv).
      apply (later_views_differ d v late Hv Hlate). symmetry. exact Heq.
Qed.

(** The number of requests of a cycle, from the factories that were
    started. *)
Lemma asset_requests_bounds (world : World) (d : string) (invoked : list nat) :
  invoked = seq 0 3 \/ invoked = seq 0 6 ->
  (4 <= length (sent (ContentRequest (cuttingList_parameters d)) (cuttingList_run world d)
                ++ flat_map (fun i => nth i (factory_requests world d) []) invoked)
   <= 21)%nat.
Proof.
  intros Hinvoked. rewrite length_app.
  pose proof (length_sent_default (Math_random world CuttingListSite)
                (generateContent (ai_models world) (cuttingList_parameters d))
                (ContentRequest (cuttingList_parameters d))) as Hlist.
  fold (cuttingList_run world d) in Hlist.
  pose proof (factory_requests_length world d 0 ltac:(lia)) as H0.
  pose proof (factory_requests_length world d 1 ltac:(lia)) as H1.
  pose proof (factory_requests_length world d 2 ltac:(lia)) as H2.
  pose proof (factory_requests_length world d 3 ltac:(lia)) as H3.
  pose proof (factory_requests_length world d 4 ltac:(lia)) as H4.
  pose proof (factory_requests_length world d 5 ltac:(lia)) as H5.
  destruct Hinvoked as [-> | ->]; cbn [seq flat_map]; rewrite ?length_app; cbn [length]; lia.
Qed.

Lemma started_three_or_six (world : World) (d : string) :
  exists (batches : BatchRun ImageResult) cycle,
    generateAssetsFromDescription world d = Some cycle
    /\ requests cycle
       = sent (ContentRequest (cuttingList_parameters d)) (cuttingList_run world d)
         ++ flat_map (fun i => nth i (factory_requests world d) []) (started batches)
    /\ (started batches = seq 0 3 \/ started batches = seq 0 6).
Proof.
  destruct (generateAssets_cases world d) as (batches & Hcases & Hgen).
  eexists batches, _. split; [exact Hgen|]. split; [reflexivity|].
  destruct Hcases as [(vs & _ & _ & Hst)|(c & j & f & r & Hj & Hnth & _ & _ & _ & Hst)].
  - right. exact Hst.
  - assert (Hlt : (j < 6)%nat)
      by (apply (proj1 (nth_error_Some (imagePromiseFactories world d) j)); congruence).
    destruct c as [|[|c]]; [left | right | lia]; rewrite Hst; reflexivity.
Qed.

(** X10.  A cycle of asset generation sends at least four requests (the
    structured one and the first batch of three) and never more than
    twenty-one (three attempts for each of its seven calls). *)
Theorem generateAssets_request_count :
  forall (world : World) (detailed : string),
    exists cycle,
      generateAssetsFromDescription world detailed = Some cycle
      /\ (4 <= length (requests cycle) <= 21)%nat.
Proof.
  intros world d.
  destruct (started_three_or_six world d) as (batches & cycle & Hgen & Hreq & Hstarted).
  exists cycle. split; [exact Hgen|].
  rewrite Hreq. apply asset_requests_bounds, Hstarted.
Qed.

(** The same on a sample: the front view is refused. *)
Lemma generateAssets_first_batch_failure_witness :
  exists cycle,
    generateAssetsFromDescription Cases.front_refused "A round hut." = Some cycle
    /\ (exists reason', settled (answer cycle) = Rejected reason')
    /\ ~ In (ImagesRequest (sketch_parameters "A round hut.")) (requests cycle)
    /\ length (requests cycle) = 4%nat.
Proof.
  destruct (generateAssets_first_batch_failure Cases.front_refused "A round hut."
              "Front view" (ErrorObject "Request blocked by safety filters"))
    as (cycle & Hgen & Hrej & _ & Hsketch & _).
  - left. reflexivity.
  - reflexivity.
  - exists cycle. split; [exact Hgen|]. split; [exact Hrej|]. split; [exact Hsketch|].
    assert (Hrun : generateAssetsFromDescription Cases.front_refused "A round hut."
                   = Some cycle) by exact Hgen.
    vm_compute in Hrun. inversion Hrun. reflexivity.
Defined.

Section ResultFacts.
Variable world : World.
Variable detailedDescription : string.

Local Abbreviation d := detailedDescription.

Lemma displayed_inv payload u :
  displayed payload = Some u ->
  exists bytes, payload = Some bytes /\ bytes <> "" /\ u = data_url bytes.
Proof.
  unfold displayed. destruct payload as [bytes|]; [|discriminate].
  destruct bytes as [|c rest]; cbn [truthy]; [discriminate|].
  intros H. inversion H. exists (String c rest). repeat split. discriminate.
Qed.

(** What a fulfilled cycle looks like. *)
Lemma assembled_result_shape (payload : string -> option string) sketch cresp :
  let result :=
    assemble world d
      (map (fun view => ViewImageResult view (payload view)) VIEWS
       ++ [SketchImageResult sketch]) cresp in
  imageViews result <> Some []
  /\ map label (views_of result) = filter (fun view => has_payload (payload view)) VIEWS
  /\ (forall v, In v (views_of result) ->
        In (label v) VIEWS
        /\ exists bytes, payload (label v) = Some bytes /\ bytes <> ""
                         /\ url v = data_url bytes)
  /\ (forall u, sketchUrl result = Some u ->
        exists bytes, sketch = Some bytes /\ bytes <> "" /\ u = data_url bytes).
Proof.
  intros result. unfold result, assemble, views_of. cbn [imageViews sketchUrl].
  rewrite (filter_map_view_of payload), (find_sketch payload).
  set (kept := filter_map
                 (fun view => option_map (mkImageView view) (displayed (payload view)))
                 VIEWS).
  assert (Hkept : (if (0 <? length kept)%nat then Some kept else None) = None
                  /\ kept = []
                  \/ (if (0 <? length kept)%nat then Some kept else None) = Some kept
                     /\ kept <> []).
  { destruct kept; [left | right]; split; try reflexivity. discriminate. }
  assert (Hviews : match (if (0 <? length kept)%nat then Some kept else None) with
                   | Some views => views
                   | None => []
                   end = kept)
    by (destruct kept; reflexivity).
  rewrite Hviews. split.
  - destruct Hkept as [[-> _]|[-> Hne]]; [discriminate | congruence].
  - split; [apply labels_of_kept|]. split.
    + intros v Hv. destruct (urls_of_kept payload VIEWS v Hv) as [Hin Hd].
      split; [exact Hin|]. destruct (displayed_inv _ _ Hd) as (bytes & Hp & Hne & Hu).
      eauto.
    + intros u Hu. apply displayed_inv.
      unfold sketch_url_of in Hu. unfold displayed. destruct sketch; exact Hu.
Qed.

End ResultFacts.

(** X11.  The result of a cycle that fulfils is well formed: [imageViews]
    is null or a non-empty list of at most five views, with distinct labels
    taken from [VIEWS] in that order, each with the data URL of a non-empty
    payload; [sketchUrl] is null or the data URL of a non-empty payload. *)
Theorem generateAssets_result_well_formed :
  forall (world : World) (detailed : string),
    exists cycle,
      generateAssetsFromDescription world detailed = Some cycle
      /\ forall result,
           settled (answer cycle) = Fulfilled result ->
           imageViews result <> Some []
           /\ (length (views_of result) <= 5)%nat
           /\ NoDup (map label (views_of result))
           /\ (exists keep, map label (views_of result) = filter keep VIEWS)
           /\ (forall v, In v (views_of result) ->
                 In (label v) VIEWS
                 /\ exists bytes, bytes <> "" /\ url v = data_url bytes)
           /\ (forall u, sketchUrl result = Some u ->
                 exists bytes, bytes <> "" /\ u = data_url bytes).
Proof.
  intros world d.
  destruct (generateAssets_returns world d) as (batches & _ & _ & _ & Hgen).
  eexists. split; [exact Hgen|]. intros result Hres.
  destruct (generateAssets_fulfilled_inv world d _ result Hgen Hres)
    as (_ & sres & cresp & _ & _ & ->).
  destruct (assembled_result_shape world d
              (fun view => first_image_bytes (view_response world d view))
              (first_image_bytes sres) cresp)
    as (Hnot_empty & Hlabels & Hviews & Hsketch).
  split; [exact Hnot_empty|]. split.
  - rewrite <- (length_map label), Hlabels.
    apply (Nat.le_trans _ _ _ (filter_length_le _ _)). reflexivity.
  - split; [rewrite Hlabels; apply NoDup_filter, NoDup_VIEWS|].
    split; [eexists; exact Hlabels|]. split.
    + intros v Hv. destruct (Hviews v Hv) as (Hin & bytes & _ & Hne & Hu). eauto.
    + intros u Hu. destruct (Hsketch u Hu) as (bytes & _ & Hne & Hu'). eauto.
Qed.

Lemma generateAssets_result_well_formed_witness :
  exists cycle result,
    generateAssetsFromDescription Samples.empty_front "A round hut." = Some cycle
    /\ settled (answer cycle) = Fulfilled result
    /\ imageViews result <> Some []
    /\ NoDup (map label (views_of result)).
Proof.
  destruct (generateAssets_result_well_formed Samples.empty_front "A round hut.")
    as (cycle & Hgen & Hshape).
  assert (Hrun : generateAssetsFromDescription Samples.empty_front "A round hut."
                 = Some cycle) by exact Hgen.
  vm_compute in Hrun. inversion Hrun as [Hcycle].
  eexists cycle, _. split; [exact Hgen|].
  assert (Hres : settled (answer cycle) = Fulfilled
            (mkCycleResult
               (Some [mkImageView "Back view" "data:image/jpeg;base64,QUJD";
                      mkImageView "Left side view" "data:image/jpeg;base64,QUJD";
                      mkImageView "Right side view" "data:image/jpeg;base64,QUJD";
                      mkImageView "Top-down view" "data:image/jpeg;base64,QUJD"])
               (Some "data:image/jpeg;base64,QUJD") (JObject []) "A round hut."))
    by (rewrite <- Hcycle; reflexivity).
  split; [exact Hres|].
  destruct (Hshape _ Hres) as (Hne & _ & Hnodup & _). split; assumption.
Defined.

(** ** The entry points: failures and descriptions *)

Section EntryFacts.
Variable world : World.

Lemma describe_rejected parameters failure reason :
  outcome (description_run world parameters) = Rejected reason ->
  describe_then_generate world parameters failure
  = Some (mkCycle
            (mkPromise (Rejected reason) (took world DescriptionSite))
            (sent (ContentRequest parameters) (description_run world parameters))).
Proof.
  intros Hrun. unfold describe_then_generate. rewrite Hrun. reflexivity.
Qed.

Lemma describe_described parameters failure response :
  outcome (description_run world parameters) = Fulfilled response ->
  trim (text response) <> "" ->
  exists assets,
    generateAssetsFromDescription world (trim (text response)) = Some assets
    /\ describe_then_generate world parameters failure
       = Some (mkCycle
                 (mkPromise (settled (answer assets))
                            (took world DescriptionSite + latency (answer assets)))
                 (sent (ContentRequest parameters) (description_run world parameters)
                  ++ requests assets)).
Proof.
  intros Hrun Hne. unfold describe_then_generate. rewrite Hrun.
  destruct (trim (text response)) as [|c rest] eqn:Htrim; [congruence|].
  cbn [truthy negb].
  destruct (generateAssets_returns world (String c rest)) as (batches & _ & _ & _ & Hgen).
  rewrite Hgen. eexists. split; reflexivity.
Qed.

Lemma length_description_requests parameters :
  (1 <= length (sent (ContentRequest parameters) (description_run world parameters)) <= 3)%nat.
Proof.
  apply length_sent_default.
Qed.

End EntryFacts.

(** X12.  When the description call of an entry point fails (after the
    retries of the wrapper), the entry point rejects with that failure as
    it is; it has sent the description request between one and three times
    and no request of asset generation. *)
Theorem description_failure_is_handed_on :
  forall (world : World) (prompt originalDescription : string)
         (edits : EditPreferences) (reason : Thrown),
    (outcome (description_run world (description_parameters prompt)) = Rejected reason ->
     exists cycle,
       generateHouseDesign world prompt = Some cycle
       /\ settled (answer cycle) = Rejected reason
       /\ (1 <= length (requests cycle) <= 3)%nat
       /\ forall r, In r (requests cycle) ->
            r = ContentRequest (description_parameters prompt)
            /\ forall d, ~ In r (cycle_requests d))
    /\
    (outcome (description_run world (edit_parameters originalDescription edits))
       = Rejected reason ->
     exists cycle,
       editHouseDesign world originalDescription edits = Some cycle
       /\ settled (answer cycle) = Rejected reason
       /\ (1 <= length (requests cycle) <= 3)%nat
       /\ forall r, In r (requests cycle) ->
            r = ContentRequest (edit_parameters originalDescription edits)
            /\ forall d, ~ In r (cycle_requests d)).
Proof.
  intros world prompt originalDescription edits reason. split; intros Hrun.
  - unfold generateHouseDesign. rewrite (describe_rejected world _ _ reason Hrun).
    eexists. split; [reflexivity|]. split; [reflexivity|]. cbn [requests].
    split; [apply length_description_requests|].
    intros r Hr. apply In_sent in Hr. subst r. split; [reflexivity|].
    intros d. apply description_request_is_no_asset_request. reflexivity.
  - unfold editHouseDesign. rewrite (describe_rejected world _ _ reason Hrun).
    eexists. split; [reflexivity|]. split; [reflexivity|]. cbn [requests].
    split; [apply length_description_requests|].
    intros r Hr. apply In_sent in Hr. subst r. split; [reflexivity|].
    intros d. apply description_request_is_no_asset_request. reflexivity.
Qed.

(** The same on a sample: a service that refuses the key. *)
Lemma description_failure_is_handed_on_witness :
  exists cycle,
    generateHouseDesign Cases.locked_out "a mushroom cottage" = Some cycle
    /\ settled (answer cycle)
       = Rejected (ErrorObject "API key not valid. Please pass a valid API key.")
    /\ (1 <= length (requests cycle) <= 3)%nat.
Proof.
  destruct (description_failure_is_handed_on Cases.locked_out "a mushroom cottage"
              "A round hut." Samples.red_roof
              (ErrorObject "API key not valid. Please pass a valid API key."))
    as [Hgenerate _].
  destruct (Hgenerate eq_refl) as (cycle & Hrun & Hanswer & Hcount & _).
  exists cycle. auto.
Defined.

(** X13.  When the description call returns a text that is not blank, each
    entry point generates the assets of the trimmed text: it settles as the
    cycle of asset generation for that description does, its requests are
    the description requests followed by those of that cycle (twenty-four
    at most), and a result carries the trimmed text as its description,
    not the prompt or the prior description. *)
Theorem entry_points_use_trimmed_description :
  forall (world : World) (prompt originalDescription : string)
         (edits : EditPreferences) (response : GenerateContentResponse),
    trim (text response) <> "" ->
    (outcome (description_run world (description_parameters prompt)) = Fulfilled response ->
     exists assets cycle,
       generateAssetsFromDescription world (trim (text response)) = Some assets
       /\ generateHouseDesign world prompt = Some cycle
       /\ settled (answer cycle) = settled (answer assets)
       /\ requests cycle
          = sent (ContentRequest (description_parameters prompt))
                 (description_run world (description_parameters prompt))
            ++ requests assets
       /\ (length (requests cycle) <= 24)%nat
       /\ forall result, settled (answer cycle) = Fulfilled result ->
            detailedDescription result = trim (text response))
    /\
    (outcome (description_run world (edit_parameters originalDescription edits))
       = Fulfilled response ->
     exists assets cycle,
       generateAssetsFromDescription world (trim (text response)) = Some assets
       /\ editHouseDesign world originalDescription edits = Some cycle
       /\ settled (answer cycle) = settled (answer assets)
       /\ requests cycle
          = sent (ContentRequest (edit_parameters originalDescription edits))
                 (description_run world (edit_parameters originalDescription edits))
            ++ requests assets
       /\ (length (requests cycle) <= 24)%nat
       /\ forall result, settled (answer cycle) = Fulfilled result ->
            detailedDescription result = trim (text response)).
Proof.
  intros world prompt originalDescription edits response Hne.
  assert (Hcommon : forall parameters failure,
            outcome (description_run world parameters) = Fulfilled response ->
            exists assets cycle,
              generateAssetsFromDescription world (trim (text response)) = Some assets
              /\ describe_then_generate world parameters failure = Some cycle
              /\ settled (answer cycle) = settled (answer assets)
              /\ requests cycle
                 = sent (ContentRequest parameters) (description_run world parameters)
                   ++ requests assets
              /\ (length (requests cycle) <= 24)%nat
              /\ forall result, settled (answer cycle) = Fulfilled result ->
                   detailedDescription result = trim (text response)).
  { intros parameters failure Hrun.
    destruct (describe_described world parameters failure response Hrun Hne)
      as (assets & Hassets & Hcycle).
    eexists assets, _. split; [exact Hassets|]. split; [exact Hcycle|].
    cbn [answer requests settled]. split; [reflexivity|]. split; [reflexivity|].
    destruct (generateAssets_cases world (trim (text response)))
      as (batches & _ & Hgen).
    split.
    - rewrite length_app.
      pose proof (length_description_requests world parameters) as Hd.
      assert (Hcount : (length (requests assets) <= 21)%nat).
      { destruct (started_three_or_six world (trim (text response)))
          as (batches' & assets' & Hassets' & Hreq & Hstarted).
        rewrite Hassets in Hassets'. inversion Hassets'; subst assets'.
        rewrite Hreq.
        pose proof (asset_requests_bounds world (trim (text response)) _ Hstarted). lia. }
      lia.
    - intros result Hres.
      destruct (generateAssets_fulfilled_inv world _ assets result Hassets Hres)
        as (_ & sres & cresp & _ & _ & ->).
      reflexivity. }
  split; intros Hrun.
  - apply (Hcommon (description_parameters prompt)
             "Could not generate a detailed description for the house." Hrun).
  - apply (Hcommon (edit_parameters originalDescription edits)
             "Could not generate an updated description for the house." Hrun).
Qed.

(** The same on the scenario of the specification. *)
Lemma entry_points_use_trimmed_description_witness :
  exists assets cycle,
    generateAssetsFromDescription Samples.mushroom
      "A round red-capped mushroom cottage with a wooden door." = Some assets
    /\ generateHouseDesign Samples.mushroom "a mushroom cottage" = Some cycle
    /\ settled (answer cycle) = settled (answer assets)
    /\ (length (requests cycle) <= 24)%nat.
Proof.
  destruct (entry_points_use_trimmed_description Samples.mushroom "a mushroom cottage"
              "A round hut." Samples.red_roof
              (mkContentResponse "A round red-capped mushroom cottage with a wooden door."))
    as [Hgenerate _].
  - discriminate.
  - destruct (Hgenerate eq_refl) as (assets & cycle & Hassets & Hcycle & Hsame & _ & Hcount & _).
    exists assets, cycle. auto.
Defined.

(** ** The application: messages *)

Lemma fixed_messages_differ :
  App.api_key_message <> App.quota_message
  /\ App.api_key_message <> App.safety_message
  /\ App.api_key_message <> App.stuck_message
  /\ App.quota_message <> App.safety_message
  /\ App.quota_message <> App.stuck_message
  /\ App.safety_message <> App.stuck_message.
Proof.
  repeat split; discriminate.
Qed.

Lemma hiccup_is_no_fixed_message msg :
  App.hiccup_message msg <> App.api_key_message
  /\ App.hiccup_message msg <> App.quota_message
  /\ App.hiccup_message msg <> App.safety_message
  /\ App.hiccup_message msg <> App.stuck_message.
Proof.
  unfold App.hiccup_message, template. cbn [String.concat append].
  repeat split; discriminate.
Qed.

Lemma friendly_of_Error msg :
  App.getFriendlyErrorMessage (ErrorObject msg)
  = if App.mentions_api_key msg then App.api_key_message
    else if App.mentions_quota msg then App.quota_message
    else if App.mentions_safety msg then App.safety_message
    else App.hiccup_message msg.
Proof. reflexivity. Qed.

(** X14.  The sentence shown tells the kind of failure exactly: the API-key
    sentence for an [Error] whose message names an API-key marker, whatever
    else it names; the quota sentence for one that names quota and no
    API-key marker; the safety sentence for one that names a safety marker
    and neither of the former; the stuck sentence for a thrown value that is
    not an [Error]; and in every other case the hiccup sentence around the
    message as it was written. *)
Theorem getFriendlyErrorMessage_tells_the_kind :
  forall (error : Thrown),
    (App.getFriendlyErrorMessage error = App.api_key_message <->
     exists msg, error = ErrorObject msg /\ App.mentions_api_key msg = true)
    /\ (App.getFriendlyErrorMessage error = App.quota_message <->
        exists msg, error = ErrorObject msg /\ App.mentions_api_key msg = false
                    /\ App.mentions_quota msg = true)
    /\ (App.getFriendlyErrorMessage error = App.safety_message <->
        exists msg, error = ErrorObject msg /\ App.mentions_api_key msg = false
                    /\ App.mentions_quota msg = false
                    /\ App.mentions_safety msg = true)
    /\ (App.getFriendlyErrorMessage error = App.stuck_message <->
        instanceofError error = false)
    /\ (forall msg,
          error = ErrorObject msg -> App.mentions_api_key msg = false ->
          App.mentions_quota msg = false -> App.mentions_safety msg = false ->
          App.getFriendlyErrorMessage error = App.hiccup_message msg).
Proof.
  intros error.
  destruct fixed_messages_differ as (Haq & Has & Hat & Hqs & Hqt & Hst).
  destruct error as [msg|s|n|fields|].
  - rewrite friendly_of_Error.
    destruct (hiccup_is_no_fixed_message msg) as (Hha & Hhq & Hhs & Hht).
    destruct (App.mentions_api_key msg) eqn:Hapi;
      [|destruct (App.mentions_quota msg) eqn:Hquota;
        [|destruct (App.mentions_safety msg) eqn:Hsafety]];
      (split; [split; [intros H; try congruence; exists msg; auto
                      | intros (m & Hm & Hk); inversion Hm; subst m; congruence]|]);
      (split; [split; [intros H; try congruence; exists msg; auto
                      | intros (m & Hm & Hk & Hq); inversion Hm; subst m; congruence]|]);
      (split; [split; [intros H; try congruence; exists msg; auto
                      | intros (m & Hm & Hk & Hq & Hs); inversion Hm; subst m; congruence]|]);
      (split; [split; [intros H; congruence | intros H; discriminate H]|]);
      intros m Hm Hk Hq Hs; inversion Hm; subst m; congruence.
  - cbn [App.getFriendlyErrorMessage instanceofError].
    repeat split; try congruence;
      try (intros (m & Hm & _); discriminate Hm); intros m Hm; discriminate Hm.
  - cbn [App.getFriendlyErrorMessage instanceofError].
    repeat split; try congruence;
      try (intros (m & Hm & _); discriminate Hm); intros m Hm; discriminate Hm.
  - cbn [App.getFriendlyErrorMessage instanceofError].
    repeat split; try congruence;
      try (intros (m & Hm & _); discriminate Hm); intros m Hm; discriminate Hm.
  - cbn [App.getFriendlyErrorMessage instanceofError].
    repeat split; try congruence;
      try (intros (m & Hm & _); discriminate Hm); intros m Hm; discriminate Hm.
Qed.

(** The same on a sample: a blocked request that also names the key. *)
Lemma getFriendlyErrorMessage_tells_the_kind_witness :
  App.getFriendlyErrorMessage
    (ErrorObject "Permission denied: request BLOCKED, quota unknown")
  = App.api_key_message
  /\ App.getFriendlyErrorMessage (ErrorObject "Model overloaded")
     = App.hiccup_message "Model overloaded".
Proof.
  split.
  - apply (getFriendlyErrorMessage_tells_the_kind
             (ErrorObject "Permission denied: request BLOCKED, quota unknown")).
    eexists. split; reflexivity.
  - apply (getFriendlyErrorMessage_tells_the_kind (ErrorObject "Model overloaded"));
      reflexivity.
Defined.

(** X15.  The two classifiers do not agree: a failure that the wrapper
    retries as a rate limit because of [429] or [rate limit], and that does
    not name quota, is never shown the quota sentence; unless it names an
    API-key or a safety marker it is shown the hiccup sentence around its
    message.  A failure that names quota is both retried and shown the
    quota sentence or the API-key one. *)
Theorem rate_limit_and_quota_sentence :
  forall (msg : string),
    isRateLimitError (ErrorObject msg) = true ->
    (App.mentions_quota msg = false ->
     (includes (toLowerCase msg) "rate limit" = true
      \/ includes (toLowerCase msg) "429" = true)
     /\ App.getFriendlyErrorMessage (ErrorObject msg) <> App.quota_message
     /\ (App.mentions_api_key msg = false -> App.mentions_safety msg = false ->
         App.getFriendlyErrorMessage (ErrorObject msg) = App.hiccup_message msg))
    /\ (App.mentions_quota msg = true ->
        App.getFriendlyErrorMessage (ErrorObject msg) = App.quota_message
        \/ App.getFriendlyErrorMessage (ErrorObject msg) = App.api_key_message).
Proof.
  intros msg Hrate.
  destruct fixed_messages_differ as (Haq & Has & Hat & Hqs & Hqt & Hst).
  destruct (hiccup_is_no_fixed_message msg) as (Hha & Hhq & Hhs & Hht).
  rewrite friendly_of_Error. split.
  - intros Hquota. rewrite Hquota. split.
    + cbn [isRateLimitError] in Hrate. unfold App.mentions_quota in Hquota.
      rewrite Hquota in Hrate. cbn [orb] in Hrate.
      apply orb_true_iff in Hrate. exact Hrate.
    + split.
      * destruct (App.mentions_api_key msg); [congruence|].
        destruct (App.mentions_safety msg); congruence.
      * intros -> ->. reflexivity.
  - intros Hquota. rewrite Hquota. destruct (App.mentions_api_key msg); auto.
Qed.

(** The same on a sample: the status 429 without the word quota. *)
Lemma rate_limit_and_quota_sentence_witness :
  App.getFriendlyErrorMessage (ErrorObject "got status: 429 Too Many Requests")
  = App.hiccup_message "got status: 429 Too Many Requests"
  /\ App.getFriendlyErrorMessage (ErrorObject "got status: 429 Too Many Requests")
     <> App.quota_message.
Proof.
  destruct (rate_limit_and_quota_sentence "got status: 429 Too Many Requests" eq_refl)
    as [Hno_quota _].
  destruct (Hno_quota eq_refl) as (_ & Hnot & Hhiccup).
  split; [apply Hhiccup; reflexivity | exact Hnot].
Defined.

(** ** The application: the submit handlers *)

Section HandlerFacts.
Variable world : World.

(** A result handed to the application has a description and, when it has
    a sketch, a sketch reference that is not empty. *)
Lemma entry_result_inv parameters failure cycle result :
  describe_then_generate world parameters failure = Some cycle ->
  settled (answer cycle) = Fulfilled result ->
  truthy (detailedDescription result) = true
  /\ (forall u, sketchUrl result = Some u -> truthy u = true).
Proof.
  intros Hcycle Hres.
  destruct (outcome (description_run world parameters)) as [response|reason] eqn:Hrun.
  - destruct (trim (text response)) as [|c rest] eqn:Htrim.
    + rewrite (describe_blank world _ _ response Hrun Htrim) in Hcycle.
      inversion Hcycle; subst cycle. discriminate Hres.
    + destruct (describe_described world parameters failure response Hrun)
        as (assets & Hassets & Hcycle'); [congruence|].
      rewrite Hcycle' in Hcycle. inversion Hcycle; subst cycle.
      cbn [answer settled] in Hres.
      destruct (generateAssets_fulfilled_inv world _ assets result Hassets Hres)
        as (_ & sres & cresp & _ & _ & ->).
      split; [cbn [assemble detailedDescription]; rewrite Htrim; reflexivity|].
      intros u Hu.
      destruct (assembled_result_shape world (trim (text response))
                  (fun view => first_image_bytes
                                 (view_response world (trim (text response)) view))
                  (first_image_bytes sres) cresp) as (_ & _ & _ & Hsketch).
      destruct (Hsketch u Hu) as (bytes & _ & _ & ->). reflexivity.
  - rewrite (describe_rejected world _ _ reason Hrun) in Hcycle.
    inversion Hcycle; subst cycle. discriminate Hres.
Qed.

(** What [settle] leaves, from a state whose content has been cleared. *)
Lemma settle_fulfilled result (s : App.State) :
  truthy (detailedDescription result) = true ->
  (forall u, sketchUrl result = Some u -> truthy u = true) ->
  App.imageViews s = None -> App.sketchUrl s = None -> App.cuttingList s = JNull ->
  let s' := App.settle (Fulfilled result) s in
  App.isLoading s' = false
  /\ App.error s' = App.error s
  /\ App.prompt s' = App.prompt s
  /\ App.isEditing s' = App.isEditing s
  /\ App.activeView s' = App.activeView s
  /\ App.imageViews s' = imageViews result
  /\ App.sketchUrl s' = sketchUrl result
  /\ App.detailedDescription s' = Some (detailedDescription result)
  /\ App.cuttingList s'
     = (if App.json_truthy (cuttingList result) then cuttingList result else JNull).
Proof.
  intros Hdescribed Hsketch Hviews Hsk Hlist s'. subst s'.
  unfold App.settle, App.handleGenerationResult,
    App.result_imageViews, App.result_sketchUrl, App.result_cuttingList,
    App.result_detailedDescription.
  rewrite Hdescribed.
  destruct (imageViews result) as [views|];
    destruct (sketchUrl result) as [u|] eqn:Hu;
    try rewrite (Hsketch u eq_refl);
    destruct (App.json_truthy (cuttingList result));
    cbn; repeat split; auto.
Qed.

Lemma settle_rejected reason (s : App.State) :
  App.imageViews s = None -> App.sketchUrl s = None -> App.cuttingList s = JNull ->
  let s' := App.settle (Rejected reason) s in
  App.isLoading s' = false
  /\ App.error s' = Some (App.getFriendlyErrorMessage reason)
  /\ App.prompt s' = App.prompt s
  /\ App.isEditing s' = App.isEditing s
  /\ App.activeView s' = App.activeView s
  /\ App.detailedDescription s' = App.detailedDescription s
  /\ App.hasContent s' = false.
Proof.
  intros Hviews Hsk Hlist s'. subst s'.
  unfold App.settle, App.hasContent. cbn.
  rewrite Hviews, Hsk, Hlist. repeat split.
Qed.

End HandlerFacts.

(** The guards of the two handlers: with a prompt that is blank once
    trimmed, or while a cycle is loading, [handleSubmit] leaves the state as
    it is and sends nothing; so does [handleEditSubmit] without a prior
    description, or while a cycle is loading. *)
Lemma handlers_do_nothing_when_guarded :
  forall (world : World) (preferences : EditPreferences) (s : App.State),
    (trim (App.prompt s) = "" \/ App.isLoading s = true ->
     App.handleSubmit world s = Some (s, []))
    /\ (App.detailedDescription s = None \/ App.detailedDescription s = Some ""
        \/ App.isLoading s = true ->
        App.handleEditSubmit world preferences s = Some (s, [])).
Proof.
  intros world preferences s. split.
  - intros [Hblank|Hloading]; unfold App.handleSubmit.
    + rewrite Hblank. reflexivity.
    + rewrite Hloading, orb_true_r. reflexivity.
  - intros [Hnone|[Hempty|Hloading]]; unfold App.handleEditSubmit.
    + rewrite Hnone. reflexivity.
    + rewrite Hempty. reflexivity.
    + rewrite Hloading. destruct (App.detailedDescription s); [|reflexivity].
      rewrite orb_true_r. reflexivity.
Qed.

(** X16.  A submitted idea, once its cycle has settled: the application is
    not loading, not editing, on the design tab, and its prompt is
    untouched; after a success it shows no error and exactly the images,
    the sketch and the description of the result, the cutting list being
    the one of the result when it is truthy and null otherwise, so that
    nothing of an earlier design remains; after a failure it shows the
    friendly sentence of the failure and has no content and no description
    left. *)
Theorem handleSubmit_settles :
  forall (world : World) (s : App.State),
    trim (App.prompt s) <> "" ->
    App.isLoading s = false ->
    exists cycle s',
      generateHouseDesign world (App.prompt s) = Some cycle
      /\ App.handleSubmit world s = Some (s', requests cycle)
      /\ App.isLoading s' = false
      /\ App.isEditing s' = false
      /\ App.activeView s' = App.design
      /\ App.prompt s' = App.prompt s
      /\ (forall result,
            settled (answer cycle) = Fulfilled result ->
            App.error s' = None
            /\ App.imageViews s' = imageViews result
            /\ App.sketchUrl s' = sketchUrl result
            /\ App.detailedDescription s' = Some (detailedDescription result)
            /\ App.cuttingList s'
               = (if App.json_truthy (cuttingList result)
                  then cuttingList result else JNull))
      /\ (forall reason,
            settled (answer cycle) = Rejected reason ->
            App.error s' = Some (App.getFriendlyErrorMessage reason)
            /\ App.hasContent s' = false
            /\ App.detailedDescription s' = None).
Proof.
  intros world s Hprompt Hidle.
  destruct (describe_returns world (description_parameters (App.prompt s))
              "Could not generate a detailed description for the house.")
    as (cycle & Hcycle & _).
  fold (generateHouseDesign world (App.prompt s)) in Hcycle.
  unfold App.handleSubmit. rewrite Hidle.
  destruct (trim (App.prompt s)) as [|c rest] eqn:Htrim; [congruence|].
  cbn [truthy negb orb]. cbn [App.prompt App.setIsLoading App.setError App.setImageUrls
    App.setSketchUrl App.setCuttingList App.setDetailedDescription App.setIsEditing
    App.setActiveView App.isLoading App.error App.imageViews App.sketchUrl App.cuttingList
    App.activeView App.detailedDescription App.isEditing].
  rewrite Hcycle.
  eexists cycle, _. split; [reflexivity|]. split; [reflexivity|].
  set (cleared := App.mkState (App.prompt s) true None None None JNull App.design None false).
  destruct (settled (answer cycle)) as [result|reason] eqn:Hres.
  - destruct (entry_result_inv world _ _ cycle result Hcycle Hres) as [Hdescribed Hsketch].
    destruct (settle_fulfilled result cleared Hdescribed Hsketch eq_refl eq_refl eq_refl)
      as (Hload & Herr & Hp & Hedit & Hview & Himages & Hsk & Hdesc & Hlist).
    split; [exact Hload|]. split; [exact Hedit|]. split; [exact Hview|].
    split; [exact Hp|]. split.
    + intros result' Heq. inversion Heq; subst result'. auto.
    + intros reason Heq. discriminate Heq.
  - destruct (settle_rejected reason cleared eq_refl eq_refl eq_refl)
      as (Hload & Herr & Hp & Hedit & Hview & Hdesc & Hcontent).
    split; [exact Hload|]. split; [exact Hedit|]. split; [exact Hview|].
    split; [exact Hp|]. split.
    + intros result Heq. discriminate Heq.
    + intros reason' Heq. inversion Heq; subst reason'. auto.
Qed.

(** The same on the scenario of the specification. *)
Lemma handleSubmit_settles_witness :
  exists cycle s',
    generateHouseDesign Samples.mushroom (App.prompt Cases.typed) = Some cycle
    /\ App.handleSubmit Samples.mushroom Cases.typed = Some (s', requests cycle)
    /\ App.isLoading s' = false
    /\ App.activeView s' = App.design.
Proof.
  destruct (handleSubmit_settles Samples.mushroom Cases.typed)
    as (cycle & s' & Hcycle & Hrun & Hload & _ & Hview & _).
  - discriminate.
  - reflexivity.
  - exists cycle, s'. auto.
Defined.

(** X17.  A submitted edit, once its cycle has settled: the application is
    not loading, not editing and on the design tab; after a success it
    shows exactly the images and the sketch of the result and the new
    description in place of the prior one; after a failure it shows the
    friendly sentence of the failure and no content, and it keeps the prior
    description. *)
Theorem handleEditSubmit_settles :
  forall (world : World) (preferences : EditPreferences) (s : App.State)
         (described : string),
    App.detailedDescription s = Some described ->
    described <> "" ->
    App.isLoading s = false ->
    exists cycle s',
      editHouseDesign world described preferences = Some cycle
      /\ App.handleEditSubmit world preferences s = Some (s', requests cycle)
      /\ App.isLoading s' = false
      /\ App.isEditing s' = false
      /\ App.activeView s' = App.design
      /\ App.prompt s' = App.prompt s
      /\ (forall result,
            settled (answer cycle) = Fulfilled result ->
            App.error s' = None
            /\ App.imageViews s' = imageViews result
            /\ App.sketchUrl s' = sketchUrl result
            /\ App.detailedDescription s' = Some (detailedDescription result)
            /\ App.cuttingList s'
               = (if App.json_truthy (cuttingList result)
                  then cuttingList result else JNull))
      /\ (forall reason,
            settled (answer cycle) = Rejected reason ->
            App.error s' = Some (App.getFriendlyErrorMessage reason)
            /\ App.hasContent s' = false
            /\ App.detailedDescription s' = Some described).
Proof.
  intros world preferences s described Hdescribed Hne Hidle.
  destruct (describe_returns world (edit_parameters described preferences)
              "Could not generate an updated description for the house.")
    as (cycle & Hcycle & _).
  fold (editHouseDesign world described preferences) in Hcycle.
  unfold App.handleEditSubmit. rewrite Hdescribed, Hidle.
  destruct described as [|c rest]; [congruence|].
  cbn [truthy negb orb]. cbn [App.prompt App.setIsLoading App.setError App.setImageUrls
    App.setSketchUrl App.setCuttingList App.setDetailedDescription App.setIsEditing
    App.setActiveView App.isLoading App.error App.imageViews App.sketchUrl App.cuttingList
    App.activeView App.detailedDescription App.isEditing].
  rewrite Hcycle.
  eexists cycle, _. split; [reflexivity|]. split; [reflexivity|].
  set (cleared := App.mkState (App.prompt s) true None None None JNull App.design
                    (App.detailedDescription s) false).
  destruct (settled (answer cycle)) as [result|reason] eqn:Hres.
  - destruct (entry_result_inv world _ _ cycle result Hcycle Hres) as [Hdesc' Hsketch].
    destruct (settle_fulfilled result cleared Hdesc' Hsketch eq_refl eq_refl eq_refl)
      as (Hload & Herr & Hp & Hedit & Hview & Himages & Hsk & Hdesc & Hlist).
    split; [exact Hload|]. split; [exact Hedit|]. split; [exact Hview|].
    split; [exact Hp|]. split.
    + intros result' Heq. inversion Heq; subst result'. auto.
    + intros reason Heq. discriminate Heq.
  - destruct (settle_rejected reason cleared eq_refl eq_refl eq_refl)
      as (Hload & Herr & Hp & Hedit & Hview & Hdesc & Hcontent).
    split; [exact Hload|]. split; [exact Hedit|]. split; [exact Hview|].
    split; [exact Hp|]. split.
    + intros result Heq. discriminate Heq.
    + intros reason' Heq. inversion Heq; subst reason'.
      split; [exact Herr|]. split; [exact Hcontent|].
      exact (eq_trans Hdesc Hdescribed).
Qed.

(** The same on a sample: an edit while the service refuses the key. *)
Lemma handleEditSubmit_settles_witness :
  exists cycle s',
    editHouseDesign Cases.locked_out "A round hut." Samples.red_roof = Some cycle
    /\ App.handleEditSubmit Cases.locked_out Samples.red_roof Cases.showing
       = Some (s', requests cycle)
    /\ App.error s' = Some App.api_key_message
    /\ App.hasContent s' = false
    /\ App.detailedDescription s' = Some "A round hut.".
Proof.
  destruct (handleEditSubmit_settles Cases.locked_out Samples.red_roof Cases.showing
              "A round hut.")
    as (cycle & s' & Hcycle & Hrun & _ & _ & _ & _ & _ & Hfailure).
  - reflexivity.
  - discriminate.
  - reflexivity.
  - exists cycle, s'. split; [exact Hcycle|]. split; [exact Hrun|].
    assert (Hres : settled (answer cycle)
                   = Rejected (ErrorObject "API key not valid. Please pass a valid API key.")).
    { assert (Hc : editHouseDesign Cases.locked_out "A round hut." Samples.red_roof
                   = Some cycle) by exact Hcycle.
      vm_compute in Hc. inversion Hc. reflexivity. }
    destruct (Hfailure _ Hres) as (Herr & Hcontent & Hdesc).
    split; [exact Herr|]. split; assumption.
Defined.

(** X18.  When the model answers a submitted idea with a text that is blank
    once trimmed, the application shows the hiccup sentence around the
    error raised by the service layer, has no content, and has sent the
    description request only. *)
Theorem blank_description_is_shown_as_hiccup :
  forall (world : World) (s : App.State) (response : GenerateContentResponse),
    trim (App.prompt s) <> "" ->
    App.isLoading s = false ->
    outcome (description_run world (description_parameters (App.prompt s)))
    = Fulfilled response ->
    trim (text response) = "" ->
    exists s' sent_requests,
      App.handleSubmit world s = Some (s', sent_requests)
      /\ App.error s'
         = Some (App.hiccup_message
                   "Could not generate a detailed description for the house.")
      /\ App.hasContent s' = false
      /\ App.isLoading s' = false
      /\ (forall r, In r sent_requests ->
            r = ContentRequest (description_parameters (App.prompt s))).
Proof.
  intros world s response Hprompt Hidle Hrun Hblank.
  unfold App.handleSubmit. rewrite Hidle.
  destruct (trim (App.prompt s)) as [|c rest] eqn:Htrim; [congruence|].
  cbn [truthy negb orb]. cbn [App.prompt App.setIsLoading App.setError App.setImageUrls
    App.setSketchUrl App.setCuttingList App.setDetailedDescription App.setIsEditing
    App.setActiveView App.isLoading App.error App.imageViews App.sketchUrl App.cuttingList
    App.activeView App.detailedDescription App.isEditing].
  unfold generateHouseDesign. rewrite (describe_blank world _ _ response Hrun Hblank).
  eexists _, _. split; [reflexivity|]. cbn [answer settled requests].
  split; [reflexivity|]. split; [reflexivity|]. split; [reflexivity|].
  intros r Hr. apply In_sent in Hr. exact Hr.
Qed.

(** The same on a sample: a model that answers with spaces. *)
Lemma blank_description_is_shown_as_hiccup_witness :
  exists s' sent_requests,
    App.handleSubmit Samples.blank Cases.typed = Some (s', sent_requests)
    /\ App.error s'
       = Some (App.hiccup_message
                 "Could not generate a detailed description for the house.")
    /\ App.hasContent s' = false.
Proof.
  destruct (blank_description_is_shown_as_hiccup Samples.blank Cases.typed
              (mkContentResponse "   "))
    as (s' & reqs & Hrun & Herr & Hcontent & _).
  - discriminate.
  - reflexivity.
  - reflexivity.
  - reflexivity.
  - exists s', reqs. auto.
Defined.

(** ** One description for each cycle *)

(** The wrapper consults the operation and the draws, and nothing else. *)
Lemma retry_loop_ext {T : Type} rnd rnd' (apiCall apiCall' : Operation T)
    maxRetries initialDelay :
  (forall k, rnd k = rnd' k) ->
  (forall k, apiCall k = apiCall' k) ->
  forall fuel attempt slept,
    retry_loop rnd apiCall maxRetries initialDelay fuel attempt slept
    = retry_loop rnd' apiCall' maxRetries initialDelay fuel attempt slept.
Proof.
  intros Hrnd Hcall. induction fuel as [|fuel IH]; intros attempt slept; [reflexivity|].
  cbn [retry_loop]. rewrite <- Hcall.
  destruct (apiCall attempt) as [v|error]; [reflexivity|].
  destruct ((maxRetries <=? Z.of_nat (S attempt))%Z || negb (isRateLimitError error));
    [reflexivity|].
  rewrite <- Hrnd. apply IH.
Qed.

Lemma callApiWithRetry_ext {T : Type} rnd rnd' (apiCall apiCall' : Operation T)
    maxRetries initialDelay :
  (forall k, rnd k = rnd' k) ->
  (forall k, apiCall k = apiCall' k) ->
  callApiWithRetry rnd apiCall maxRetries initialDelay
  = callApiWithRetry rnd' apiCall' maxRetries initialDelay.
Proof.
  intros Hrnd Hcall. unfold callApiWithRetry, callApiWithRetry_opt.
  rewrite (retry_loop_ext rnd rnd' apiCall apiCall' _ _ Hrnd Hcall). reflexivity.
Qed.

Section OneDescription.
Variable world world' : World.
Variable detailedDescription : string.
Hypothesis same : agree_on detailedDescription world world'.

Local Abbreviation d := detailedDescription.

Lemma view_run_agree view :
  In view VIEWS -> view_run world' d view = view_run world d view.
Proof.
  destruct same as (Hviews & _ & _ & Hrnd & _).
  intros Hin. unfold view_run, callApiWithRetry_default.
  apply callApiWithRetry_ext; intros k; symmetry; [apply Hrnd | apply Hviews, Hin].
Qed.

Lemma sketch_run_agree : sketch_run world' d = sketch_run world d.
Proof.
  destruct same as (_ & Hsketch & _ & Hrnd & _).
  unfold sketch_run, callApiWithRetry_default.
  apply callApiWithRetry_ext; intros k; symmetry; [apply Hrnd | apply Hsketch].
Qed.

Lemma cuttingList_run_agree : cuttingList_run world' d = cuttingList_run world d.
Proof.
  destruct same as (_ & _ & Hlist & Hrnd & _).
  unfold cuttingList_run, callApiWithRetry_default.
  apply callApiWithRetry_ext; intros k; symmetry; [apply Hrnd | apply Hlist].
Qed.

Lemma imagePromiseFactories_agree :
  imagePromiseFactories world' d = imagePromiseFactories world d.
Proof.
  destruct same as (_ & _ & _ & _ & Htook & _).
  unfold imagePromiseFactories. f_equal.
  - apply map_ext_in. intros view Hin. unfold view_factory.
    rewrite (view_run_agree view Hin), <- (Htook (ViewSite view)). reflexivity.
  - unfold sketch_factory. rewrite sketch_run_agree, <- (Htook SketchSite). reflexivity.
Qed.

Lemma factory_requests_agree :
  factory_requests world' d = factory_requests world d.
Proof.
  unfold factory_requests. f_equal.
  - apply map_ext_in. intros view Hin. rewrite (view_run_agree view Hin). reflexivity.
  - rewrite sketch_run_agree. reflexivity.
Qed.

Lemma assemble_agree images response :
  assemble world' d images response = assemble world d images response.
Proof.
  destruct same as (_ & _ & _ & _ & _ & Hparse).
  unfold assemble, parse_cuttingList. rewrite <- Hparse. reflexivity.
Qed.

(** The cycle is the same in both worlds. *)
Lemma generateAssets_agree :
  generateAssetsFromDescription world' d = generateAssetsFromDescription world d.
Proof.
  destruct same as (_ & _ & _ & _ & Htook & _).
  unfold generateAssetsFromDescription.
  rewrite imagePromiseFactories_agree, factory_requests_agree, cuttingList_run_agree.
  rewrite <- (Htook CuttingListSite).
  destruct (runPromisesInBatches (imagePromiseFactories world d) 3) as [batches|];
    [|reflexivity].
  f_equal. f_equal. f_equal.
  destruct (settled (Promise_all2 (returned batches)
              (mkPromise (outcome (cuttingList_run world d)) (took world CuttingListSite))))
    as [[images response]|reason]; cbn [then_]; [|reflexivity].
  rewrite assemble_agree. reflexivity.
Qed.

End OneDescription.

(** C9.  A cycle of asset generation for a description sends nothing but the
    seven requests built from that description (the five views, the sketch,
    the cutting list), whose prompts quote it, and always sends the one for
    the cutting list and those of the first three views; what the service
    would answer to any other request has no bearing on the cycle.  The cycle
    succeeds exactly when the seven calls, each through the retry wrapper,
    return; then each of the seven requests has been sent, the result
    carries the input description as it is, and its views, its sketch and
    its cutting list are those made of the answers to these seven calls. *)
Theorem generateAssets_single_description :
  forall (world : World) (detailed : string),
    let view_call view :=
      callApiWithRetry_default (Math_random world (ViewSite view))
        (generateImages (ai_models world) (view_parameters detailed view)) in
    let sketch_call :=
      callApiWithRetry_default (Math_random world SketchSite)
        (generateImages (ai_models world) (sketch_parameters detailed)) in
    let cuttingList_call :=
      callApiWithRetry_default (Math_random world CuttingListSite)
        (generateContent (ai_models world) (cuttingList_parameters detailed)) in
    exists cycle,
      generateAssetsFromDescription world detailed = Some cycle
      /\ (forall r, In r (requests cycle) ->
            In r (cycle_requests detailed)
            /\ quotes (request_prompt r) detailed)
      /\ In (ContentRequest (cuttingList_parameters detailed)) (requests cycle)
      /\ (forall view, In view (firstn 3 VIEWS) ->
            In (ImagesRequest (view_parameters detailed view)) (requests cycle))
      /\ (forall world', agree_on detailed world world' ->
            generateAssetsFromDescription world' detailed = Some cycle)
      /\ ((exists result, settled (answer cycle) = Fulfilled result) <->
          (forall view, In view VIEWS -> exists res, outcome (view_call view) = Fulfilled res)
          /\ (exists sres, outcome sketch_call = Fulfilled sres)
          /\ (exists cresp, outcome cuttingList_call = Fulfilled cresp))
      /\ (forall result,
            settled (answer cycle) = Fulfilled result ->
            detailedDescription result = detailed
            /\ (forall r, In r (cycle_requests detailed) -> In r (requests cycle))
            /\ exists res sres cresp,
                 (forall view, In view VIEWS -> outcome (view_call view) = Fulfilled (res view))
                 /\ outcome sketch_call = Fulfilled sres
                 /\ outcome cuttingList_call = Fulfilled cresp
                 /\ map label (views_of result)
                    = filter (fun view => has_payload (first_image_bytes (res view))) VIEWS
                 /\ (forall v, In v (views_of result) ->
                       displayed (first_image_bytes (res (label v))) = Some (url v))
                 /\ sketchUrl result = displayed (first_image_bytes sres)
                 /\ cuttingList result = parse_cuttingList world cresp).
Proof.
  intros world d view_call sketch_call cuttingList_call.
  change view_call with (view_run world d).
  change sketch_call with (sketch_run world d).
  change cuttingList_call with (cuttingList_run world d).
  clear view_call sketch_call cuttingList_call.
  destruct (generateAssets_cases world d) as (batches & Hcases & Hgen).
  assert (Hstarted : started batches = seq 0 3 \/ started batches = seq 0 6).
  { destruct Hcases as [(vs & _ & _ & Hst)|(c & j & f & r & Hj & Hnth & _ & _ & _ & Hst)].
    - right. exact Hst.
    - assert (Hlt : (j < 6)%nat)
        by (apply (proj1 (nth_error_Some (imagePromiseFactories world d) j)); congruence).
      destruct c as [|[|c]]; [left | right | lia]; rewrite Hst; reflexivity. }
  assert (Hfulfilled : forall images,
            settled (returned batches) = Fulfilled images -> started batches = seq 0 6).
  { intros images Himages.
    destruct Hcases as [(vs & _ & _ & Hst)|(c & j & f & r & _ & _ & _ & Hrej & _)];
      [exact Hst | congruence]. }
  eexists. split; [exact Hgen|].
  assert (Hsent : forall r,
            In r (sent (ContentRequest (cuttingList_parameters d)) (cuttingList_run world d)
                  ++ flat_map (fun i => nth i (factory_requests world d) [])
                              (started batches)) ->
            In r (cycle_requests d)).
  { intros r Hin. apply in_app_or in Hin. destruct Hin as [Hin|Hin].
    - apply In_sent in Hin. left. symmetry. exact Hin.
    - apply in_flat_map in Hin. destruct Hin as (i & _ & Hin).
      right. apply (In_factory_requests world d i r Hin). }
  assert (Hinv : forall result,
            settled (answer
              (mkCycle
                 (mkPromise
                    (then_ (fun '(allImageResults, cuttingListResponse) =>
                              assemble world d allImageResults cuttingListResponse)
                           (settled (Promise_all2 (returned batches)
                              (mkPromise (outcome (cuttingList_run world d))
                                         (took world CuttingListSite)))))
                    (latency (Promise_all2 (returned batches)
                              (mkPromise (outcome (cuttingList_run world d))
                                         (took world CuttingListSite)))))
                 (sent (ContentRequest (cuttingList_parameters d)) (cuttingList_run world d)
                  ++ flat_map (fun i => nth i (factory_requests world d) [])
                              (started batches)))) = Fulfilled result ->
            (forall view, In view VIEWS ->
               outcome (view_run world d view) = Fulfilled (view_response world d view))
            /\ exists sres cresp,
                 outcome (sketch_run world d) = Fulfilled sres
                 /\ outcome (cuttingList_run world d) = Fulfilled cresp
                 /\ result
                    = assemble world d
                        (map (fun view => ViewImageResult view
                                (first_image_bytes (view_response world d view))) VIEWS
                         ++ [SketchImageResult (first_image_bytes sres)])
                        cresp)
    by (intros result; apply (generateAssets_fulfilled_inv world d _ result Hgen)).
  split; [|split; [|split; [|split; [|split]]]].
  - intros r Hin. cbn [requests] in Hin. split; [apply Hsent, Hin|].
    apply cycle_requests_quote, Hsent, Hin.
  - cbn [requests]. apply in_or_app. left. apply sent_by_default.
  - intros view Hin. cbn [requests]. apply in_or_app. right. apply in_flat_map.
    destruct (In_nth_error _ _ Hin) as [i Hi].
    assert (Hi3 : (i < 3)%nat).
    { assert (H : (i < length (firstn 3 VIEWS))%nat) by (apply nth_error_Some; congruence).
      exact H. }
    exists i. split.
    + destruct Hstarted as [Hs|Hs]; rewrite Hs; apply in_seq; lia.
    + apply factory_request_sent.
      destruct i as [|[|[|i]]]; try lia; cbn in Hi; inversion Hi; subst view; reflexivity.
  - intros world' Hsame. rewrite (generateAssets_agree world world' d Hsame). exact Hgen.
  - split.
    + intros [result Hres]. destruct (Hinv result Hres) as (Hviews & sres & cresp & Hs & Hc & _).
      split; [|split]; eauto.
    + intros (Hviews & [sres Hs] & [cresp Hc]).
      destruct (generateAssets_success world d (view_response world d) sres cresp)
        as (cycle & Hgen' & Hres); try assumption.
      * intros view Hin. destruct (Hviews view Hin) as [res Hres].
        unfold view_response. rewrite Hres. reflexivity.
      * rewrite Hgen in Hgen'. inversion Hgen'; subst cycle. eauto.
  - intros result Hres.
    destruct (Hinv result Hres) as (Hviews & sres & cresp & Hs & Hc & Hresult).
    cbn [answer settled] in Hres. unfold Promise_all2 in Hres. cbn [settled] in Hres.
    destruct (settled (returned batches)) as [images|reason] eqn:Himages;
      [|rewrite Hc in Hres; cbn [then_] in Hres; discriminate Hres].
    pose proof (Hfulfilled images eq_refl) as Hall.
    split; [rewrite Hresult; reflexivity|]. split.
    + cbn [requests]. rewrite Hall. intros r [<-|Hin].
      * apply in_or_app. left. apply sent_by_default.
      * apply in_or_app. right. apply in_flat_map.
        destruct (In_nth_error _ _ Hin) as [i Hi].
        exists i. split.
        -- apply in_seq. split; [lia|].
           assert (Hlen : (i < length (map (fun view => ImagesRequest (view_parameters d view)) VIEWS
                                       ++ [ImagesRequest (sketch_parameters d)]))%nat)
             by (apply nth_error_Some; congruence).
           exact Hlen.
        -- apply factory_request_sent. exact Hi.
    + exists (view_response world d), sres, cresp.
      split; [exact Hviews|]. split; [exact Hs|]. split; [exact Hc|].
      rewrite Hresult. unfold assemble, views_of. cbn [imageViews sketchUrl cuttingList].
      rewrite (filter_map_view_of
                 (fun view => first_image_bytes (view_response world d view))),
              (find_sketch (fun view => first_image_bytes (view_response world d view))).
      set (kept := filter_map
                     (fun view => option_map (mkImageView view)
                        (displayed (first_image_bytes (view_response world d view)))) VIEWS).
      assert (Hkept : match (if (0 <? length kept)%nat then Some kept else None) with
                      | Some views => views
                      | None => []
                      end = kept) by (destruct kept; reflexivity).
      rewrite Hkept. split; [|split; [|split]].
      * apply labels_of_kept.
      * intros v Hin. apply (urls_of_kept _ VIEWS v Hin).
      * unfold sketch_url_of, displayed. reflexivity.
      * reflexivity.
Qed.

(** ** Characters outside ASCII *)

(** A description made of a no-break space and an em space is blank: the
    entry point rejects after its one request. *)
Example unicode_blank_description_is_a_failure :
  exists cycle,
    generateHouseDesign Samples.unicode_blank "a mushroom cottage" = Some cycle
    /\ settled (answer cycle)
       = Rejected (ErrorObject "Could not generate a detailed description for the house.")
    /\ requests cycle
       = [ContentRequest (description_parameters "a mushroom cottage")].
Proof.
  eexists. split; [vm_compute; reflexivity|]. split; reflexivity.
Qed.

(** A byte order mark before the cutting list is trimmed away before
    [JSON.parse], which would refuse it. *)
Example marked_cuttingList_is_parsed :
  exists cycle result,
    generateAssetsFromDescription Samples.marked_braces "A round hut." = Some cycle
    /\ settled (answer cycle) = Fulfilled result
    /\ JSON.parse (Samples.byte_order_mark ++ "{}")%string = None
    /\ cuttingList result = JObject [].
Proof.
  eexists _, _. split; [vm_compute; reflexivity|].
  split; [reflexivity|]. split; reflexivity.
Qed.

(** A message that spells [blocked] with a Kelvin sign is taken for a
    safety refusal. *)
Example kelvin_sign_is_lower_cased :
  App.getFriendlyErrorMessage
    (ErrorObject ("Request BLOC" ++ Samples.kelvin_sign ++ "ED by policy")%string)
  = App.safety_message
  /\ isRateLimitError
       (ErrorObject ("quota" ++ Samples.kelvin_sign)%string) = true.
Proof. split; reflexivity. Qed.

(** The reference parser on escapes and numbers: a pair of surrogates is one
    character of four bytes, a number is rounded to a double. *)
Example JSON_parse_samples :
  JSON.parse (dq ++ "\ud83d\ude00" ++ dq)%string
  = Some (JString (Samples.utf8_bytes [240; 159; 152; 128]))
  /\ JSON.parse (dq ++ "\u212A" ++ dq)%string = Some (JString Samples.kelvin_sign)
  /\ JSON.parse (dq ++ "\u00a0" ++ dq)%string = Some (JString Samples.no_break_space)
  /\ JSON.parse "0.1" = Some (JNumber (3602879701896397 # 36028797018963968))
  /\ JSON.parse "4" = Some (JNumber 4)
  /\ JSON.parse "-2.5e3" = Some (JNumber (-2500))
  /\ JSON.parse "1e-400" = Some (JNumber 0).
Proof. repeat split; vm_compute; reflexivity. Qed.
